(** * IonicSQLiteQueryRunner: schema introspection and table recreation

    A shallow embedding of [src/driver/ionic-sqlite/IonicSQLiteQueryRunner.ts]
    and the properties its specification states about it.

    Layout:
    - [Js]: the JavaScript primitives the runner relies on (string
      searching and slicing, dynamic values, object literals);
    - the autoincrement heuristic and the DDL statement builder, which
      are pure;
    - the descriptor classes ([ColumnSchema], [TableSchema], ...);
    - the runner's methods, as a state-and-error monad over an abstract
      SQLite engine, with promises for the calls that wait side by side;
    - the properties C1 to C10, and further properties of the runner. *)

From Stdlib Require Import ZArith String Ascii List Bool Lia DecimalString.
From stdpp Require Import strings gmap.
Import ListNotations.

Local Open Scope string_scope.
Local Open Scope Z_scope.

(** ** JavaScript primitives *)

Module Js.

(** Strings are sequences of 8-bit characters; indices count characters
    (JavaScript counts UTF-16 code units, which agree on ASCII text). *)

Definition dquote : string := String "034"%char EmptyString.

Definition len (s : string) : Z := Z.of_nat (String.length s).

(** [s.indexOf(t)]: position of the first occurrence of [t], or -1. *)
Fixpoint indexOf (s t : string) : Z :=
  if String.prefix t s then 0
  else match s with
       | EmptyString => -1
       | String _ s' => let r := indexOf s' t in if r <? 0 then -1 else r + 1
       end.

(** [s.lastIndexOf(t)]: position of the last occurrence of [t], or -1. *)
Fixpoint lastIndexOf (s t : string) : Z :=
  match s with
  | EmptyString => if String.prefix t s then 0 else -1
  | String _ s' =>
      let r := lastIndexOf s' t in
      if 0 <=? r then r + 1 else if String.prefix t s then 0 else -1
  end.

(** [s.substr(start, length)]; [None] stands for an omitted length.  A
    negative start counts from the end, a negative length yields the
    empty string. *)
Definition substr (s : string) (start : Z) (length : option Z) : string :=
  let size := len s in
  let from := if start <? 0 then Z.max (size + start) 0 else Z.min start size in
  let count := match length with
               | None => size - from
               | Some n => Z.min (Z.max n 0) (size - from)
               end in
  String.substring (Z.to_nat from) (Z.to_nat count) s.

(** [xs.join(sep)] *)
Fixpoint join (sep : string) (xs : list string) : string :=
  match xs with
  | [] => EmptyString
  | [x] => x
  | x :: rest => x +:+ sep +:+ join sep rest
  end.

Definition lowerChar (c : ascii) : ascii :=
  let n := nat_of_ascii c in
  if ((65 <=? n) && (n <=? 90))%nat then ascii_of_nat (n + 32) else c.

(** [s.toLowerCase()] on ASCII letters. *)
Fixpoint toLowerCase (s : string) : string :=
  match s with
  | EmptyString => EmptyString
  | String c s' => String (lowerChar c) (toLowerCase s')
  end.

(** Does the character occur in the string? *)
Fixpoint occurs (c : ascii) (s : string) : bool :=
  match s with
  | EmptyString => false
  | String d s' => Ascii.eqb c d || occurs c s'
  end.

(** Dynamic values as they come back from the engine.  Numbers are the
    integers the catalog reports (flags, positions, ids). *)
Inductive Value :=
| Undefined
| Null
| Bool (b : bool)
| Num (n : Z)
| Str (s : string).

(** [a === b] *)
Definition strictEq (a b : Value) : bool :=
  match a, b with
  | Undefined, Undefined => true
  | Null, Null => true
  | Bool x, Bool y => Bool.eqb x y
  | Num x, Num y => Z.eqb x y
  | Str x, Str y => String.eqb x y
  | _, _ => false
  end.

(** Truthiness, as tested by [if (v)], [!v] and [v ? a : b]. *)
Definition truthy (v : Value) : bool :=
  match v with
  | Undefined | Null => false
  | Bool b => b
  | Num n => negb (n =? 0)
  | Str s => negb (String.eqb s EmptyString)
  end.

Definition numToString (n : Z) : string := NilZero.string_of_int (Z.to_int n).

(** String coercion, as done by template literals and by [+] with a
    string operand. *)
Definition toStr (v : Value) : string :=
  match v with
  | Undefined => "undefined"
  | Null => "null"
  | Bool true => "true"
  | Bool false => "false"
  | Num n => numToString n
  | Str s => s
  end.

(** An object literal: its own enumerable properties, in the order
    [for ... in] and [Object.keys] enumerate them. *)
Definition ObjectLiteral := list (string * Value).

(** [o[k]] *)
Fixpoint prop (o : ObjectLiteral) (k : string) : Value :=
  match o with
  | [] => Undefined
  | (k', v) :: rest => if String.eqb k k' then v else prop rest k
  end.

(** [Object.keys(o)], also the names visited by [for (const p in o)]. *)
Definition keys (o : ObjectLiteral) : list string := map fst o.

(** [xs.indexOf(x) >= 0] on an array of strings. *)
Definition includes (xs : list string) (x : string) : bool :=
  existsb (String.eqb x) xs.

End Js.

(** ** Autoincrement heuristic

    Lines 273-290 of the source: the name of the generated column is cut
    out of the table's creation text. [None] is [undefined]. *)

Definition autoIncrementColumnName (tableSql : string) : option string :=
  if negb (Js.indexOf tableSql "AUTOINCREMENT" =? -1) then
    let name := Js.substr tableSql 0 (Some (Js.indexOf tableSql "AUTOINCREMENT")) in
    let comma := Js.lastIndexOf name "," in
    let bracket := Js.lastIndexOf name "(" in
    if negb (comma =? -1) then
      let name := Js.substr name comma None in
      let name := Js.substr name 0 (Some (Js.lastIndexOf name Js.dquote)) in
      let name := Js.substr name (Js.indexOf name Js.dquote + 1) None in
      Some name
    else if negb (bracket =? -1) then
      let name := Js.substr name bracket None in
      let name := Js.substr name 0 (Some (Js.lastIndexOf name Js.dquote)) in
      let name := Js.substr name (Js.indexOf name Js.dquote + 1) None in
      Some name
    else Some name
  else None.


(** ** Errors

    The error classes the runner throws, a [TypeError] of the language,
    and the value a failed statement is rejected with. *)

Inductive Error :=
| QueryRunnerAlreadyReleasedError
| TransactionAlreadyStartedError
| TransactionNotStartedError
| DataTypeNotSupportedByDriverError (type driver : string)
| TypeError                      (* a method called on a value that lacks it *)
| Rejected (error : Js.Value).   (* the value [executeSql] rejected with *)

Inductive Result (A : Type) :=
| Ok (a : A)
| Throw (e : Error).
Arguments Ok {A} a.
Arguments Throw {A} e.

(** [xs.map(f)] where [f] may throw: the first exception aborts the map. *)
Fixpoint mapResult {A B} (f : A -> Result B) (xs : list A) : Result (list B) :=
  match xs with
  | [] => Ok []
  | x :: rest =>
      match f x with
      | Throw e => Throw e
      | Ok y => match mapResult f rest with
                | Throw e => Throw e
                | Ok ys => Ok (y :: ys)
                end
      end
  end.

(** ** Descriptor classes

    The runner imports these classes; the records carry the fields the
    runner reads and writes, with the types the source declares for
    them. *)

Module ColumnMetadata.
(** Modelled from the spec: the class [ColumnMetadata] is declared outside
    the runner's file.  A column that carries full metadata; these are the
    properties [normalizeType] reads. *)
Record t := mk {
  type : string;
  normalizedDataType : string;
  length : Js.Value;
  precision : Js.Value;
  scale : Js.Value;
  timezone : Js.Value
}.
End ColumnMetadata.

Module ColumnSchema.
(** Modelled from the spec: the class [ColumnSchema] is declared outside
    the runner's file.  The ColumnDescriptor: name, declared type string,
    default value, nullability flag, primary-key membership flag,
    generated flag, uniqueness flag.  [metadata = Some m] stands for
    [column instanceof ColumnMetadata]. *)
Record t := mk {
  name : string;
  type : string;
  default : Js.Value;
  isNullable : bool;
  isPrimary : bool;
  isGenerated : bool;
  isUnique : bool;
  comment : string;
  metadata : option ColumnMetadata.t
}.

Definition setUnique (c : t) (b : bool) : t :=
  mk (name c) (type c) (default c) (isNullable c) (isPrimary c)
     (isGenerated c) b (comment c) (metadata c).
End ColumnSchema.

Module PrimaryKeySchema.
(** Modelled from the spec: the class [PrimaryKeySchema] is declared
    outside the runner's file.  Owning index name and column name. *)
Record t := mk { name : string; columnName : string }.
End PrimaryKeySchema.

Module ForeignKeySchema.
(** Modelled from the spec: the class [ForeignKeySchema] is declared
    outside the runner's file.  Synthesized name, local column names,
    referenced column names, referenced table name, on-delete action. *)
Record t := mk {
  name : string;
  columnNames : list string;
  referencedColumnNames : list string;
  referencedTableName : string;
  onDelete : Js.Value
}.
End ForeignKeySchema.

Module IndexSchema.
(** Modelled from the spec: the class [IndexSchema] is declared outside
    the runner's file.  Table name, index name, indexed column names,
    uniqueness flag. *)
Record t := mk {
  tableName : string;
  name : string;
  columnNames : list string;
  isUnique : bool
}.
End IndexSchema.

Module TableSchema.
(** Modelled from the spec: the class [TableSchema] is declared outside
    the runner's file.  Table name, columns, indices, foreign keys and
    primary keys. *)
Record t := mk {
  name : string;
  columns : list ColumnSchema.t;
  indices : list IndexSchema.t;
  foreignKeys : list ForeignKeySchema.t;
  primaryKeys : list PrimaryKeySchema.t
}.

(** Modelled from the spec: [new TableSchema(name)], a descriptor
    constructed fresh, with nothing attached yet. *)
Definition new (name : string) : t := mk name [] [] [] [].

Definition setColumns (ts : t) (cs : list ColumnSchema.t) : t :=
  mk (name ts) cs (indices ts) (foreignKeys ts) (primaryKeys ts).
Definition setIndices (ts : t) (ixs : list IndexSchema.t) : t :=
  mk (name ts) (columns ts) ixs (foreignKeys ts) (primaryKeys ts).
Definition setForeignKeys (ts : t) (fks : list ForeignKeySchema.t) : t :=
  mk (name ts) (columns ts) (indices ts) fks (primaryKeys ts).
Definition setPrimaryKeys (ts : t) (pks : list PrimaryKeySchema.t) : t :=
  mk (name ts) (columns ts) (indices ts) (foreignKeys ts) pks.

(** Modelled from the spec: [TableSchema.addForeignKeys] is declared
    outside the runner's file; the descriptors are attached to the table,
    after the ones it already has. *)
Definition addForeignKeys (ts : t) (fks : list ForeignKeySchema.t) : t :=
  setForeignKeys ts (foreignKeys ts ++ fks).

(** Modelled from the spec: [TableSchema.removeColumns] is declared
    outside the runner's file; the named columns leave the column list,
    the others keep their order. *)
Definition removeColumns (ts : t) (cs : list ColumnSchema.t) : t :=
  setColumns ts
    (List.filter (fun c => negb (Js.includes (map ColumnSchema.name cs) (ColumnSchema.name c)))
            (columns ts)).

(** Modelled from the spec: [TableSchema.removeForeignKeys] is declared
    outside the runner's file; the named foreign keys leave the list. *)
Definition removeForeignKeys (ts : t) (fks : list ForeignKeySchema.t) : t :=
  setForeignKeys ts
    (List.filter (fun k => negb (Js.includes (map ForeignKeySchema.name fks) (ForeignKeySchema.name k)))
            (foreignKeys ts)).
End TableSchema.

(** ** DDL statement builder *)

Definition quoted (s : string) : string := Js.dquote +:+ s +:+ Js.dquote.

(** [normalizeType], lines 472-527. *)
Definition normalizeType (column : ColumnMetadata.t) : Result string :=
  let dt := ColumnMetadata.normalizedDataType column in
  let length := ColumnMetadata.length column in
  let precision := ColumnMetadata.precision column in
  let scale := ColumnMetadata.scale column in
  let timezone := ColumnMetadata.timezone column in
  if String.eqb dt "string" then
    Ok ("character varying(" +:+ (if Js.truthy length then Js.toStr length else "255") +:+ ")")
  else if String.eqb dt "text" then Ok "text"
  else if String.eqb dt "boolean" then Ok "boolean"
  else if String.eqb dt "integer" || String.eqb dt "int" then Ok "integer"
  else if String.eqb dt "smallint" then Ok "smallint"
  else if String.eqb dt "bigint" then Ok "bigint"
  else if String.eqb dt "float" then Ok "real"
  else if String.eqb dt "double" || String.eqb dt "number" then Ok "double precision"
  else if String.eqb dt "decimal" then
    if Js.truthy precision && Js.truthy scale then
      Ok ("decimal(" +:+ Js.toStr precision +:+ "," +:+ Js.toStr scale +:+ ")")
    else if Js.truthy scale then Ok ("decimal(" +:+ Js.toStr scale +:+ ")")
    else if Js.truthy precision then Ok ("decimal(" +:+ Js.toStr precision +:+ ")")
    else Ok "decimal"
  else if String.eqb dt "date" then Ok "date"
  else if String.eqb dt "time" then
    if Js.truthy timezone then Ok "time with time zone" else Ok "time without time zone"
  else if String.eqb dt "datetime" then
    if Js.truthy timezone then Ok "timestamp with time zone"
    else Ok "timestamp without time zone"
  else if String.eqb dt "json" then Ok "json"
  else if String.eqb dt "simple_array" then
    Ok (if Js.truthy length then "character varying(" +:+ Js.toStr length +:+ ")" else "text")
  else Throw (DataTypeNotSupportedByDriverError (ColumnMetadata.type column) "SQLite").

(** [buildCreateColumnSql], lines 543-558.  It reads nothing but its
    argument and writes nothing. *)
Definition buildCreateColumnSql (column : ColumnSchema.t) : Result string :=
  let c := Js.dquote +:+ ColumnSchema.name column +:+ Js.dquote in
  match (match ColumnSchema.metadata column with
         | Some m => match normalizeType m with
                     | Ok ty => Ok (c +:+ " " +:+ ty)
                     | Throw e => Throw e
                     end
         | None => Ok (c +:+ " " +:+ ColumnSchema.type column)
         end) with
  | Throw e => Throw e
  | Ok c =>
      let c := if negb (ColumnSchema.isNullable column) then c +:+ " NOT NULL" else c in
      let c := if ColumnSchema.isUnique column then c +:+ " UNIQUE" else c in
      let c := if ColumnSchema.isGenerated column
               then c +:+ " PRIMARY KEY AUTOINCREMENT" else c in
      Ok c
  end.

(** The columns of the composite primary key clause:
    [columns.filter(column => column.isPrimary && !column.isGenerated)]. *)
Definition primaryKeyColumns (table : TableSchema.t) : list ColumnSchema.t :=
  List.filter (fun column => ColumnSchema.isPrimary column && negb (ColumnSchema.isGenerated column))
         (TableSchema.columns table).

(** The statement text built by [createTable], lines 370-375. *)
Definition createTableSql (table : TableSchema.t) : Result string :=
  match mapResult buildCreateColumnSql (TableSchema.columns table) with
  | Throw e => Throw e
  | Ok defs =>
      let columnDefinitions := Js.join ", " defs in
      let sql := "CREATE TABLE IF NOT EXISTS " +:+ quoted (TableSchema.name table)
                 +:+ " (" +:+ columnDefinitions in
      let sql := if (0 <? Z.of_nat (List.length (primaryKeyColumns table)))
                 then sql +:+ ", PRIMARY KEY("
                          +:+ Js.join ", " (map ColumnSchema.name (primaryKeyColumns table))
                          +:+ ")"
                 else sql in
      Ok (sql +:+ ")")
  end.

(** One pass of the [foreignKeys.forEach] loop of [recreateTable],
    lines 568-572: the clause appended to [sql1]. *)
Definition foreignKeyClause (foreignKey : ForeignKeySchema.t) : string :=
  let columnNames := Js.join ", " (map quoted (ForeignKeySchema.columnNames foreignKey)) in
  let referencedColumnNames :=
    Js.join ", " (map quoted (ForeignKeySchema.referencedColumnNames foreignKey)) in
  ", FOREIGN KEY(" +:+ columnNames +:+ ") REFERENCES "
  +:+ quoted (ForeignKeySchema.referencedTableName foreignKey)
  +:+ "(" +:+ referencedColumnNames +:+ ")".

(** The staging statement [sql1] of [recreateTable], lines 563-578. *)
Definition recreateTableSql1 (tableSchema : TableSchema.t) : Result string :=
  match mapResult buildCreateColumnSql (TableSchema.columns tableSchema) with
  | Throw e => Throw e
  | Ok defs =>
      let columnDefinitions := Js.join ", " defs in
      let sql1 := "CREATE TABLE " +:+ quoted ("temporary_" +:+ TableSchema.name tableSchema)
                  +:+ " (" +:+ columnDefinitions in
      let sql1 := fold_left (fun sql1 foreignKey => sql1 +:+ foreignKeyClause foreignKey)
                            (TableSchema.foreignKeys tableSchema) sql1 in
      let sql1 := if (0 <? Z.of_nat (List.length (primaryKeyColumns tableSchema)))
                  then sql1 +:+ ", PRIMARY KEY("
                            +:+ Js.join ", " (map ColumnSchema.name (primaryKeyColumns tableSchema))
                            +:+ ")"
                  else sql1 in
      Ok (sql1 +:+ ")")
  end.

(** The data-copy statement [sql2] of [recreateTable], lines 588-595,
    from the first row of the probe. *)
Definition colInTwiceArr (tableSchema : TableSchema.t) (firstRow : Js.ObjectLiteral) : list string :=
  let oldColumnNamesArr := Js.keys firstRow in
  let newColumnNamesArr := map ColumnSchema.name (TableSchema.columns tableSchema) in
  List.filter (fun x => Js.includes newColumnNamesArr x) oldColumnNamesArr.

Definition recreateTableSql2 (tableSchema : TableSchema.t) (firstRow : Js.ObjectLiteral) : string :=
  let colInTwice := Js.join ", " (map quoted (colInTwiceArr tableSchema firstRow)) in
  let colInTwiceWithout := Js.join ", " (colInTwiceArr tableSchema firstRow) in
  "INSERT INTO " +:+ quoted ("temporary_" +:+ TableSchema.name tableSchema)
  +:+ " (" +:+ colInTwiceWithout +:+ ") SELECT " +:+ colInTwice
  +:+ " FROM " +:+ quoted (TableSchema.name tableSchema).

(** The statement text built by [createIndex], lines 453-454. *)
Definition createIndexSql (index : IndexSchema.t) : string :=
  let columnNames := Js.join "," (map quoted (IndexSchema.columnNames index)) in
  "CREATE " +:+ (if IndexSchema.isUnique index then "UNIQUE " else EmptyString)
  +:+ "INDEX " +:+ quoted (IndexSchema.name index)
  +:+ " ON " +:+ quoted (IndexSchema.tableName index) +:+ "(" +:+ columnNames +:+ ")".

(** The trailing primary-key clause of a [CREATE TABLE] statement. *)
Definition compositeKeyClause (names : list string) : string :=
  match names with
  | [] => EmptyString
  | _ => ", PRIMARY KEY(" +:+ Js.join ", " names +:+ ")"
  end.

(** The column fragment as the specification words it: the generated
    clause takes precedence over the UNIQUE clause, which is left out of
    the fragment of a generated column. *)
Definition precedenceColumnSql (column : ColumnSchema.t) : Result string :=
  let c := Js.dquote +:+ ColumnSchema.name column +:+ Js.dquote in
  match (match ColumnSchema.metadata column with
         | Some m => match normalizeType m with
                     | Ok ty => Ok (c +:+ " " +:+ ty)
                     | Throw e => Throw e
                     end
         | None => Ok (c +:+ " " +:+ ColumnSchema.type column)
         end) with
  | Throw e => Throw e
  | Ok c =>
      let c := if negb (ColumnSchema.isNullable column) then c +:+ " NOT NULL" else c in
      let c := if ColumnSchema.isGenerated column then c +:+ " PRIMARY KEY AUTOINCREMENT"
               else if ColumnSchema.isUnique column then c +:+ " UNIQUE"
               else c in
      Ok c
  end.

(** ** The engine and the runner's state *)

(** Modelled from the spec: [SQLiteObject] comes from the SQLite plugin.
    What [executeSql] resolves with: either a row set or a non-row result
    (a result object whose [rows] list may be absent), and the id of the
    last inserted row. *)
Record SqlResult := mkSqlResult {
  rows : option (list Js.ObjectLiteral);
  insertId : Js.Value
}.

(** What [query] resolves with: the rows copied into an array when the
    result has a [rows] list, the result object itself otherwise. *)
Inductive QueryResult :=
| Rows (l : list Js.ObjectLiteral)
| Raw (result : SqlResult).

(** Modelled from the spec: [Logger] is declared outside the runner's
    file.  The logging sink; the calls it receives for successful queries,
    failed queries and raw errors. *)
Inductive LogEntry :=
| LogQuery (query : string) (parameters : list Js.Value)
| LogFailedQuery (query : string) (parameters : list Js.Value)
| LogQueryError (error : Js.Value).

(** Modelled from the spec: [IonicSQLiteDriver] is declared outside the
    runner's file.  Its identifier-escaping functions for column and table
    names. *)
Record IonicSQLiteDriver := mkDriver {
  escapeColumnName : string -> string;
  escapeTableName : string -> string
}.

(** Modelled from the spec: [NamingStrategyInterface] is declared outside
    the runner's file.  The naming-strategy capability, used only to
    synthesize foreign-key names. *)
Record NamingStrategyInterface := mkNamingStrategy {
  foreignKeyName : string -> list string -> string -> list string -> string
}.

Module DatabaseConnection.
(** Modelled from the spec: [DatabaseConnection] is declared outside the
    runner's file.  [connection] is the state of the database behind the
    connection; [releaseCallback], when present, is the outcome of calling
    it. *)
Record t (DB : Type) := mk {
  connection : DB;
  isTransactionActive : bool;
  releaseCallback : option (Result unit)
}.
Arguments mk {DB}.
Arguments connection {DB}.
Arguments isTransactionActive {DB}.
Arguments releaseCallback {DB}.
End DatabaseConnection.

(** The state the runner's methods work on: the runner's own flag, its
    connection, what the logger was told, and the [TableSchema] objects
    the caller holds references to. *)
Record State (DB : Type) := mkState {
  isReleased : bool;
  databaseConnection : DatabaseConnection.t DB;
  logger : list LogEntry;
  heap : gmap positive TableSchema.t
}.
Arguments mkState {DB}.
Arguments isReleased {DB}.
Arguments databaseConnection {DB}.
Arguments logger {DB}.
Arguments heap {DB}.

(** The statements handed to the logger's [logQuery], oldest first: every
    call of [executeSql] is preceded by exactly one such call. *)
Fixpoint issued (log : list LogEntry) : list string :=
  match log with
  | [] => []
  | LogQuery query _ :: rest => query :: issued rest
  | _ :: rest => issued rest
  end.

(** A scripted engine for examples: a table from statement text to
    outcome.  A statement that is not listed succeeds with no rows; the
    database never changes. *)
Definition Script := list (string * (Js.Value + SqlResult)).

Definition scripted (db : Script) (query : string) (parameters : list Js.Value)
  : Script * (Js.Value + SqlResult) :=
  (db, match find (fun entry => String.eqb (fst entry) query) db with
       | Some (_, outcome) => outcome
       | None => inr (mkSqlResult (Some []) Js.Undefined)
       end).

Definition plainDriver : IonicSQLiteDriver := mkDriver quoted quoted.

Definition plainNaming : NamingStrategyInterface :=
  mkNamingStrategy (fun tableName columnNames referencedTable _ =>
    "fk_" +:+ tableName +:+ "_" +:+ Js.join "_" columnNames +:+ "_" +:+ referencedTable).

Definition freshState (db : Script) (releaseCallback : option (Result unit)) : State Script :=
  mkState false (DatabaseConnection.mk db false releaseCallback) [] ∅.

(** ** The runner *)

Section Runner.
Context {DB : Type}.

(** [SQLiteObject.executeSql] on the database behind the connection:
    the new database state, and either the rejection value or the
    result. *)
Variable executeSql : DB -> string -> list Js.Value -> DB * (Js.Value + SqlResult).

Variable driver : IonicSQLiteDriver.

(** Asynchronous methods: state in, state and outcome out.  [Throw]
    is a rejected promise (or an exception thrown before the first
    await). *)
Definition M (A : Type) : Type := State DB -> State DB * Result A.

Definition ret {A} (a : A) : M A := fun st => (st, Ok a).
Definition throw {A} (e : Error) : M A := fun st => (st, Throw e).
Definition bind {A B} (m : M A) (k : A -> M B) : M B :=
  fun st => match m st with
            | (st', Ok a) => k a st'
            | (st', Throw e) => (st', Throw e)
            end.
Definition liftResult {A} (r : Result A) : M A := fun st => (st, r).

Notation "x <- m ;; k" := (bind m (fun x => k))
  (at level 100, m at next level, right associativity).
Notation "m ;;; k" := (bind m (fun _ => k))
  (at level 100, right associativity).

(** *** Promises

    A promise that waits for the engine goes on when the engine has
    answered.  The engine takes the statements in the order in which they
    are handed to it and answers them in that order, one at a time; what an
    answer sets going (the failure entries of the log, the code of an async
    function up to its next [await]) runs before the next answer is looked
    at.  So promises that wait at the same time are resumed in turn, in the
    order in which they were created. *)

(** Work that goes on when the promise that started it is rejected
    already: nobody waits for its outcome. *)
#[warnings="-register-all"]
Inductive Background : Type :=
| Idle
| Running (resume : State DB -> State DB * Background).

(** A promise: fulfilled with a value; rejected with a reason, while
    what it had started may still be running; or pending, with what it
    does once the answers it waits for have arrived. *)
#[warnings="-register-all"]
Inductive Promise (A : Type) : Type :=
| Fulfilled (value : A)
| Failed (reason : Error) (rest : Background)
| Pending (resume : State DB -> State DB * Promise A).
Arguments Fulfilled {A} value.
Arguments Failed {A} reason rest.
Arguments Pending {A} resume.

(** Background work run to its end. *)
Fixpoint drain (work : Background) (st : State DB) : State DB :=
  match work with
  | Idle => st
  | Running resume => let '(st', work') := resume st in drain work' st'
  end.

(** A promise run to its end: its outcome, in the state in which
    nothing it has started is waiting any more. *)
Fixpoint settle {A} (p : Promise A) : M A := fun st =>
  match p with
  | Fulfilled a => (st, Ok a)
  | Failed e rest => (drain rest st, Throw e)
  | Pending resume => let '(st', p') := resume st in settle p' st'
  end.

(** [await call], by a caller beside which nothing else is running.  A
    method of the runner called on a runner at rest is run in this way up
    to the state in which everything it has started has come to its
    end. *)
Definition await {A} (call : M (Promise A)) : M A := bind call settle.

(** What a promise still does when its outcome is of no interest any
    more. *)
Fixpoint forget {A} (p : Promise A) : Background :=
  match p with
  | Fulfilled _ => Idle
  | Failed _ rest => rest
  | Pending resume => Running (fun st => let '(st', p') := resume st in (st', forget p'))
  end.

(** Two pieces of background work side by side, the older one first in
    every turn. *)
Fixpoint par (a b : Background) {struct a} : Background :=
  match a, b with
  | Idle, _ => b
  | _, Idle => a
  | Running ra, Running rb =>
      Running (fun st => let '(st1, a') := ra st in
                         let '(st2, b') := rb st1 in (st2, par a' b'))
  end.

(** [p.then(f)] for a function [f] that neither throws nor waits. *)
Fixpoint mapPromise {A B} (f : A -> B) (p : Promise A) : Promise B :=
  match p with
  | Fulfilled a => Fulfilled (f a)
  | Failed e rest => Failed e rest
  | Pending resume => Pending (fun st => let '(st', p') := resume st in (st', mapPromise f p'))
  end.

(** [Promise.all([p, q])], [p] created before [q]: fulfilled when both
    are; rejected as soon as one of them is, with the reason of the one
    rejected first, while the other one runs on. *)
Fixpoint both {A B} (p : Promise A) (q : Promise B) {struct p} : Promise (A * B) :=
  match p with
  | Fulfilled a => mapPromise (pair a) q
  | Failed e rest => Failed e (par rest (forget q))
  | Pending rp =>
      match q with
      | Fulfilled b => mapPromise (fun a => (a, b)) p
      | Failed e rest => Failed e (par (forget p) rest)
      | Pending rq =>
          Pending (fun st => let '(st1, p') := rp st in
                             let '(st2, q') := rq st1 in (st2, both p' q'))
      end
  end.

(** [Promise.all(ps)] over promises created in list order. *)
Fixpoint all {A} (ps : list (Promise A)) : Promise (list A) :=
  match ps with
  | [] => Fulfilled []
  | p :: rest => mapPromise (fun al => fst al :: snd al) (both p (all rest))
  end.

(** The array of promises that [calls.map(call => call())] builds: the
    calls are made in list order, each one running up to its first
    [await]; an exception thrown by a call ends the loop. *)
Fixpoint startAll {A} (calls : list (M (Promise A))) : M (list (Promise A)) :=
  match calls with
  | [] => ret []
  | call :: rest => bind call (fun p => bind (startAll rest) (fun ps => ret (p :: ps)))
  end.

(** [Promise.all(calls.map(call => call()))]. *)
Definition allOf {A} (calls : list (M (Promise A))) : M (Promise (list A)) :=
  bind (startAll calls) (fun ps => ret (all ps)).

(** [await Promise.all(...)] by a caller beside which nothing else is
    running. *)
Definition promiseAll {A} (calls : list (M (Promise A))) : M (list A) :=
  await (allOf calls).

(** The body of an async function: it runs up to its first [await] and
    leaves a promise.  An exception in the body rejects the promise. *)
Definition Async (A : Type) : Type := State DB -> State DB * Promise A.

Definition resolve {A} (a : A) : Async A := fun st => (st, Fulfilled a).
Definition reject {A} (e : Error) : Async A := fun st => (st, Failed e Idle).

(** Code of the body that does not wait. *)
Definition sync {A B} (m : M A) (k : A -> Async B) : Async B := fun st =>
  match m st with
  | (st', Ok a) => k a st'
  | (st', Throw e) => (st', Failed e Idle)
  end.

(** The body from an [await p] on: [k] runs with the value of [p] once
    [p] is fulfilled; a rejection of [p] is the body's own, since nothing
    in this file catches one. *)
Fixpoint andThen {A B} (p : Promise A) (k : A -> Async B) : Async B := fun st =>
  match p with
  | Fulfilled a => k a st
  | Failed e rest => (st, Failed e rest)
  | Pending resume =>
      (st, Pending (fun st => let '(st', p') := resume st in andThen p' k st'))
  end.

(** [const x = await call; k x] inside the body. *)
Definition awaiting {A B} (call : M (Promise A)) (k : A -> Async B) : Async B := fun st =>
  match call st with
  | (st', Ok p) => andThen p k st'
  | (st', Throw e) => (st', Failed e Idle)
  end.

(** The call of an async function: it never throws. *)
Definition async {A} (body : Async A) : M (Promise A) := fun st =>
  let '(st', p) := body st in (st', Ok p).

Definition setReleased (st : State DB) (b : bool) : State DB :=
  mkState b (databaseConnection st) (logger st) (heap st).
Definition setConnection (st : State DB) (db : DB) : State DB :=
  let c := databaseConnection st in
  mkState (isReleased st)
          (DatabaseConnection.mk db (DatabaseConnection.isTransactionActive c)
                                 (DatabaseConnection.releaseCallback c))
          (logger st) (heap st).
Definition setTransactionActive (b : bool) : M unit := fun st =>
  let c := databaseConnection st in
  (mkState (isReleased st)
           (DatabaseConnection.mk (DatabaseConnection.connection c) b
                                  (DatabaseConnection.releaseCallback c))
           (logger st) (heap st), Ok tt).
Definition log (st : State DB) (entry : LogEntry) : State DB :=
  mkState (isReleased st) (databaseConnection st) (logger st ++ [entry])%list (heap st).
Definition setHeap (st : State DB) (h : gmap positive TableSchema.t) : State DB :=
  mkState (isReleased st) (databaseConnection st) (logger st) h.

(** [if (this.isReleased) throw new QueryRunnerAlreadyReleasedError();] *)
Definition throwIfReleased : M unit := fun st =>
  if isReleased st then (st, Throw QueryRunnerAlreadyReleasedError) else (st, Ok tt).

(** [release], lines 54-61. *)
Definition release : M unit := fun st =>
  match DatabaseConnection.releaseCallback (databaseConnection st) with
  | Some outcome => (setReleased st true, outcome)
  | None => (st, Ok tt)
  end.

(** [query], lines 124-156.  The released check and [logQuery] come
    before the promise exists; the statement is handed to the engine, and
    the promise waits for the answer.  On a failure it tells the logger and
    is rejected with the engine's error. *)
Definition query (query : string) (parameters : list Js.Value) : M (Promise QueryResult) :=
  fun st =>
  if isReleased st then (st, Throw QueryRunnerAlreadyReleasedError)
  else
    let st := log st (LogQuery query parameters) in
    match executeSql (DatabaseConnection.connection (databaseConnection st)) query parameters with
    | (db, inr result) =>
        (setConnection st db,
         Ok (Pending (fun st =>
               (st, Fulfilled (match rows result with
                               | Some l => Rows l
                               | None => Raw result
                               end)))))
    | (db, inl error) =>
        (setConnection st db,
         Ok (Pending (fun st =>
               (log (log st (LogFailedQuery query parameters)) (LogQueryError error),
                Failed (Rejected error) Idle))))
    end.

(** Array methods ([map], [filter]) called on what [query] resolved
    with: a result object that is not an array has none of them. *)
Definition asArray (r : QueryResult) : M (list Js.ObjectLiteral) :=
  match r with
  | Rows l => ret l
  | Raw _ => throw TypeError
  end.

(** [isTransactionActive], lines 117-119. *)
Definition isTransactionActive : M bool := fun st =>
  (st, Ok (DatabaseConnection.isTransactionActive (databaseConnection st))).

(** [clearDatabase], lines 66-73. *)
Definition clearDatabase : M unit :=
  throwIfReleased ;;;
  let selectDropsQuery :=
    "select 'drop table ' || name || ';' as query from sqlite_master where type = 'table' and name != 'sqlite_sequence'" in
  dropQueries <- await (query selectDropsQuery []) ;;
  dropQueries <- asArray dropQueries ;;
  promiseAll (map (fun q => query (Js.toStr (Js.prop q "query")) []) dropQueries) ;;;
  ret tt.

(** [beginTransaction], lines 78-86. *)
Definition beginTransaction : M unit :=
  throwIfReleased ;;;
  active <- isTransactionActive ;;
  if active : bool then throw TransactionAlreadyStartedError
  else
    setTransactionActive true ;;;
    await (query "BEGIN TRANSACTION" []) ;;;
    ret tt.

(** [commitTransaction], lines 91-99. *)
Definition commitTransaction : M unit :=
  throwIfReleased ;;;
  active <- isTransactionActive ;;
  if negb active then throw TransactionNotStartedError
  else
    await (query "COMMIT" []) ;;;
    setTransactionActive false.

(** [rollbackTransaction], lines 104-112. *)
Definition rollbackTransaction : M unit :=
  throwIfReleased ;;;
  active <- isTransactionActive ;;
  if negb active then throw TransactionNotStartedError
  else
    await (query "ROLLBACK" []) ;;;
    setTransactionActive false.

(** [(key, index) => f key index] over [Object.keys]. *)
Fixpoint mapIndexed {A B} (f : A -> Z -> B) (index : Z) (xs : list A) : list B :=
  match xs with
  | [] => []
  | x :: rest => f x index :: mapIndexed f (index + 1) rest
  end.

(** [parametrize], lines 536-538. *)
Definition parametrize (objectLiteral : Js.ObjectLiteral) (startIndex : Z) : list string :=
  mapIndexed (fun key index =>
                escapeColumnName driver key +:+ "=$" +:+ Js.numToString (startIndex + index + 1))
             0 (Js.keys objectLiteral).

(** [insert], lines 161-191; [generatedColumn] is whether the optional
    argument was given. *)
Definition insert (tableName : string) (keyValues : Js.ObjectLiteral)
           (generatedColumn : bool) : M Js.Value := fun st =>
  if isReleased st then (st, Throw QueryRunnerAlreadyReleasedError)
  else
    let keys := Js.keys keyValues in
    let columns := Js.join ", " (map (escapeColumnName driver) keys) in
    let values := Js.join "," (mapIndexed (fun _ index => "$" +:+ Js.numToString (index + 1)) 0 keys) in
    let sql := "INSERT INTO " +:+ escapeTableName driver tableName
               +:+ "(" +:+ columns +:+ ") VALUES (" +:+ values +:+ ")" in
    let parameters := map (fun key => Js.prop keyValues key) keys in
    let st := log st (LogQuery sql parameters) in
    match executeSql (DatabaseConnection.connection (databaseConnection st)) sql parameters with
    | (db, inr result) =>
        (setConnection st db, Ok (if generatedColumn then insertId result else Js.Undefined))
    | (db, inl error) =>
        (log (log (setConnection st db) (LogFailedQuery sql parameters)) (LogQueryError error),
         Throw (Rejected error))
    end.

(** [update], lines 196-207. *)
Definition update (tableName : string) (valuesMap conditions : Js.ObjectLiteral) : M unit :=
  throwIfReleased ;;;
  let updateValues := Js.join ", " (parametrize valuesMap 0) in
  let conditionString :=
    Js.join " AND " (parametrize conditions (Z.of_nat (List.length (Js.keys valuesMap)))) in
  let query_ := "UPDATE " +:+ escapeTableName driver tableName +:+ " SET " +:+ updateValues
                +:+ " " +:+ (if Js.truthy (Js.Str conditionString)
                             then " WHERE " +:+ conditionString else EmptyString) in
  let updateParams := map (fun key => Js.prop valuesMap key) (Js.keys valuesMap) in
  let conditionParams := map (fun key => Js.prop conditions key) (Js.keys conditions) in
  let allParameters := (updateParams ++ conditionParams)%list in
  await (query query_ allParameters) ;;;
  ret tt.

(** [delete], lines 212-220. *)
Definition delete (tableName : string) (conditions : Js.ObjectLiteral) : M unit :=
  throwIfReleased ;;;
  let conditionString := Js.join " AND " (parametrize conditions 0) in
  let parameters := map (fun key => Js.prop conditions key) (Js.keys conditions) in
  let query_ := "DELETE FROM " +:+ quoted tableName +:+ " WHERE " +:+ conditionString in
  await (query query_ parameters) ;;;
  ret tt.

(** [createTable], lines 365-377. *)
Definition createTable (table : TableSchema.t) : M unit :=
  throwIfReleased ;;;
  sql <- liftResult (createTableSql table) ;;
  await (query sql []) ;;;
  ret tt.

(** [createIndex], lines 449-456. *)
Definition createIndex (index : IndexSchema.t) : M (Promise unit) :=
  async (sync throwIfReleased (fun _ =>
         awaiting (query (createIndexSql index) []) (fun _ =>
         resolve tt))).

(** [dropIndex], lines 461-467. *)
Definition dropIndex (tableName indexName : string) (isGenerated : bool) : M unit :=
  throwIfReleased ;;;
  let sql := "DROP INDEX " +:+ quoted indexName in
  await (query sql []) ;;;
  ret tt.

(** [recreateTable], lines 560-611. *)
Definition recreateTable (tableSchema : TableSchema.t) : M unit :=
  sql1 <- liftResult (recreateTableSql1 tableSchema) ;;
  await (query sql1 []) ;;;
  firstDatas <- await (query ("SELECT * FROM " +:+ quoted (TableSchema.name tableSchema)) []) ;;
  (match firstDatas with
   | Rows (firstRow :: _) =>
       await (query (recreateTableSql2 tableSchema firstRow) []) ;;; ret tt
   | _ => ret tt
   end) ;;;
  let sql3 := "DROP TABLE " +:+ quoted (TableSchema.name tableSchema) in
  await (query sql3 []) ;;;
  let sql4 := "ALTER TABLE " +:+ quoted ("temporary_" +:+ TableSchema.name tableSchema)
              +:+ " RENAME TO " +:+ quoted (TableSchema.name tableSchema) in
  await (query sql4 []) ;;;
  let indexPromises := map createIndex (TableSchema.indices tableSchema) in
  promiseAll indexPromises ;;;
  ret tt.

(** [createColumns], lines 382-387. *)
Definition createColumns (tableSchema : TableSchema.t) (columns : list ColumnSchema.t) : M unit :=
  throwIfReleased ;;;
  recreateTable tableSchema.

(** [changeColumns], lines 393-398. *)
Definition changeColumns (tableSchema : TableSchema.t)
           (changedColumns : list (ColumnSchema.t * ColumnSchema.t)) : M unit :=
  throwIfReleased ;;;
  recreateTable tableSchema.

(** [updatePrimaryKeys], lines 415-420. *)
Definition updatePrimaryKeys (dbTable : TableSchema.t) : M unit :=
  throwIfReleased ;;;
  recreateTable dbTable.

(** *** Operations that edit a clone

    The caller passes a reference to a [TableSchema] object. *)

(** Modelled from the spec: [TableSchema.clone] is declared outside the
    runner's file; descriptors are value objects, so the clone is a new
    object carrying a copy of the original's contents. *)
Definition clone (tableSchema : positive) : M positive := fun st =>
  match heap st !! tableSchema with
  | Some ts =>
      let newTable := fresh (dom (heap st)) in
      (setHeap st (<[newTable := ts]> (heap st)), Ok newTable)
  | None => (st, Throw TypeError)
  end.

(** A method of the object at [ref] that edits it in place. *)
Definition mutate (ref : positive) (f : TableSchema.t -> TableSchema.t) : M unit := fun st =>
  match heap st !! ref with
  | Some ts => (setHeap st (<[ref := f ts]> (heap st)), Ok tt)
  | None => (st, Throw TypeError)
  end.

Definition deref (ref : positive) : M TableSchema.t := fun st =>
  match heap st !! ref with
  | Some ts => (st, Ok ts)
  | None => (st, Throw TypeError)
  end.

(** [dropColumns], lines 403-410. *)
Definition dropColumns (tableSchema : positive) (columns : list ColumnSchema.t) : M unit :=
  throwIfReleased ;;;
  newTable <- clone tableSchema ;;
  mutate newTable (fun ts => TableSchema.removeColumns ts columns) ;;;
  ts <- deref newTable ;;
  recreateTable ts.

(** [createForeignKeys], lines 425-432. *)
Definition createForeignKeys (tableSchema : positive)
           (foreignKeys : list ForeignKeySchema.t) : M unit :=
  throwIfReleased ;;;
  newTable <- clone tableSchema ;;
  mutate newTable (fun ts => TableSchema.addForeignKeys ts foreignKeys) ;;;
  ts <- deref newTable ;;
  recreateTable ts.

(** [dropForeignKeys], lines 437-444. *)
Definition dropForeignKeys (tableSchema : positive)
           (foreignKeys : list ForeignKeySchema.t) : M unit :=
  throwIfReleased ;;;
  newTable <- clone tableSchema ;;
  mutate newTable (fun ts => TableSchema.removeForeignKeys ts foreignKeys) ;;;
  ts <- deref newTable ;;
  recreateTable ts.

(** *** Catalog reader: [loadSchemaTables], lines 247-360 *)

(** The column built from one row of [PRAGMA table_info], with the
    foreign keys attached to the table for it (lines 293-310). *)
Definition loadColumn (namingStrategy : NamingStrategyInterface) (dbTable : Js.ObjectLiteral)
           (autoIncrementColumnName : option string) (dbForeignKeys : QueryResult)
           (dbColumn : Js.ObjectLiteral)
  : Result (ColumnSchema.t * list ForeignKeySchema.t) :=
  match Js.prop dbColumn "type" with
  | Js.Str type =>
      let dflt := Js.prop dbColumn "dflt_value" in
      let columnSchema :=
        ColumnSchema.mk
          (Js.toStr (Js.prop dbColumn "name"))
          (Js.toLowerCase type)
          (if negb (Js.strictEq dflt Js.Null) && negb (Js.strictEq dflt Js.Undefined)
           then dflt else Js.Undefined)
          (Js.strictEq (Js.prop dbColumn "notnull") (Js.Num 0))
          (Js.strictEq (Js.prop dbColumn "pk") (Js.Num 1))
          (match autoIncrementColumnName with
           | Some name => Js.strictEq (Js.Str name) (Js.prop dbColumn "name")
           | None => Js.strictEq Js.Undefined (Js.prop dbColumn "name")
           end)
          false
          EmptyString
          None in
      match dbForeignKeys with
      | Raw _ => Throw TypeError
      | Rows dbForeignKeys =>
          let columnForeignKeys :=
            map (fun foreignKey =>
                   let keyName :=
                     foreignKeyName namingStrategy
                       (Js.toStr (Js.prop dbTable "name"))
                       [Js.toStr (Js.prop foreignKey "from")]
                       (Js.toStr (Js.prop foreignKey "table"))
                       [Js.toStr (Js.prop foreignKey "to")] in
                   ForeignKeySchema.mk keyName
                     [Js.toStr (Js.prop foreignKey "from")]
                     [Js.toStr (Js.prop foreignKey "to")]
                     (Js.toStr (Js.prop foreignKey "table"))
                     (Js.prop foreignKey "on_delete"))
                (List.filter (fun foreignKey =>
                           Js.strictEq (Js.prop foreignKey "from") (Js.prop dbColumn "name"))
                        dbForeignKeys) in
          Ok (columnSchema, columnForeignKeys)
      end
  | _ => Throw TypeError
  end.

(** [self.indexOf(value)] with strict equality. *)
Fixpoint arrayIndexOf (self : list Js.Value) (value : Js.Value) : Z :=
  match self with
  | [] => -1
  | x :: rest =>
      if Js.strictEq x value then 0
      else let i := arrayIndexOf rest value in if i <? 0 then -1 else i + 1
  end.

(** [xs.filter((value, index, self) => self.indexOf(value) === index)] *)
Definition uniqueValues (xs : list Js.Value) : list Js.Value :=
  map fst (List.filter (fun '(value, index) => arrayIndexOf xs value =? index)
                  (mapIndexed (fun value index => (value, index)) 0 xs)).

(** [column.isUnique = true] on the first column with the given name,
    if there is one (lines 342-344). *)
Fixpoint markUnique (columns : list ColumnSchema.t) (columnName : Js.Value)
  : list ColumnSchema.t :=
  match columns with
  | [] => []
  | column :: rest =>
      if Js.strictEq (Js.Str (ColumnSchema.name column)) columnName
      then ColumnSchema.setUnique column true :: rest
      else column :: markUnique rest columnName
  end.

(** The callback of the last [map] (lines 332-353): the columns the
    index makes unique and the descriptor it becomes, if any. *)
Definition loadIndex (dbTable : Js.ObjectLiteral) (dbIndices : list Js.ObjectLiteral)
           (dbIndexName : Js.Value) : M (Promise (list Js.Value * option IndexSchema.t)) :=
  async
    match find (fun dbIndex => Js.strictEq (Js.prop dbIndex "name") dbIndexName) dbIndices with
    | None => reject TypeError
    | Some dbIndex =>
        awaiting (query ("PRAGMA index_info(" +:+ quoted (Js.toStr (Js.prop dbIndex "name")) +:+ ")") [])
          (fun indexInfos =>
        sync (asArray indexInfos) (fun indexInfos =>
        let indexColumns := map (fun indexInfo => Js.prop indexInfo "name") indexInfos in
        match Js.prop dbIndex "name" with
        | Js.Str name =>
            if String.eqb (Js.substr name 0 (Some (Js.len "sqlite_autoindex"))) "sqlite_autoindex"
            then
              if Js.strictEq (Js.prop dbIndex "unique") (Js.Num 1)
              then resolve (indexColumns, None)
              else resolve ([], None)
            else
              resolve ([], Some (IndexSchema.mk (Js.toStr (Js.prop dbTable "name")) name
                                                (map Js.toStr indexColumns)
                                                (Js.strictEq (Js.prop dbIndex "unique") (Js.Str "1"))))
        | _ => reject TypeError
        end))
    end.

(** The callback of the primary-key [map] (lines 315-321): the primary
    keys it pushes. *)
Definition loadPrimaryKeys (index : Js.ObjectLiteral) : M (Promise (list PrimaryKeySchema.t)) :=
  async
    (awaiting (query ("PRAGMA index_info(" +:+ quoted (Js.toStr (Js.prop index "name")) +:+ ")") [])
       (fun indexInfos =>
     sync (asArray indexInfos) (fun indexInfos =>
     let indexColumns := map (fun indexInfo => Js.prop indexInfo "name") indexInfos in
     resolve (map (fun indexColumn =>
                     PrimaryKeySchema.mk (Js.toStr (Js.prop index "name")) (Js.toStr indexColumn))
                  indexColumns)))).

(** The [dbTables.map] callback, lines 263-359. *)
Definition loadTable (namingStrategy : NamingStrategyInterface)
           (dbTable : Js.ObjectLiteral) : M (Promise TableSchema.t) :=
  let tableName := Js.toStr (Js.prop dbTable "name") in
  let tableSchema := TableSchema.new tableName in
  async
    (awaiting (allOf
       [ query ("PRAGMA table_info(" +:+ quoted tableName +:+ ")") [];
         query ("PRAGMA index_list(" +:+ quoted tableName +:+ ")") [];
         query ("PRAGMA foreign_key_list(" +:+ quoted tableName +:+ ")") [] ])
       (fun loaded =>
     match loaded with
     | [dbColumns; dbIndices; dbForeignKeys] =>
         match Js.prop dbTable "sql" with
         | Js.Str tableSql =>
             let autoIncrement := autoIncrementColumnName tableSql in
             sync (asArray dbColumns) (fun dbColumns =>
             sync (liftResult
                     (mapResult (loadColumn namingStrategy dbTable autoIncrement dbForeignKeys)
                                dbColumns)) (fun loadedColumns =>
             let tableSchema :=
               fold_left (fun ts columnForeignKeys => TableSchema.addForeignKeys ts columnForeignKeys)
                         (map snd loadedColumns) tableSchema in
             let tableSchema := TableSchema.setColumns tableSchema (map fst loadedColumns) in
             sync (asArray dbIndices) (fun dbIndices =>
             awaiting (allOf
                (map loadPrimaryKeys
                     (List.filter (fun index => Js.strictEq (Js.prop index "origin") (Js.Str "pk"))
                             dbIndices)))
               (fun primaryKeys =>
             let tableSchema := TableSchema.setPrimaryKeys tableSchema (concat primaryKeys) in
             let names :=
               uniqueValues
                 (map (fun dbIndex => Js.prop dbIndex "name")
                      (List.filter (fun dbIndex =>
                                 negb (Js.strictEq (Js.prop dbIndex "origin") (Js.Str "pk"))
                                 && negb (existsb (fun foreignKey =>
                                                     Js.strictEq (Js.Str (ForeignKeySchema.name foreignKey))
                                                                 (Js.prop dbIndex "name"))
                                                  (TableSchema.foreignKeys tableSchema))
                                 && negb (existsb (fun primaryKey =>
                                                     Js.strictEq (Js.Str (PrimaryKeySchema.name primaryKey))
                                                                 (Js.prop dbIndex "name"))
                                                  (TableSchema.primaryKeys tableSchema)))
                              dbIndices)) in
             awaiting (allOf (map (loadIndex dbTable dbIndices) names)) (fun indices =>
             let tableSchema :=
               TableSchema.setColumns tableSchema
                 (fold_left markUnique (concat (map fst indices))
                            (TableSchema.columns tableSchema)) in
             let tableSchema := TableSchema.setIndices tableSchema (omap snd indices) in
             resolve tableSchema)))))
         | _ => reject TypeError
         end
     | _ => reject TypeError
     end)).

(** [loadSchemaTables]; [None] is a missing list of names. *)
Definition loadSchemaTables (tableNames : option (list string))
           (namingStrategy : NamingStrategyInterface) : M (list TableSchema.t) :=
  throwIfReleased ;;;
  match tableNames with
  | None | Some [] => ret []
  | Some _ =>
      dbTables <- await (query "SELECT * FROM sqlite_master WHERE type = 'table' AND name != 'sqlite_sequence'" []) ;;
      match dbTables with
      | Raw _ | Rows [] => ret []
      | Rows dbTables => promiseAll (map (loadTable namingStrategy) dbTables)
      end
  end.

(** *** The phases of [recreateTable] and of the clone-editing methods

    Named so that the properties can speak about them. *)

(** The swap and the index rebuild, lines 599-610. *)
Definition swapAndRebuild (tableSchema : TableSchema.t) : M unit :=
  bind (await (query ("DROP TABLE " +:+ quoted (TableSchema.name tableSchema)) []))
    (fun _ =>
       bind (await (query ("ALTER TABLE " +:+ quoted ("temporary_" +:+ TableSchema.name tableSchema)
                           +:+ " RENAME TO " +:+ quoted (TableSchema.name tableSchema)) []))
         (fun _ =>
            bind (promiseAll (map createIndex (TableSchema.indices tableSchema)))
              (fun _ => ret tt))).

(** The data copy, lines 586-597, from what the probe resolved with. *)
Definition copyData (tableSchema : TableSchema.t) (firstDatas : QueryResult) : M unit :=
  match firstDatas with
  | Rows (firstRow :: _) =>
      bind (await (query (recreateTableSql2 tableSchema firstRow) [])) (fun _ => ret tt)
  | _ => ret tt
  end.

(** The common shape of [dropColumns], [createForeignKeys] and
    [dropForeignKeys]. *)
Definition editClone (edit : TableSchema.t -> TableSchema.t) (tableSchema : positive) : M unit :=
  bind throwIfReleased
    (fun _ => bind (clone tableSchema)
       (fun newTable => bind (mutate newTable edit)
          (fun _ => bind (deref newTable)
             (fun ts => recreateTable ts)))).

End Runner.

Arguments Idle {DB}.
Arguments Running {DB} resume.
Arguments Fulfilled {DB A} value.
Arguments Failed {DB A} reason rest.
Arguments Pending {DB A} resume.

(** ** Concrete runs on the scripted engine *)

Module Example.

Definition column (name type : string) (isNullable isPrimary isGenerated isUnique : bool)
  : ColumnSchema.t :=
  ColumnSchema.mk name type Js.Undefined isNullable isPrimary isGenerated isUnique
                  EmptyString None.

Definition resultRows (l : list Js.ObjectLiteral) : Js.Value + SqlResult :=
  inr (mkSqlResult (Some l) Js.Undefined).

(** Table [t] with a generated key [id] and a unique column [b]. *)
Definition table : TableSchema.t :=
  TableSchema.mk "t"
    [column "id" "integer" false true true false; column "b" "text" true false false true]
    [] [] [].

Definition staging : string :=
  "CREATE TABLE " +:+ quoted "temporary_t" +:+ " (" +:+ quoted "id"
  +:+ " integer NOT NULL PRIMARY KEY AUTOINCREMENT, " +:+ quoted "b" +:+ " text UNIQUE)".

Definition probe : string := "SELECT * FROM " +:+ quoted "t".

Definition oldRow : Js.ObjectLiteral :=
  [("id", Js.Num 1); ("a", Js.Str "x"); ("b", Js.Str "u1")].

(** The old table has the columns [id], [a], [b] and two rows. *)
Definition script : Script :=
  [(probe, resultRows [oldRow; [("id", Js.Num 2); ("a", Js.Str "y"); ("b", Js.Str "u2")]])].

(** A target schema that shares no column with the old rows. *)
Definition disjointTable : TableSchema.t :=
  TableSchema.mk "t" [column "c" "text" true false false false] [] [] [].

(** The engine refuses to drop the old table. *)
Definition lockedScript : Script :=
  [(probe, resultRows [oldRow]);
   ("DROP TABLE " +:+ quoted "t", inl (Js.Str "database table is locked"))].

(** A state whose heap holds [table] at reference 1. *)
Definition withTable : State Script :=
  mkState false (DatabaseConnection.mk [] false None) [] {[ 1%positive := table ]}.

(** The catalog of a database with the tables [a] and [b]. *)
Definition masterQuery : string :=
  "SELECT * FROM sqlite_master WHERE type = 'table' AND name != 'sqlite_sequence'".

Definition masterRow (name sql : string) : Js.ObjectLiteral :=
  [("type", Js.Str "table"); ("name", Js.Str name); ("tbl_name", Js.Str name);
   ("rootpage", Js.Num 2); ("sql", Js.Str sql)].

Definition tableInfoRow (cid : Z) (name type : string) (notnull : Z) (pk : Z)
  : Js.ObjectLiteral :=
  [("cid", Js.Num cid); ("name", Js.Str name); ("type", Js.Str type);
   ("notnull", Js.Num notnull); ("dflt_value", Js.Null); ("pk", Js.Num pk)].

Definition twoTables : Script :=
  [(masterQuery,
    resultRows
      [masterRow "a" ("CREATE TABLE " +:+ quoted "a" +:+ " (" +:+ quoted "x" +:+ " text NOT NULL)");
       masterRow "b" ("CREATE TABLE " +:+ quoted "b" +:+ " (" +:+ quoted "y" +:+ " text NOT NULL)")]);
   ("PRAGMA table_info(" +:+ quoted "a" +:+ ")", resultRows [tableInfoRow 0 "x" "text" 1 0]);
   ("PRAGMA table_info(" +:+ quoted "b" +:+ ")", resultRows [tableInfoRow 0 "y" "text" 1 0])].

(** A descriptor with a named unique index, and the catalog SQLite
    reports once the table and the index have been created from it: the
    [unique] column of [PRAGMA index_list] is the number 1. *)
Definition indexed : TableSchema.t :=
  TableSchema.mk "t"
    [column "a" "text" false false false false]
    [IndexSchema.mk "t" "idx_t_a" ["a"] true] [] [].

Definition indexedCatalog : Script :=
  [(masterQuery,
    resultRows [masterRow "t" ("CREATE TABLE IF NOT EXISTS " +:+ quoted "t" +:+ " ("
                               +:+ quoted "a" +:+ " text NOT NULL)")]);
   ("PRAGMA table_info(" +:+ quoted "t" +:+ ")", resultRows [tableInfoRow 0 "a" "text" 1 0]);
   ("PRAGMA index_list(" +:+ quoted "t" +:+ ")",
    resultRows [[("seq", Js.Num 0); ("name", Js.Str "idx_t_a"); ("unique", Js.Num 1);
                 ("origin", Js.Str "c"); ("partial", Js.Num 0)]]);
   ("PRAGMA index_info(" +:+ quoted "idx_t_a" +:+ ")",
    resultRows [[("seqno", Js.Num 0); ("cid", Js.Num 0); ("name", Js.Str "a")]])].

(** A descriptor with two indices, and an engine that refuses the first
    of them. *)
Definition twoIndices : TableSchema.t :=
  TableSchema.mk "t"
    [column "a" "text" false false false false; column "b" "text" false false false false]
    [IndexSchema.mk "t" "i1" ["a"] false; IndexSchema.mk "t" "i2" ["b"] false] [] [].

Definition firstIndexRefused : Script :=
  [("CREATE INDEX " +:+ quoted "i1" +:+ " ON " +:+ quoted "t" +:+ "(" +:+ quoted "a" +:+ ")",
    inl (Js.Str "index i1 already exists"))].

(** The catalog of a database with the tables [a] and [b], each with one
    named index. *)
Definition indexListRow (name : string) : Js.ObjectLiteral :=
  [("seq", Js.Num 0); ("name", Js.Str name); ("unique", Js.Num 0);
   ("origin", Js.Str "c"); ("partial", Js.Num 0)].

Definition twoIndexedTables : Script :=
  [(masterQuery,
    resultRows
      [masterRow "a" ("CREATE TABLE " +:+ quoted "a" +:+ " (" +:+ quoted "x" +:+ " text NOT NULL)");
       masterRow "b" ("CREATE TABLE " +:+ quoted "b" +:+ " (" +:+ quoted "y" +:+ " text NOT NULL)")]);
   ("PRAGMA table_info(" +:+ quoted "a" +:+ ")", resultRows [tableInfoRow 0 "x" "text" 1 0]);
   ("PRAGMA table_info(" +:+ quoted "b" +:+ ")", resultRows [tableInfoRow 0 "y" "text" 1 0]);
   ("PRAGMA index_list(" +:+ quoted "a" +:+ ")", resultRows [indexListRow "idx_a"]);
   ("PRAGMA index_list(" +:+ quoted "b" +:+ ")", resultRows [indexListRow "idx_b"]);
   ("PRAGMA index_info(" +:+ quoted "idx_a" +:+ ")",
    resultRows [[("seqno", Js.Num 0); ("cid", Js.Num 0); ("name", Js.Str "x")]]);
   ("PRAGMA index_info(" +:+ quoted "idx_b" +:+ ")",
    resultRows [[("seqno", Js.Num 0); ("cid", Js.Num 0); ("name", Js.Str "y")]])].

End Example.

(** * Properties *)

(** ** Facts about the string primitives *)

Module JsFacts.

Lemma append_cons (c : ascii) (a b : string) : String c a +:+ b = String c (a +:+ b).
Proof. reflexivity. Qed.

Lemma append_empty_l (b : string) : EmptyString +:+ b = b.
Proof. reflexivity. Qed.



Lemma len_nonneg (a : string) : 0 <= Js.len a.
Proof. unfold Js.len. lia. Qed.

Lemma len_String (c : ascii) (a : string) : Js.len (String c a) = Js.len a + 1.
Proof. unfold Js.len. simpl String.length. lia. Qed.

Lemma append_assoc (a b c : string) : (a +:+ b) +:+ c = a +:+ b +:+ c.
Proof.
  induction a as [|d a IH]; [reflexivity|].
  rewrite !append_cons. now rewrite IH.
Qed.

Lemma append_empty_r (a : string) : a +:+ EmptyString = a.
Proof.
  induction a as [|d a IH]; [reflexivity|].
  rewrite append_cons. now rewrite IH.
Qed.







Lemma prefix_char (c d : ascii) (s : string) :
  String.prefix (String c EmptyString) (String d s) = Ascii.eqb c d.
Proof.
  simpl. destruct (ascii_dec c d) as [->|N].
  - rewrite Ascii.eqb_refl. now destruct s.
  - symmetry. now apply Ascii.eqb_neq.
Qed.

Lemma indexOf_char_absent (c : ascii) (s : string) :
  Js.occurs c s = false -> Js.indexOf s (String c EmptyString) = -1.
Proof.
  induction s as [|d s IH]; intros H.
  - reflexivity.
  - simpl in H. apply orb_false_iff in H as [Hd Hs].
    cbn [Js.indexOf]. rewrite prefix_char, Hd, (IH Hs). reflexivity.
Qed.




Lemma prefix_append (t v : string) : String.prefix t (t +:+ v) = true.
Proof.
    induction t as [|c t IH]; [now destruct v|].
    rewrite append_cons. cbn [String.prefix].
    destruct (ascii_dec c c) as [_|N]; [exact IH | now destruct N].
Qed.

Lemma prefix_occurrence (t s : string) :
    String.prefix t s = true -> exists v, s = t +:+ v.
Proof.
    revert s. induction t as [|c t IH]; intros s H.
    - exists s. reflexivity.
    - destruct s as [|d s]; [discriminate|]. cbn [String.prefix] in H.
      destruct (ascii_dec c d) as [->|N]; [|discriminate].
      destruct (IH s H) as [v ->]. exists v. reflexivity.
Qed.

(** [indexOf] finds the keyword where it stands when it stands nowhere
      earlier. *)
Lemma indexOf_first_occurrence (before t rest : string) :
    (forall u v, before +:+ t +:+ rest = u +:+ t +:+ v ->
                 (String.length before <= String.length u)%nat) ->
    Js.indexOf (before +:+ t +:+ rest) t = Js.len before.
Proof.
    induction before as [|c before IH]; intros Hfirst.
    - rewrite append_empty_l.
      assert (E : String.prefix t (t +:+ rest) = true) by apply prefix_append.
      destruct (t +:+ rest); cbn [Js.indexOf]; rewrite E; reflexivity.
    - rewrite append_cons. cbn [Js.indexOf].
      destruct (String.prefix t (String c (before +:+ t +:+ rest))) eqn:E.
      + apply prefix_occurrence in E as [v Hv].
        specialize (Hfirst EmptyString v). rewrite append_cons, append_empty_l in Hfirst.
        specialize (Hfirst Hv). simpl in Hfirst. lia.
      + rewrite IH.
        * rewrite len_String. pose proof (len_nonneg before).
          destruct (Js.len before <? 0) eqn:L; [apply Z.ltb_lt in L; lia | reflexivity].
        * intros u v Huv. specialize (Hfirst (String c u) v).
          rewrite !append_cons in Hfirst. rewrite Huv in Hfirst.
          specialize (Hfirst eq_refl). simpl in Hfirst. lia.
Qed.

End JsFacts.

(** Normal form of concatenations: nested to the right, characters
    pushed to the front. *)
Ltac norm_append :=
  repeat (rewrite JsFacts.append_assoc || rewrite JsFacts.append_cons
          || rewrite JsFacts.append_empty_l).

(** ** Autoincrement detection *)





(** ** DDL statement builder *)

(** C5 (as amended): the column fragment is a function of the column
    alone (it takes no state and returns none).  It is the quoted name, the
    type (mapped by [normalizeType] for a [ColumnMetadata], verbatim
    otherwise), then NOT NULL unless the column is nullable, then UNIQUE if
    the column is unique, then PRIMARY KEY AUTOINCREMENT if the column is
    generated.  The last two clauses are independent of each other (both
    are there when both flags are set), and the primary-key membership
    flag plays no part in the fragment. *)
Theorem buildCreateColumnSql_rendering
        (name type : string) (default : Js.Value)
        (isNullable isPrimary isGenerated isUnique : bool) (comment : string)
        (metadata : option ColumnMetadata.t) :
  let column := ColumnSchema.mk name type default isNullable isPrimary
                                isGenerated isUnique comment metadata in
  buildCreateColumnSql column =
    match (match metadata with
           | Some m => normalizeType m
           | None => Ok type
           end) with
    | Throw e => Throw e
    | Ok ty =>
        Ok (((((Js.dquote +:+ name +:+ Js.dquote) +:+ " " +:+ ty)
               +:+ (if isNullable then EmptyString else " NOT NULL"))
              +:+ (if isUnique then " UNIQUE" else EmptyString))
             +:+ (if isGenerated then " PRIMARY KEY AUTOINCREMENT" else EmptyString))
    end
  /\ buildCreateColumnSql column =
     buildCreateColumnSql (ColumnSchema.mk name type default isNullable (negb isPrimary)
                                           isGenerated isUnique comment metadata).
Proof.
  intros column. split; [|reflexivity].
  unfold buildCreateColumnSql, column. cbn [ColumnSchema.metadata ColumnSchema.name
    ColumnSchema.type ColumnSchema.isNullable ColumnSchema.isUnique ColumnSchema.isGenerated].
  destruct metadata as [m|].
  - destruct (normalizeType m) as [ty|e]; [|reflexivity].
    destruct isNullable, isUnique, isGenerated; cbn [negb];
      rewrite ?JsFacts.append_empty_r; reflexivity.
  - destruct isNullable, isUnique, isGenerated; cbn [negb];
      rewrite ?JsFacts.append_empty_r; reflexivity.
Qed.

(** The clauses appended by the [foreignKeys.forEach] loop. *)
Lemma fold_left_append {A} (f : A -> string) (xs : list A) (s : string) :
  fold_left (fun acc x => acc +:+ f x) xs s = s +:+ fold_right String.append EmptyString (map f xs).
Proof.
  revert s. induction xs as [|x xs IH]; intros s; simpl.
  - now rewrite JsFacts.append_empty_r.
  - rewrite IH. now rewrite JsFacts.append_assoc.
Qed.

(** C6: [createTable] and the staging step of [recreateTable] render the
    column fragments, then (staging only) one clause [, FOREIGN
    KEY("c", ...) REFERENCES "table"("r", ...)] per foreign key of the
    descriptor, in the descriptor's order, then a composite PRIMARY KEY
    clause, then the closing parenthesis.  The composite clause is there
    exactly when some column is primary and not generated, and lists the
    names of those columns, unquoted, in declared order. *)
Theorem create_table_statement_shape (table : TableSchema.t) :
  let keyNames :=
    map ColumnSchema.name
        (List.filter (fun c => ColumnSchema.isPrimary c && negb (ColumnSchema.isGenerated c))
                (TableSchema.columns table)) in
  let keyClause := fun foreignKey : ForeignKeySchema.t =>
    ", FOREIGN KEY("
    +:+ Js.join ", " (map (fun name => Js.dquote +:+ name +:+ Js.dquote)
                          (ForeignKeySchema.columnNames foreignKey))
    +:+ ") REFERENCES " +:+ Js.dquote +:+ ForeignKeySchema.referencedTableName foreignKey
    +:+ Js.dquote +:+ "("
    +:+ Js.join ", " (map (fun name => Js.dquote +:+ name +:+ Js.dquote)
                          (ForeignKeySchema.referencedColumnNames foreignKey))
    +:+ ")" in
  match mapResult buildCreateColumnSql (TableSchema.columns table) with
  | Throw e => createTableSql table = Throw e /\ recreateTableSql1 table = Throw e
  | Ok defs =>
      createTableSql table =
        Ok (("CREATE TABLE IF NOT EXISTS " +:+ quoted (TableSchema.name table)
             +:+ " (" +:+ Js.join ", " defs)
            +:+ compositeKeyClause keyNames +:+ ")")
      /\ recreateTableSql1 table =
        Ok (("CREATE TABLE " +:+ quoted ("temporary_" +:+ TableSchema.name table)
             +:+ " (" +:+ Js.join ", " defs)
            +:+ fold_right String.append EmptyString
                  (map keyClause (TableSchema.foreignKeys table))
            +:+ compositeKeyClause keyNames +:+ ")")
  end
  /\ (compositeKeyClause keyNames <> EmptyString <->
      exists c, In c (TableSchema.columns table)
                /\ ColumnSchema.isPrimary c = true /\ ColumnSchema.isGenerated c = false)
  /\ (compositeKeyClause keyNames <> EmptyString ->
      compositeKeyClause keyNames = ", PRIMARY KEY(" +:+ Js.join ", " keyNames +:+ ")").
Proof.
  intros keyNames keyClause.
  assert (Hclause : forall s : string,
             (if 0 <? Z.of_nat (List.length (primaryKeyColumns table))
              then s +:+ ", PRIMARY KEY("
                     +:+ Js.join ", " (map ColumnSchema.name (primaryKeyColumns table)) +:+ ")"
              else s) = s +:+ compositeKeyClause keyNames).
  { intros s. unfold keyNames. fold (primaryKeyColumns table).
    destruct (primaryKeyColumns table) as [|c cs]; simpl.
    - now rewrite JsFacts.append_empty_r.
    - reflexivity. }
  assert (Hkey : forall foreignKey, foreignKeyClause foreignKey = keyClause foreignKey).
  { intros foreignKey. unfold foreignKeyClause, keyClause, quoted. norm_append. reflexivity. }
  split; [|split].
  - unfold createTableSql, recreateTableSql1.
    destruct (mapResult buildCreateColumnSql (TableSchema.columns table)) as [defs|e].
    + rewrite !Hclause, fold_left_append. split.
      * now rewrite !JsFacts.append_assoc.
      * rewrite (map_ext _ _ Hkey). now rewrite !JsFacts.append_assoc.
    + split; reflexivity.
  - unfold keyNames. fold (primaryKeyColumns table). unfold primaryKeyColumns. split.
    + intros H.
      destruct (List.filter _ (TableSchema.columns table)) as [|c cs] eqn:E; [now destruct H|].
      assert (Hin : In c (List.filter (fun column => ColumnSchema.isPrimary column
                                   && negb (ColumnSchema.isGenerated column))
                                 (TableSchema.columns table)))
        by (rewrite E; left; reflexivity).
      apply filter_In in Hin as [Hin Hc]. apply andb_true_iff in Hc as [Hp Hg].
      exists c. repeat split; auto. now apply negb_true_iff.
    + intros (c & Hin & Hp & Hg).
      assert (Hf : In c (List.filter (fun column => ColumnSchema.isPrimary column
                                   && negb (ColumnSchema.isGenerated column))
                                (TableSchema.columns table)))
        by (apply filter_In; split; auto; now rewrite Hp, Hg).
      destruct (List.filter _ (TableSchema.columns table)) as [|c' cs]; [destruct Hf|].
      simpl. discriminate.
  - destruct keyNames as [|k ks]; [intros H; now destruct H | reflexivity].
Qed.

(** ** Reasoning about runner methods *)

Section RunnerProperties.
Context {DB : Type}.
Variable executeSql : DB -> string -> list Js.Value -> DB * (Js.Value + SqlResult).
Variable driver : IonicSQLiteDriver.

Local Abbreviation M := (@M DB).

(** Induction over what a promise does turn after turn. *)
Fixpoint Background_induction (P : Background (DB := DB) -> Prop)
         (HI : P Idle)
         (HR : forall resume, (forall st, P (snd (resume st))) -> P (Running resume))
         (work : Background) : P work :=
  match work with
  | Idle => HI
  | Running resume => HR resume (fun st => Background_induction P HI HR (snd (resume st)))
  end.

Fixpoint Promise_induction {A} (P : Promise (DB := DB) A -> Prop)
         (HF : forall a, P (Fulfilled a))
         (HR : forall e rest, P (Failed e rest))
         (HP : forall resume, (forall st, P (snd (resume st))) -> P (Pending resume))
         (p : Promise A) : P p :=
  match p with
  | Fulfilled a => HF a
  | Failed e rest => HR e rest
  | Pending resume => HP resume (fun st => Promise_induction P HF HR HP (snd (resume st)))
  end.

(** A statement awaited by a caller beside which nothing else runs. *)
Lemma await_query (q : string) (ps : list Js.Value) (st : State DB) :
  await (query executeSql q ps) st
  = if isReleased st then (st, Throw QueryRunnerAlreadyReleasedError)
    else
      let st := log st (LogQuery q ps) in
      match executeSql (DatabaseConnection.connection (databaseConnection st)) q ps with
      | (db, inr result) =>
          (setConnection st db,
           Ok (match rows result with
               | Some l => Rows l
               | None => Raw result
               end))
      | (db, inl error) =>
          (log (log (setConnection st db) (LogFailedQuery q ps)) (LogQueryError error),
           Throw (Rejected error))
      end.
Proof.
  unfold await, bind, query. destruct (isReleased st); [reflexivity|]. cbv zeta.
  destruct (executeSql _ q ps) as [db [error|result]]; reflexivity.
Qed.

(** [runs m P]: started on a runner that is not released, [m] leaves the
    released flag and the heap as they were and tells the logger the
    entries [l], where [P l r] holds of [l] and of the outcome [r]. *)
Definition runs {A} (m : M A) (P : list LogEntry -> Result A -> Prop) : Prop :=
  forall st st' r,
    isReleased st = false ->
    m st = (st', r) ->
    isReleased st' = false /\ heap st' = heap st /\
    exists l, logger st' = (logger st ++ l)%list /\ P l r.

Lemma runs_weaken {A} (m : M A) (P Q : list LogEntry -> Result A -> Prop) :
  runs m P -> (forall l r, P l r -> Q l r) -> runs m Q.
Proof.
  intros Hm HPQ st st' r Hrel Hrun.
  destruct (Hm st st' r Hrel Hrun) as (H1 & H2 & l & H3 & H4).
  repeat split; auto. exists l. auto.
Qed.

Lemma runs_ret {A} (a : A) : runs (@ret DB A a) (fun l r => l = [] /\ r = Ok a).
Proof.
  intros st st' r Hrel Hrun. unfold ret in Hrun. injection Hrun as <- <-.
  repeat split; auto. exists []. now rewrite app_nil_r.
Qed.

Lemma runs_throw {A} (e : Error) : runs (@throw DB A e) (fun l r => l = [] /\ r = Throw e).
Proof.
  intros st st' r Hrel Hrun. unfold throw in Hrun. injection Hrun as <- <-.
  repeat split; auto. exists []. now rewrite app_nil_r.
Qed.

Lemma runs_liftResult {A} (x : Result A) :
  runs (@liftResult DB A x) (fun l r => l = [] /\ r = x).
Proof.
  intros st st' r Hrel Hrun. unfold liftResult in Hrun. injection Hrun as <- <-.
  repeat split; auto. exists []. now rewrite app_nil_r.
Qed.

Lemma runs_throwIfReleased :
  runs (@throwIfReleased DB) (fun l r => l = [] /\ r = Ok tt).
Proof.
  intros st st' r Hrel Hrun. unfold throwIfReleased in Hrun. rewrite Hrel in Hrun.
  injection Hrun as <- <-. repeat split; auto. exists []. now rewrite app_nil_r.
Qed.

(** What a single statement tells the logger. *)
Definition statementLog {A} (q : string) (ps : list Js.Value)
           (l : list LogEntry) (r : Result A) : Prop :=
  (l = [LogQuery q ps] /\ exists a, r = Ok a)
  \/ (exists error, l = [LogQuery q ps; LogFailedQuery q ps; LogQueryError error]
                    /\ r = Throw (Rejected error)).

Lemma runs_query (q : string) (ps : list Js.Value) : runs (await (query executeSql q ps)) (statementLog q ps).
Proof.
  intros st st' r Hrel Hrun. rewrite await_query, Hrel in Hrun.
  cbn [log logger databaseConnection] in Hrun.
  destruct (executeSql _ q ps) as [db [error|result]]; injection Hrun as <- <-;
    cbn; repeat split; auto.
  - exists [LogQuery q ps; LogFailedQuery q ps; LogQueryError error]. split.
    + now rewrite <- !app_assoc.
    + right. eauto.
  - exists [LogQuery q ps]. split; [reflexivity|]. left. eauto.
Qed.

Lemma runs_bind {A B} (m : M A) (k : A -> M B)
      (P : list LogEntry -> Result A -> Prop)
      (Q : A -> list LogEntry -> Result B -> Prop) :
  runs m P ->
  (forall a, runs (k a) (Q a)) ->
  runs (bind m k)
       (fun l r => (exists e, P l (Throw e) /\ r = Throw e)
                   \/ (exists a l1 l2, l = (l1 ++ l2)%list /\ P l1 (Ok a) /\ Q a l2 r)).
Proof.
  intros Hm Hk st st' r Hrel Hrun. unfold bind in Hrun.
  destruct (m st) as [st1 [a|e]] eqn:Em.
  - destruct (Hm st st1 (Ok a) Hrel Em) as (R1 & H1 & l1 & L1 & P1).
    destruct (Hk a st1 st' r R1 Hrun) as (R2 & H2 & l2 & L2 & Q2).
    repeat split; auto; [congruence|].
    exists (l1 ++ l2)%list. split.
    + rewrite L2, L1. now rewrite app_assoc.
    + right. exists a, l1, l2. auto.
  - injection Hrun as <- <-.
    destruct (Hm st st1 (Throw e) Hrel Em) as (R1 & H1 & l1 & L1 & P1).
    repeat split; auto. exists l1. split; auto. left. eauto.
Qed.

(** A statement whose result is dropped: [await this.query(...)]. *)
Lemma runs_statement (q : string) (ps : list Js.Value) :
  runs (bind (await (query executeSql q ps)) (fun _ => @ret DB unit tt)) (statementLog q ps).
Proof.
  eapply runs_weaken; [apply runs_bind; [apply runs_query | intros a; apply runs_ret]|].
  intros l r [(e & Hst & ->) | (a & l1 & l2 & -> & Hst & -> & ->)].
  - destruct Hst as [[_ (x & Hx)] | (er & -> & [= ->])]; [discriminate|].
    right. eauto.
  - rewrite app_nil_r. destruct Hst as [[-> _] | (er & _ & Hx)]; [|discriminate].
    left. eauto.
Qed.

(** A computation that only ever tells the logger entries satisfying
    [P]. *)
Definition logsOnly {A} (P : LogEntry -> Prop) (m : M A) : Prop :=
  runs m (fun l _ => Forall P l).

Lemma logsOnly_bind {A B} (P : LogEntry -> Prop) (m : M A) (k : A -> M B) :
  logsOnly P m -> (forall a, logsOnly P (k a)) -> logsOnly P (bind m k).
Proof.
  intros Hm Hk. eapply runs_weaken; [apply (runs_bind _ _ _ _ Hm Hk)|].
  intros l r [(e & Hl & _) | (a & l1 & l2 & -> & H1 & H2)]; [exact Hl|].
  apply Forall_app; auto.
Qed.

Lemma logsOnly_ret {A} (P : LogEntry -> Prop) (a : A) : logsOnly P (@ret DB A a).
Proof. eapply runs_weaken; [apply runs_ret|]. intros l r [-> _]. constructor. Qed.

Lemma logsOnly_throw {A} (P : LogEntry -> Prop) (e : Error) : logsOnly P (@throw DB A e).
Proof. eapply runs_weaken; [apply runs_throw|]. intros l r [-> _]. constructor. Qed.

Lemma logsOnly_liftResult {A} (P : LogEntry -> Prop) (x : Result A) :
  logsOnly P (@liftResult DB A x).
Proof. eapply runs_weaken; [apply runs_liftResult|]. intros l r [-> _]. constructor. Qed.

Lemma logsOnly_throwIfReleased (P : LogEntry -> Prop) : logsOnly P (@throwIfReleased DB).
Proof. eapply runs_weaken; [apply runs_throwIfReleased|]. intros l r [-> _]. constructor. Qed.

Lemma logsOnly_query (P : LogEntry -> Prop) (q : string) (ps : list Js.Value) :
  P (LogQuery q ps) -> P (LogFailedQuery q ps) -> (forall error, P (LogQueryError error)) ->
  logsOnly P (await (query executeSql q ps)).
Proof.
  intros H1 H2 H3. eapply runs_weaken; [apply runs_query|].
  intros l r [[-> _] | (error & -> & _)]; repeat constructor; auto.
Qed.

(** *** Statements issued side by side *)

(** What the engine answers to statements handed to it one after the
    other, and the database it leaves. *)
Fixpoint answers (db : DB) (statements : list string) : DB * list (Js.Value + SqlResult) :=
  match statements with
  | [] => (db, [])
  | q :: rest =>
      let '(db1, answer) := executeSql db q [] in
      let '(db2, others) := answers db1 rest in
      (db2, answer :: others)
  end.

(** What the logger hears as the answers arrive: each rejected statement
    and its error. *)
Fixpoint reports (statements : list string) (answered : list (Js.Value + SqlResult))
  : list LogEntry :=
  match statements, answered with
  | q :: statements', inl error :: answered' =>
      LogFailedQuery q [] :: LogQueryError error :: reports statements' answered'
  | _ :: statements', inr _ :: answered' => reports statements' answered'
  | _, _ => []
  end.

(** The error of the first statement that was rejected. *)
Fixpoint firstRejection (answered : list (Js.Value + SqlResult)) : option Js.Value :=
  match answered with
  | [] => None
  | inl error :: _ => Some error
  | inr _ :: answered' => firstRejection answered'
  end.

(** The state once the logger has been told [entries]. *)
Definition told (st : State DB) (entries : list LogEntry) : State DB :=
  mkState (isReleased st) (databaseConnection st) (logger st ++ entries) (heap st).

Lemma told_nil (st : State DB) : told st [] = st.
Proof. destruct st. unfold told. cbn. now rewrite app_nil_r. Qed.

Lemma told_told (st : State DB) (l1 l2 : list LogEntry) :
  told (told st l1) l2 = told st (l1 ++ l2).
Proof. unfold told. cbn. now rewrite app_assoc. Qed.

(** A promise that waits for one turn, then tells the logger [entries]
    and is settled: rejected with the engine's error [rejection], or
    fulfilled. *)
Definition oneRound {A} (p : Promise A) (entries : list LogEntry)
           (rejection : option Js.Value) : Prop :=
  exists resume,
    p = Pending resume
    /\ forall st,
        fst (resume st) = told st entries
        /\ match rejection with
           | Some error => snd (resume st) = Failed (Rejected error) Idle
           | None => exists a, snd (resume st) = Fulfilled a
           end.

Lemma oneRound_mapPromise {A B} (f : A -> B) (p : Promise A) entries rejection :
  oneRound p entries rejection -> oneRound (mapPromise f p) entries rejection.
Proof.
  intros (resume & -> & H). cbn [mapPromise]. eexists. split; [reflexivity|].
  intros st. destruct (H st) as [H1 H2]. destruct (resume st) as [st' p']. cbn [fst snd] in *.
  split; [exact H1|]. destruct rejection as [error|].
  - subst p'. reflexivity.
  - destruct H2 as [a ->]. cbn. eauto.
Qed.

Lemma oneRound_both {A B} (p : Promise A) (q : Promise B) ep eq rp rq :
  oneRound p ep rp -> oneRound q eq rq ->
  oneRound (both p q) (ep ++ eq) (match rp with Some error => Some error | None => rq end).
Proof.
  intros (resp & -> & Hp) (resq & -> & Hq). cbn [both]. eexists. split; [reflexivity|].
  intros st. destruct (Hp st) as [Hp1 Hp2]. destruct (resp st) as [st1 p']. cbn [fst snd] in *.
  subst st1. destruct (Hq (told st ep)) as [Hq1 Hq2].
  destruct (resq (told st ep)) as [st2 q']. cbn [fst snd] in *. subst st2.
  split; [apply told_told|].
  destruct rp as [error|].
  - subst p'. cbn [both par].
    destruct rq as [error'|]; [subst q' | destruct Hq2 as [b ->]]; reflexivity.
  - destruct Hp2 as [a ->]. cbn [both].
    destruct rq as [error'|]; [subst q' | destruct Hq2 as [b ->]]; cbn; eauto.
Qed.

Lemma settle_oneRound {A} (p : Promise A) entries rejection (st : State DB) :
  oneRound p entries rejection ->
  exists r, settle p st = (told st entries, r)
            /\ match rejection with
               | Some error => r = Throw (Rejected error)
               | None => exists a, r = Ok a
               end.
Proof.
  intros (resume & -> & H). cbn [settle]. destruct (H st) as [H1 H2].
  destruct (resume st) as [st' p']. cbn [fst snd] in *. subst st'.
  destruct rejection as [error|].
  - subst p'. cbn. eauto.
  - destruct H2 as [a ->]. cbn. eauto.
Qed.

(** A call that issues the one statement [q], without parameters, and
    whose promise waits for the answer. *)
Definition statementCall {A} (call : M (Promise A)) (q : string) : Prop :=
  forall st,
    isReleased st = false ->
    let answer := executeSql (DatabaseConnection.connection (databaseConnection st)) q [] in
    exists p,
      call st
      = (mkState false
                 (DatabaseConnection.mk (fst answer)
                    (DatabaseConnection.isTransactionActive (databaseConnection st))
                    (DatabaseConnection.releaseCallback (databaseConnection st)))
                 (logger st ++ [LogQuery q []]) (heap st),
         Ok p)
      /\ oneRound p (reports [q] [snd answer]) (firstRejection [snd answer]).

Lemma query_statementCall (q : string) : statementCall (query executeSql q []) q.
Proof.
  intros st Hrel answer. subst answer. unfold query. rewrite Hrel. cbv zeta.
  cbn [log logger databaseConnection DatabaseConnection.connection].
  destruct (executeSql _ q []) as [db [error|result]]; cbn [fst snd];
    (eexists; split; [unfold setConnection; cbn; rewrite Hrel; reflexivity|]);
    (eexists; split; [reflexivity|]); intros st'; cbn [fst snd reports firstRejection].
  - split; [|reflexivity]. unfold told, log. cbn. now rewrite <- app_assoc.
  - split; [now rewrite told_nil | eauto].
Qed.

Lemma createIndex_statementCall (index : IndexSchema.t) :
  statementCall (createIndex executeSql index) (createIndexSql index).
Proof.
  intros st Hrel answer.
  destruct (query_statementCall (createIndexSql index) st Hrel) as (p & Hq & resume & -> & Hp).
  fold answer in Hq, Hp.
  unfold createIndex, async, sync, throwIfReleased, awaiting. rewrite Hrel, Hq. cbn [andThen].
  eexists. split; [reflexivity|]. eexists. split; [reflexivity|].
  intros st'. destruct (Hp st') as [H1 H2]. destruct (resume st') as [st2 p']. cbn [fst snd] in *.
  subst st2. destruct (firstRejection [snd answer]) as [error|].
  - subst p'. cbn. auto.
  - destruct H2 as [a ->]. cbn. eauto.
Qed.

(** The calls of an array of such calls are made in list order; their
    promises wait together and are settled in the same turn, in list
    order. *)
Lemma startAll_statements {A} (calls : list (M (Promise A))) (qs : list string) :
  Forall2 statementCall calls qs ->
  forall st,
    isReleased st = false ->
    exists ps,
      startAll calls st
      = (mkState false
                 (DatabaseConnection.mk
                    (fst (answers (DatabaseConnection.connection (databaseConnection st)) qs))
                    (DatabaseConnection.isTransactionActive (databaseConnection st))
                    (DatabaseConnection.releaseCallback (databaseConnection st)))
                 (logger st ++ map (fun q => LogQuery q []) qs) (heap st),
         Ok ps)
      /\ (qs = [] -> ps = [])
      /\ (qs <> [] ->
          oneRound (all ps)
                   (reports qs (snd (answers (DatabaseConnection.connection (databaseConnection st)) qs)))
                   (firstRejection
                      (snd (answers (DatabaseConnection.connection (databaseConnection st)) qs)))).
Proof.
  induction 1 as [|call q calls qs Hcall _ IH]; intros st Hrel.
  - exists []. cbn. unfold ret. rewrite app_nil_r. destruct st as [rel [db act cb] lg hp].
    cbn in *. subst rel. repeat split; congruence.
  - destruct (Hcall st Hrel) as (p & Hp & Hone).
    cbn [startAll]. unfold bind at 1. rewrite Hp.
    set (st1 := mkState false _ _ _).
    destruct (IH st1 eq_refl) as (ps & Hps & Hnil & Hall).
    unfold bind at 1. rewrite Hps. unfold ret.
    cbn [answers]. subst st1.
    cbn [databaseConnection DatabaseConnection.connection DatabaseConnection.isTransactionActive
         DatabaseConnection.releaseCallback logger heap] in *.
    destruct (executeSql (DatabaseConnection.connection (databaseConnection st)) q [])
      as [db1 answer] eqn:Eq. cbn [fst snd] in *.
    destruct (answers db1 qs) as [db2 others] eqn:Ea. cbn [fst snd] in *.
    exists (p :: ps). split; [|split].
    + rewrite <- app_assoc. reflexivity.
    + discriminate.
    + intros _. cbn [all]. apply oneRound_mapPromise.
      destruct qs as [|q' qs'].
      * rewrite (Hnil eq_refl). cbn in Ea. injection Ea as _ <-.
        destruct Hone as (resume & -> & Hres). cbn [all both].
        apply oneRound_mapPromise. exists resume. split; [reflexivity|]. exact Hres.
      * assert (Hne : q' :: qs' <> []) by discriminate.
        pose proof (oneRound_both _ _ _ _ _ _ Hone (Hall Hne)) as Hboth.
        destruct answer as [error|result]; exact Hboth.
Qed.

Lemma promiseAll_statements {A} (calls : list (M (Promise A))) (qs : list string)
      (st : State DB) :
  Forall2 statementCall calls qs ->
  isReleased st = false ->
  let answered := answers (DatabaseConnection.connection (databaseConnection st)) qs in
  exists r,
    promiseAll calls st
    = (mkState false
               (DatabaseConnection.mk (fst answered)
                  (DatabaseConnection.isTransactionActive (databaseConnection st))
                  (DatabaseConnection.releaseCallback (databaseConnection st)))
               (logger st ++ map (fun q => LogQuery q []) qs ++ reports qs (snd answered))
               (heap st),
       r)
    /\ match firstRejection (snd answered) with
       | Some error => r = Throw (Rejected error)
       | None => exists l, r = Ok l
       end.
Proof.
  intros Hcalls Hrel answered.
  destruct (startAll_statements calls qs Hcalls st Hrel) as (ps & Hps & Hnil & Hall).
  fold answered in Hps, Hall.
  unfold promiseAll, await, allOf. unfold bind at 1. unfold bind at 1. rewrite Hps. unfold ret.
  destruct qs as [|q qs'].
  - rewrite (Hnil eq_refl). cbn [all settle]. subst answered. cbn.
    exists (Ok []). split; [|eauto]. now rewrite app_nil_r.
  - destruct (settle_oneRound _ _ _
                (mkState false
                   (DatabaseConnection.mk (fst answered)
                      (DatabaseConnection.isTransactionActive (databaseConnection st))
                      (DatabaseConnection.releaseCallback (databaseConnection st)))
                   (logger st ++ map (fun q0 => LogQuery q0 []) (q :: qs')) (heap st))
                (Hall ltac:(discriminate))) as (r & Hr & Hres).
    exists r. split; [|exact Hres]. rewrite Hr. unfold told. cbn. now rewrite <- app_assoc.
Qed.

Lemma reports_not_announced (qs : list string) (answered : list (Js.Value + SqlResult)) :
  issued (reports qs answered) = [].
Proof.
  revert answered. induction qs as [|q qs IH]; intros [|[error|result] answered]; cbn; auto.
Qed.

Lemma issued_announcements (qs : list string) :
  issued (map (fun q => LogQuery q []) qs) = qs.
Proof. induction qs as [|q qs IH]; cbn; [reflexivity | now rewrite IH]. Qed.

Lemma reports_Forall (P : LogEntry -> Prop) (qs : list string)
      (answered : list (Js.Value + SqlResult)) :
  (forall q, In q qs -> P (LogFailedQuery q [])) ->
  (forall error, P (LogQueryError error)) ->
  Forall P (reports qs answered).
Proof.
  intros HF HE. revert answered.
  induction qs as [|q qs IH]; intros [|[error|result] answered]; cbn [reports];
    try constructor; auto.
  - apply HF. now left.
  - constructor; [apply HE|]. apply IH. intros q' Hq'. apply HF. now right.
  - apply IH. intros q' Hq'. apply HF. now right.
Qed.

Lemma logsOnly_statements {A} (P : LogEntry -> Prop) (calls : list (M (Promise A)))
      (qs : list string) :
  Forall2 statementCall calls qs ->
  (forall q, In q qs -> P (LogQuery q []) /\ P (LogFailedQuery q [])) ->
  (forall error, P (LogQueryError error)) ->
  logsOnly P (promiseAll calls).
Proof.
  intros Hcalls HQ HE st st' r Hrel Hrun.
  destruct (promiseAll_statements calls qs st Hcalls Hrel) as (r' & Heq & _).
  rewrite Heq in Hrun. injection Hrun as <- <-. cbn. repeat split; auto.
  eexists. split; [reflexivity|]. apply Forall_app. split.
  - apply List.Forall_forall. intros e He. apply in_map_iff in He as (q & <- & Hq).
    now apply HQ.
  - apply reports_Forall; [|exact HE]. intros q Hq. now apply HQ.
Qed.

Lemma statementCalls_map {A B} (f : B -> M (Promise A)) (g : B -> string) (xs : list B) :
  (forall x, statementCall (f x) (g x)) -> Forall2 statementCall (map f xs) (map g xs).
Proof. intros H. induction xs; cbn; constructor; auto. Qed.

Lemma issued_app (l1 l2 : list LogEntry) : issued (l1 ++ l2) = (issued l1 ++ issued l2)%list.
Proof.
  induction l1 as [|e l1 IH]; [reflexivity|].
  destruct e; simpl; now rewrite IH.
Qed.

(** *** Table recreation: the data copy *)

Lemma recreateTable_steps (tableSchema : TableSchema.t) :
  recreateTable executeSql tableSchema =
  bind (liftResult (recreateTableSql1 tableSchema))
    (fun sql1 =>
       bind (await (query executeSql sql1 []))
         (fun _ =>
            bind (await (query executeSql ("SELECT * FROM " +:+ quoted (TableSchema.name tableSchema)) []))
              (fun firstDatas =>
                 bind (copyData executeSql tableSchema firstDatas)
                   (fun _ => swapAndRebuild executeSql tableSchema)))).
Proof. reflexivity. Qed.

(** A log entry that is not the announcement of an INSERT statement. *)
Definition notInsert (entry : LogEntry) : Prop :=
  match entry with
  | LogQuery q _ => String.prefix "INSERT" q = false
  | _ => True
  end.

Lemma notInsert_issued (l : list LogEntry) :
  Forall notInsert l -> Forall (fun q => String.prefix "INSERT" q = false) (issued l).
Proof.
  induction 1 as [|e l He Hl IH]; [constructor|].
  destruct e; simpl; auto.
Qed.

Lemma createIndex_logsOnly (P : LogEntry -> Prop) (indices : list IndexSchema.t) :
  (forall index, In index indices ->
                 P (LogQuery (createIndexSql index) [])
                 /\ P (LogFailedQuery (createIndexSql index) [])) ->
  (forall error, P (LogQueryError error)) ->
  logsOnly P (promiseAll (map (createIndex executeSql) indices)).
Proof.
  intros HQ HE.
  apply (logsOnly_statements P _ (map createIndexSql indices)); [| |exact HE].
  - apply statementCalls_map, createIndex_statementCall.
  - intros q Hq. apply in_map_iff in Hq as (index & <- & Hin). now apply HQ.
Qed.

Lemma createIndexSql_not_insert (index : IndexSchema.t) :
  String.prefix "INSERT" (createIndexSql index) = false.
Proof. unfold createIndexSql. destruct (IndexSchema.isUnique index); reflexivity. Qed.

Lemma swapAndRebuild_no_insert (tableSchema : TableSchema.t) :
  logsOnly notInsert (swapAndRebuild executeSql tableSchema).
Proof.
  unfold swapAndRebuild.
  apply logsOnly_bind; [apply logsOnly_query; simpl; auto|]. intros _.
  apply logsOnly_bind; [apply logsOnly_query; simpl; auto|]. intros _.
  apply logsOnly_bind; [|intros _; apply logsOnly_ret].
  apply createIndex_logsOnly; [|simpl; auto]. intros index _.
  simpl. auto using createIndexSql_not_insert.
Qed.

Lemma recreateTableSql1_not_insert (tableSchema : TableSchema.t) (sql1 : string) :
  recreateTableSql1 tableSchema = Ok sql1 -> String.prefix "INSERT" sql1 = false.
Proof.
  unfold recreateTableSql1.
  destruct (mapResult buildCreateColumnSql _) as [defs|e]; [|discriminate].
  rewrite fold_left_append.
  destruct (0 <? _); intros [= <-]; norm_append; reflexivity.
Qed.

(** The statements of a recreation whose staging statement and probe
    succeed: the staging statement, the probe, the data copy when the probe
    returned at least one row, and then statements none of which is an
    INSERT. *)
Lemma recreateTable_statements
        (st : State DB) (tableSchema : TableSchema.t)
        (sql1 : string) (db1 db2 : DB) (result1 result2 : SqlResult) :
  let name := TableSchema.name tableSchema in
  let probe := "SELECT * FROM " +:+ quoted name in
  let shared := fun firstRow : Js.ObjectLiteral =>
    List.filter (fun x => Js.includes (map ColumnSchema.name (TableSchema.columns tableSchema)) x)
                (Js.keys firstRow) in
  let copy := fun firstRow : Js.ObjectLiteral =>
    "INSERT INTO " +:+ quoted ("temporary_" +:+ name)
    +:+ " (" +:+ Js.join ", " (shared firstRow)
    +:+ ") SELECT " +:+ Js.join ", " (map quoted (shared firstRow))
    +:+ " FROM " +:+ quoted name in
  isReleased st = false ->
  recreateTableSql1 tableSchema = Ok sql1 ->
  executeSql (DatabaseConnection.connection (databaseConnection st)) sql1 [] = (db1, inr result1) ->
  executeSql db1 probe [] = (db2, inr result2) ->
  exists others,
    Forall (fun q => String.prefix "INSERT" q = false) (sql1 :: probe :: others)
    /\ issued (logger (fst (recreateTable executeSql tableSchema st)))
       = (issued (logger st)
          ++ [sql1; probe]
          ++ match rows result2 with
             | Some (firstRow :: _) => [copy firstRow]
             | _ => []
             end
          ++ others)%list.
Proof.
  intros name probe shared copy Hrel Hsql1 Hexec1 Hexec2.
  rewrite recreateTable_steps, Hsql1. unfold bind at 1, liftResult.
  unfold bind at 1. rewrite await_query, Hrel.
  cbn [log logger databaseConnection DatabaseConnection.connection]. rewrite Hexec1.
  unfold bind at 1. rewrite await_query.
  cbn [setConnection log logger databaseConnection isReleased
       DatabaseConnection.connection]. rewrite Hrel.
  fold name. fold probe. rewrite Hexec2.
  set (st2 := setConnection _ db2).
  assert (Hrel2 : isReleased st2 = false) by exact Hrel.
  assert (Hlog2 : logger st2 = (logger st ++ [LogQuery sql1 []; LogQuery probe []])%list).
  { unfold st2. cbn. now rewrite <- app_assoc. }
  set (firstDatas := match rows result2 with Some l => Rows l | None => Raw result2 end).
  destruct (bind (copyData executeSql tableSchema firstDatas) (fun _ => swapAndRebuild executeSql tableSchema) st2)
    as [st' r] eqn:Erun.
  cbn [fst].
  assert (Hfirst : String.prefix "INSERT" sql1 = false)
    by (eapply recreateTableSql1_not_insert; eauto).
  destruct (rows result2) as [[|firstRow more]|] eqn:Erows; subst firstDatas;
    cbn [copyData] in Erun.
  - (* the probe returned no row *)
    assert (Hrest : logsOnly notInsert
                      (bind (@ret DB unit tt) (fun _ => swapAndRebuild executeSql tableSchema)))
      by (apply logsOnly_bind; [apply logsOnly_ret | intros _; apply swapAndRebuild_no_insert]).
    destruct (Hrest st2 st' r Hrel2 Erun) as (_ & _ & l & Hl & Hno).
    exists (issued l). split.
    + constructor; [exact Hfirst|]. constructor; [reflexivity|]. now apply notInsert_issued.
    + rewrite Hl, Hlog2, !issued_app, <- app_assoc. reflexivity.
  - (* the probe returned rows *)
    assert (Hrest : runs (bind (bind (await (query executeSql (recreateTableSql2 tableSchema firstRow) []))
                                     (fun _ => ret tt))
                               (fun _ => swapAndRebuild executeSql tableSchema))
                         (fun l _ => exists l2, issued l = recreateTableSql2 tableSchema firstRow
                                                           :: issued l2
                                                /\ Forall notInsert l2)).
    { eapply runs_weaken.
      - apply runs_bind; [apply runs_statement|].
        intros a. apply swapAndRebuild_no_insert.
      - intros l r0 [(e & Hst & _) | (a & l1 & l2 & Heq & Hst & Hl2)].
        + exists []. destruct Hst as [[E _] | (er & E & _)]; subst l; split;
            reflexivity || constructor.
        + exists l2. destruct Hst as [[E _] | (er & E & _)]; subst l l1; split;
            reflexivity || assumption. }
    destruct (Hrest st2 st' r Hrel2 Erun) as (_ & _ & l & Hl & l2 & Hiss & Hno).
    exists (issued l2). split.
    + constructor; [exact Hfirst|]. constructor; [reflexivity|]. now apply notInsert_issued.
    + rewrite Hl, Hlog2, !issued_app, Hiss, <- app_assoc. reflexivity.
  - (* the probe resolved with a result that has no row list *)
    assert (Hrest : logsOnly notInsert
                      (bind (@ret DB unit tt) (fun _ => swapAndRebuild executeSql tableSchema)))
      by (apply logsOnly_bind; [apply logsOnly_ret | intros _; apply swapAndRebuild_no_insert]).
    destruct (Hrest st2 st' r Hrel2 Erun) as (_ & _ & l & Hl & Hno).
    exists (issued l). split.
    + constructor; [exact Hfirst|]. constructor; [reflexivity|]. now apply notInsert_issued.
    + rewrite Hl, Hlog2, !issued_app, <- app_assoc. reflexivity.
Qed.

(** C1: the code issues the data-copy INSERT whenever the probe returned
    at least one row, whether or not a column of the first row is a column
    of the target; the claim says it is issued only when the two share a
    column.  Once the staging statement and the probe have succeeded, the
    copy is the third statement exactly when the probe returned a row; it
    names the columns of the first row that are columns of the target, in
    the order of the first row, on the insert side (unquoted) and on the
    select side (quoted); when there is no such column both lists are
    empty and the statement is [INSERT INTO "temporary_<name>" () SELECT
    FROM "<name>"].  No other statement of the recreation is an INSERT, so
    none is issued for a table without rows. *)
Theorem recreateTable_data_copy
        (st : State DB) (tableSchema : TableSchema.t)
        (sql1 : string) (db1 db2 : DB) (result1 result2 : SqlResult) :
  let name := TableSchema.name tableSchema in
  let probe := "SELECT * FROM " +:+ quoted name in
  let shared := fun firstRow : Js.ObjectLiteral =>
    List.filter (fun x => Js.includes (map ColumnSchema.name (TableSchema.columns tableSchema)) x)
                (Js.keys firstRow) in
  let copy := fun firstRow : Js.ObjectLiteral =>
    "INSERT INTO " +:+ quoted ("temporary_" +:+ name)
    +:+ " (" +:+ Js.join ", " (shared firstRow)
    +:+ ") SELECT " +:+ Js.join ", " (map quoted (shared firstRow))
    +:+ " FROM " +:+ quoted name in
  isReleased st = false ->
  recreateTableSql1 tableSchema = Ok sql1 ->
  executeSql (DatabaseConnection.connection (databaseConnection st)) sql1 [] = (db1, inr result1) ->
  executeSql db1 probe [] = (db2, inr result2) ->
  (exists others,
      Forall (fun q => String.prefix "INSERT" q = false) (sql1 :: probe :: others)
      /\ issued (logger (fst (recreateTable executeSql tableSchema st)))
         = (issued (logger st)
            ++ [sql1; probe]
            ++ match rows result2 with
               | Some (firstRow :: _) => [copy firstRow]
               | _ => []
               end
            ++ others)%list)
  /\ (forall firstRow,
         shared firstRow = [] ->
         copy firstRow
         = "INSERT INTO " +:+ quoted ("temporary_" +:+ name) +:+ " () SELECT  FROM "
           +:+ quoted name).
Proof.
  intros name probe shared copy Hrel Hsql1 Hexec1 Hexec2. split.
  - exact (recreateTable_statements st tableSchema sql1 db1 db2 result1 result2
             Hrel Hsql1 Hexec1 Hexec2).
  - intros firstRow Hshared. unfold copy. rewrite Hshared. cbn [map Js.join].
    norm_append. reflexivity.
Qed.

(** *** Failures of the engine *)

(** What the logger hears of a statement that fails. *)
Definition failure (q : string) (ps : list Js.Value) (error : Js.Value) : list LogEntry :=
  [LogQuery q ps; LogFailedQuery q ps; LogQueryError error].

(** The runner once the engine has left the database [db] and the logger
    has been told [entries]: flags and heap are as they were. *)
Definition afterwards (st : State DB) (db : DB) (entries : list LogEntry) : State DB :=
  mkState (isReleased st)
          (DatabaseConnection.mk db
             (DatabaseConnection.isTransactionActive (databaseConnection st))
             (DatabaseConnection.releaseCallback (databaseConnection st)))
          (logger st ++ entries) (heap st).

(** Statements executed one after the other, each one awaited before the
    next is issued, up to the first one the engine rejects: the database
    the engine leaves, what the logger hears, and the error of the rejected
    statement if there is one.  Nothing is executed after a rejection. *)
Fixpoint sequentially (db : DB) (statements : list string)
  : DB * list LogEntry * option Js.Value :=
  match statements with
  | [] => (db, [], None)
  | q :: rest =>
      match executeSql db q [] with
      | (db1, inl error) => (db1, failure q [] error, Some error)
      | (db1, inr _) =>
          let '(db2, entries, rejection) := sequentially db1 rest in
          (db2, LogQuery q [] :: entries, rejection)
      end
  end.

(** The statements [recreateTable] executes one after the other, given
    what the engine answers to the probe: the staging statement, the probe,
    the data copy when the probe returned a row, the drop and the rename. *)
Definition recreateSteps (tableSchema : TableSchema.t) (sql1 : string)
           (probed : Js.Value + SqlResult) : list string :=
  ([sql1; "SELECT * FROM " +:+ quoted (TableSchema.name tableSchema)]
   ++ match probed with
      | inr result =>
          match rows result with
          | Some (firstRow :: _) => [recreateTableSql2 tableSchema firstRow]
          | _ => []
          end
      | inl _ => []
      end
   ++ ["DROP TABLE " +:+ quoted (TableSchema.name tableSchema);
       "ALTER TABLE " +:+ quoted ("temporary_" +:+ TableSchema.name tableSchema)
       +:+ " RENAME TO " +:+ quoted (TableSchema.name tableSchema)])%list.

Lemma afterwards_afterwards (st : State DB) (db db' : DB) (l l' : list LogEntry) :
  afterwards (afterwards st db l) db' l' = afterwards st db' (l ++ l').
Proof. unfold afterwards. cbn. now rewrite app_assoc. Qed.

Lemma afterwards_unreleased (st : State DB) (db : DB) (l : list LogEntry) :
  isReleased st = false ->
  mkState false
          (DatabaseConnection.mk db
             (DatabaseConnection.isTransactionActive (databaseConnection st))
             (DatabaseConnection.releaseCallback (databaseConnection st)))
          (logger st ++ l) (heap st)
  = afterwards st db l.
Proof. intros Hrel. unfold afterwards. now rewrite Hrel. Qed.

(** An awaited statement and what follows it. *)
Lemma await_step {A} (q : string) (k : QueryResult -> M A) (st : State DB) :
  isReleased st = false ->
  bind (await (query executeSql q [])) k st
  = match executeSql (DatabaseConnection.connection (databaseConnection st)) q [] with
    | (db, inr result) =>
        k (match rows result with Some l => Rows l | None => Raw result end)
          (afterwards st db [LogQuery q []])
    | (db, inl error) => (afterwards st db (failure q [] error), Throw (Rejected error))
    end.
Proof.
  intros Hrel. unfold bind. rewrite await_query, Hrel.
  cbn [log logger databaseConnection DatabaseConnection.connection].
  destruct (executeSql _ q []) as [db [error|result]].
  - unfold afterwards, setConnection, log, failure. cbn. now rewrite <- !app_assoc.
  - reflexivity.
Qed.

Lemma bind_bind {A B C} (m : M A) (f : A -> M B) (g : B -> M C) (st : State DB) :
  bind (bind m f) g st = bind m (fun a => bind (f a) g) st.
Proof. unfold bind. destruct (m st) as [st1 [a|e]]; reflexivity. Qed.

(** The rebuild step: every CREATE INDEX is issued; the answers are
    reported as they arrive; the first rejection is the outcome. *)
Lemma rebuild_run (indices : list IndexSchema.t) (st : State DB) :
  isReleased st = false ->
  let indexSqls := map createIndexSql indices in
  let answered := answers (DatabaseConnection.connection (databaseConnection st)) indexSqls in
  bind (promiseAll (map (createIndex executeSql) indices)) (fun _ => ret tt) st
  = (afterwards st (fst answered)
                (map (fun q => LogQuery q []) indexSqls ++ reports indexSqls (snd answered)),
     match firstRejection (snd answered) with
     | Some error => Throw (Rejected error)
     | None => Ok tt
     end).
Proof.
  intros Hrel indexSqls answered.
  destruct (promiseAll_statements (map (createIndex executeSql) indices) indexSqls st
              (statementCalls_map _ _ _ createIndex_statementCall) Hrel) as (r & Hrun & Hr).
  fold answered in Hrun, Hr. unfold bind. rewrite Hrun, afterwards_unreleased by exact Hrel.
  destruct (firstRejection (snd answered)) as [error|].
  - now subst r.
  - destruct Hr as [l ->]. reflexivity.
Qed.

(** The outcome of a recreation whose steps have gone as [steps] says:
    rejected with the error of the rejected step, or else finished by the
    rebuild of the indices. *)
Definition finished (st : State DB) (indexSqls : list string)
           (steps : DB * list LogEntry * option Js.Value) : State DB * Result unit :=
  match steps with
  | (db, entries, Some error) => (afterwards st db entries, Throw (Rejected error))
  | (db, entries, None) =>
      let answered := answers db indexSqls in
      (afterwards st (fst answered)
                  (entries ++ map (fun q => LogQuery q []) indexSqls
                   ++ reports indexSqls (snd answered)),
       match firstRejection (snd answered) with
       | Some error => Throw (Rejected error)
       | None => Ok tt
       end)
  end.

Lemma finished_step (st : State DB) (indexSqls : list string) (db : DB) (q : string)
      (rest : list string) :
  finished st indexSqls (sequentially db (q :: rest))
  = match executeSql db q [] with
    | (db1, inl error) => (afterwards st db1 (failure q [] error), Throw (Rejected error))
    | (db1, inr _) =>
        finished (afterwards st db1 [LogQuery q []]) indexSqls (sequentially db1 rest)
    end.
Proof.
  cbn [sequentially]. destruct (executeSql db q []) as [db1 [error|result]]; [reflexivity|].
  destruct (sequentially db1 rest) as [[db2 entries] [error|]]; unfold finished;
    rewrite afterwards_afterwards; reflexivity.
Qed.

(** An awaited statement at the head of the steps. *)
Lemma await_finished (q : string) (k : QueryResult -> M unit) (st : State DB)
      (indexSqls rest : list string) :
  isReleased st = false ->
  (forall db result,
      executeSql (DatabaseConnection.connection (databaseConnection st)) q [] = (db, inr result) ->
      k (match rows result with Some l => Rows l | None => Raw result end)
        (afterwards st db [LogQuery q []])
      = finished (afterwards st db [LogQuery q []]) indexSqls (sequentially db rest)) ->
  bind (await (query executeSql q [])) k st
  = finished st indexSqls
             (sequentially (DatabaseConnection.connection (databaseConnection st)) (q :: rest)).
Proof.
  intros Hrel Hk. rewrite await_step, finished_step by exact Hrel.
  destruct (executeSql _ q []) as [db [error|result]] eqn:E; [reflexivity|].
  now apply Hk.
Qed.

(** The swap and the rebuild. *)
Lemma swapAndRebuild_run (tableSchema : TableSchema.t) (st : State DB) :
  isReleased st = false ->
  swapAndRebuild executeSql tableSchema st
  = finished st (map createIndexSql (TableSchema.indices tableSchema))
      (sequentially (DatabaseConnection.connection (databaseConnection st))
         ["DROP TABLE " +:+ quoted (TableSchema.name tableSchema);
          "ALTER TABLE " +:+ quoted ("temporary_" +:+ TableSchema.name tableSchema)
          +:+ " RENAME TO " +:+ quoted (TableSchema.name tableSchema)]).
Proof.
  intros Hrel. unfold swapAndRebuild.
  apply await_finished; [exact Hrel|]. intros db3 r3 _.
  apply await_finished; [exact Hrel|]. intros db4 r4 _.
  rewrite rebuild_run by exact Hrel. unfold finished. cbn [sequentially app].
  reflexivity.
Qed.

(** [recreateTable], on a runner that is not released and for a
    descriptor whose staging statement can be rendered: its steps one after
    the other up to the first rejection, and, when none of them is
    rejected, the rebuild of the indices. *)
Lemma recreateTable_run (st : State DB) (tableSchema : TableSchema.t) (sql1 : string) :
  isReleased st = false ->
  recreateTableSql1 tableSchema = Ok sql1 ->
  let connection := DatabaseConnection.connection (databaseConnection st) in
  let probed :=
    snd (executeSql (fst (executeSql connection sql1 []))
                    ("SELECT * FROM " +:+ quoted (TableSchema.name tableSchema)) []) in
  let indexSqls := map createIndexSql (TableSchema.indices tableSchema) in
  recreateTable executeSql tableSchema st
  = match sequentially connection (recreateSteps tableSchema sql1 probed) with
    | (db, entries, Some error) => (afterwards st db entries, Throw (Rejected error))
    | (db, entries, None) =>
        let answered := answers db indexSqls in
        (afterwards st (fst answered)
                    (entries ++ map (fun q => LogQuery q []) indexSqls
                     ++ reports indexSqls (snd answered)),
         match firstRejection (snd answered) with
         | Some error => Throw (Rejected error)
         | None => Ok tt
         end)
    end.
Proof.
  intros Hrel Hsql1 connection probed indexSqls.
  change (recreateTable executeSql tableSchema st
          = finished st indexSqls
                     (sequentially connection (recreateSteps tableSchema sql1 probed))).
  rewrite recreateTable_steps, Hsql1. unfold bind at 1, liftResult.
  unfold recreateSteps. cbn [app].
  apply await_finished; [exact Hrel|]. intros db1 r1 E1.
  apply await_finished; [exact Hrel|]. intros db2 r2 E2.
  cbn [afterwards databaseConnection DatabaseConnection.connection] in E2.
  subst probed. fold connection in E1. rewrite E1. cbn [fst]. rewrite E2. cbn [snd].
  set (st2 := afterwards (afterwards st db1 _) db2 _).
  assert (Hrel2 : isReleased st2 = false) by exact Hrel.
  destruct (rows r2) as [[|firstRow more]|]; cbn [copyData app].
  - unfold bind at 1, ret. now rewrite swapAndRebuild_run.
  - rewrite bind_bind. apply await_finished; [exact Hrel2|]. intros db3 r3 _.
    unfold bind at 1, ret. now rewrite swapAndRebuild_run.
  - unfold bind at 1, ret. now rewrite swapAndRebuild_run.
Qed.

(** [recreateTable] leaves the released flag and the heap as they
    were. *)
Lemma recreateTable_frame (tableSchema : TableSchema.t) :
  logsOnly (fun _ => True) (recreateTable executeSql tableSchema).
Proof.
  rewrite recreateTable_steps.
  apply logsOnly_bind; [apply logsOnly_liftResult|]. intros sql1.
  apply logsOnly_bind; [apply logsOnly_query; auto|]. intros _.
  apply logsOnly_bind; [apply logsOnly_query; auto|]. intros firstDatas.
  apply logsOnly_bind.
  - unfold copyData. destruct firstDatas as [[|firstRow more]|result];
      try apply logsOnly_ret.
    apply logsOnly_bind; [apply logsOnly_query; auto | intros _; apply logsOnly_ret].
  - intros _. unfold swapAndRebuild.
    apply logsOnly_bind; [apply logsOnly_query; auto|]. intros _.
    apply logsOnly_bind; [apply logsOnly_query; auto|]. intros _.
    apply logsOnly_bind; [|intros _; apply logsOnly_ret].
    apply createIndex_logsOnly; auto.
Qed.

Lemma mapResult_throw {A B} (f : A -> Result B) (xs : list A) (e : Error) :
  mapResult f xs = Throw e -> exists x, In x xs /\ f x = Throw e.
Proof.
  induction xs as [|x xs IH]; simpl; [discriminate|].
  destruct (f x) as [y|e'] eqn:E.
  - destruct (mapResult f xs) as [ys|e'']; [discriminate|].
    intros [= ->]. destruct (IH eq_refl) as (x' & Hin & Hx'). eauto.
  - intros [= ->]. eauto.
Qed.

Lemma normalizeType_throw (column : ColumnMetadata.t) (e : Error) :
  normalizeType column = Throw e -> exists type driver_, e = DataTypeNotSupportedByDriverError type driver_.
Proof.
  unfold normalizeType.
  repeat match goal with
         | |- context [if ?b then _ else _] => destruct b
         end; intros [=]; subst; eauto.
Qed.

Lemma buildCreateColumnSql_throw (column : ColumnSchema.t) (e : Error) :
  buildCreateColumnSql column = Throw e ->
  exists type driver_, e = DataTypeNotSupportedByDriverError type driver_.
Proof.
  unfold buildCreateColumnSql. destruct (ColumnSchema.metadata column) as [m|].
  - destruct (normalizeType m) as [ty|e'] eqn:E; [discriminate|].
    intros [= ->]. eapply normalizeType_throw; eauto.
  - discriminate.
Qed.

(** What [createTable] tells the engine: the one statement of
    [createTableSql]. *)
Lemma createTable_issues (table : TableSchema.t) (sql : string) (st : State DB) :
  isReleased st = false ->
  createTableSql table = Ok sql ->
  issued (logger (fst (createTable executeSql table st))) = (issued (logger st) ++ [sql])%list.
Proof.
  intros Hrel Hsql. unfold createTable. rewrite Hsql.
  unfold bind at 1, throwIfReleased. rewrite Hrel.
  unfold bind at 1, liftResult.
  destruct (bind (await (query executeSql sql [])) (fun _ => ret tt) st) as [st' r] eqn:Erun.
  destruct (runs_statement sql [] st st' r Hrel Erun) as (_ & _ & l & Hl & Hst).
  cbn [fst]. rewrite Hl, issued_app.
  destruct Hst as [[-> _] | (error & -> & _)]; reflexivity.
Qed.

(** C8: a statement the engine rejects is announced to the logger,
    executed once, reported to the logger as failed together with the
    error, and the caller gets that very error: [query], [insert], and
    every step of [recreateTable].  A recreation executes its steps one
    after the other up to the first one the engine rejects; it is rejected
    with the error of that step, nothing is executed or logged after it,
    and the database is as the engine left it.  When no step is rejected,
    the CREATE INDEX statements are issued together; every rejection among
    them is reported to the logger, and the recreation is rejected with the
    first of them. *)
Theorem engine_failure_propagates :
  (forall (st : State DB) q ps db error,
      isReleased st = false ->
      executeSql (DatabaseConnection.connection (databaseConnection st)) q ps = (db, inl error) ->
      await (query executeSql q ps) st =
      (mkState false
               (DatabaseConnection.mk db
                  (DatabaseConnection.isTransactionActive (databaseConnection st))
                  (DatabaseConnection.releaseCallback (databaseConnection st)))
               (logger st ++ failure q ps error) (heap st),
       Throw (Rejected error)))
  /\ (forall (st : State DB) tableName keyValues generated,
      isReleased st = false ->
      exists sql ps,
        insert executeSql driver tableName keyValues generated st
        = match executeSql (DatabaseConnection.connection (databaseConnection st)) sql ps with
          | (db, inl error) => (afterwards st db (failure sql ps error), Throw (Rejected error))
          | (db, inr result) =>
              (afterwards st db [LogQuery sql ps],
               Ok (if generated then insertId result else Js.Undefined))
          end)
  /\ (forall (st : State DB) tableSchema sql1,
      isReleased st = false ->
      recreateTableSql1 tableSchema = Ok sql1 ->
      let connection := DatabaseConnection.connection (databaseConnection st) in
      let probed :=
        snd (executeSql (fst (executeSql connection sql1 []))
                        ("SELECT * FROM " +:+ quoted (TableSchema.name tableSchema)) []) in
      let indexSqls := map createIndexSql (TableSchema.indices tableSchema) in
      recreateTable executeSql tableSchema st
      = match sequentially connection (recreateSteps tableSchema sql1 probed) with
        | (db, entries, Some error) => (afterwards st db entries, Throw (Rejected error))
        | (db, entries, None) =>
            let answered := answers db indexSqls in
            (afterwards st (fst answered)
                        (entries ++ map (fun q => LogQuery q []) indexSqls
                         ++ reports indexSqls (snd answered)),
             match firstRejection (snd answered) with
             | Some error => Throw (Rejected error)
             | None => Ok tt
             end)
        end).
Proof.
  split; [|split].
  - intros st q ps db error Hrel Hexec. rewrite await_query, Hrel.
    cbn [log logger databaseConnection]. rewrite Hexec.
    unfold log, setConnection, failure. cbn. rewrite Hrel, <- !app_assoc. reflexivity.
  - intros st tableName keyValues generated Hrel. unfold insert. rewrite Hrel. cbv zeta.
    cbn [log logger databaseConnection].
    match goal with
    | |- context [executeSql ?c ?s ?p] => exists s, p; destruct (executeSql c s p) as [db [e|result]]
    end.
    + unfold afterwards, log, setConnection, failure. cbn. now rewrite <- !app_assoc.
    + reflexivity.
  - intros st tableSchema sql1 Hrel Hsql1. apply recreateTable_run; assumption.
Qed.

(** *** Release *)

(** C7 (as amended): when the connection has a release callback, every
    operation on the runner after [release] throws the already-released
    error and leaves the state untouched (no statement is executed or
    logged), whether the callback's promise resolved or rejected; only the
    accessor [isTransactionActive] still answers. *)
Theorem released_runner_rejects (st : State DB) (outcome : Result unit) :
  DatabaseConnection.releaseCallback (databaseConnection st) = Some outcome ->
  let st' := fst (release st) in
  let rejects := fun (A : Type) (m : M A) =>
                   m st' = (st', Throw QueryRunnerAlreadyReleasedError) in
  snd (release st) = outcome
  /\ (forall q ps, rejects _ (await (query executeSql q ps)))
  /\ (forall tableName keyValues generated,
         rejects _ (insert executeSql driver tableName keyValues generated))
  /\ (forall tableName valuesMap conditions,
         rejects _ (update executeSql driver tableName valuesMap conditions))
  /\ (forall tableName conditions, rejects _ (delete executeSql driver tableName conditions))
  /\ rejects _ (clearDatabase executeSql)
  /\ (forall tableNames namingStrategy,
         rejects _ (loadSchemaTables executeSql tableNames namingStrategy))
  /\ (forall table, rejects _ (createTable executeSql table))
  /\ (forall tableSchema columns, rejects _ (createColumns executeSql tableSchema columns))
  /\ (forall tableSchema changed, rejects _ (changeColumns executeSql tableSchema changed))
  /\ (forall tableSchema columns, rejects _ (dropColumns executeSql tableSchema columns))
  /\ (forall dbTable, rejects _ (updatePrimaryKeys executeSql dbTable))
  /\ (forall tableSchema keys, rejects _ (createForeignKeys executeSql tableSchema keys))
  /\ (forall tableSchema keys, rejects _ (dropForeignKeys executeSql tableSchema keys))
  /\ (forall index, rejects _ (await (createIndex executeSql index)))
  /\ (forall tableName indexName generated,
         rejects _ (dropIndex executeSql tableName indexName generated))
  /\ rejects _ (beginTransaction executeSql)
  /\ rejects _ (commitTransaction executeSql)
  /\ rejects _ (rollbackTransaction executeSql)
  /\ isTransactionActive st'
     = (st', Ok (DatabaseConnection.isTransactionActive (databaseConnection st))).
Proof.
  intros Hcb st' rejects. subst st' rejects. unfold release. rewrite Hcb. cbn [fst snd].
  repeat split; intros; reflexivity.
Qed.

(** *** Structural edits *)

(** C10: the list of columns passed to [createColumns], and the list of
    changes passed to [changeColumns], are never read: whatever they are,
    the call is the released check followed by the recreation of the
    table schema as passed in. *)
Theorem createColumns_ignores_columns
        (tableSchema : TableSchema.t) (columns columns' : list ColumnSchema.t)
        (changed changed' : list (ColumnSchema.t * ColumnSchema.t)) (st : State DB) :
  createColumns executeSql tableSchema columns st
  = createColumns executeSql tableSchema columns' st
  /\ changeColumns executeSql tableSchema changed st
     = changeColumns executeSql tableSchema changed' st
  /\ createColumns executeSql tableSchema columns st
     = (if isReleased st then (st, Throw QueryRunnerAlreadyReleasedError)
        else recreateTable executeSql tableSchema st)
  /\ changeColumns executeSql tableSchema changed st
     = (if isReleased st then (st, Throw QueryRunnerAlreadyReleasedError)
        else recreateTable executeSql tableSchema st).
Proof.
  repeat split; try reflexivity;
    unfold createColumns, changeColumns, bind, throwIfReleased;
    destruct (isReleased st); reflexivity.
Qed.

Lemma editClone_frame (edit : TableSchema.t -> TableSchema.t) (tableSchema : positive)
      (ts : TableSchema.t) (st : State DB) :
  heap st !! tableSchema = Some ts ->
  heap (fst (editClone executeSql edit tableSchema st)) !! tableSchema = Some ts
  /\ editClone executeSql edit tableSchema st
     = (if isReleased st then (st, Throw QueryRunnerAlreadyReleasedError)
        else recreateTable executeSql (edit ts)
               (setHeap st (<[fresh (dom (heap st)) := edit ts]> (heap st)))).
Proof.
  intros Hts.
  set (newTable := fresh (dom (heap st))).
  assert (Hfresh : newTable <> tableSchema).
  { intros E. apply (is_fresh (dom (heap st))). fold newTable. rewrite E.
    apply elem_of_dom. eauto. }
  assert (Heq : editClone executeSql edit tableSchema st
                = (if isReleased st then (st, Throw QueryRunnerAlreadyReleasedError)
                   else recreateTable executeSql (edit ts)
                          (setHeap st (<[newTable := edit ts]> (heap st))))).
  { unfold editClone. unfold bind at 1. unfold throwIfReleased.
    destruct (isReleased st) eqn:Hrel; [reflexivity|].
    unfold bind at 1. unfold clone. rewrite Hts. fold newTable.
    unfold bind at 1. unfold mutate. cbn [heap setHeap]. rewrite lookup_insert_eq.
    unfold bind at 1. unfold deref. cbn [heap setHeap]. rewrite lookup_insert_eq.
    rewrite insert_insert_eq. reflexivity. }
  split; [|exact Heq]. rewrite Heq.
  destruct (isReleased st) eqn:Hrel; [exact Hts|].
  set (st1 := setHeap st _).
  destruct (recreateTable executeSql (edit ts) st1) as [st' r] eqn:Erun.
  assert (Hrel1 : isReleased st1 = false) by exact Hrel.
  destruct (recreateTable_frame (edit ts) st1 st' r Hrel1 Erun) as (_ & Hheap & _).
  cbn [fst]. rewrite Hheap. unfold st1. cbn [heap setHeap].
  rewrite lookup_insert_ne by exact Hfresh. exact Hts.
Qed.

(** C9: [dropColumns], [createForeignKeys] and [dropForeignKeys] leave
    the object the caller passed as it was: the edit is made on a clone,
    and the recreation runs on the edited clone. *)
Theorem structural_edits_work_on_a_clone
        (st : State DB) (tableSchema : positive) (ts : TableSchema.t)
        (columns : list ColumnSchema.t) (foreignKeys : list ForeignKeySchema.t) :
  heap st !! tableSchema = Some ts ->
  let cloned := fun edited => setHeap st (<[fresh (dom (heap st)) := edited]> (heap st)) in
  let recreates := fun (m : M unit) edited =>
    m st = (if isReleased st then (st, Throw QueryRunnerAlreadyReleasedError)
            else recreateTable executeSql edited (cloned edited)) in
  heap (fst (dropColumns executeSql tableSchema columns st)) !! tableSchema = Some ts
  /\ heap (fst (createForeignKeys executeSql tableSchema foreignKeys st)) !! tableSchema = Some ts
  /\ heap (fst (dropForeignKeys executeSql tableSchema foreignKeys st)) !! tableSchema = Some ts
  /\ recreates (dropColumns executeSql tableSchema columns)
               (TableSchema.removeColumns ts columns)
  /\ recreates (createForeignKeys executeSql tableSchema foreignKeys)
               (TableSchema.addForeignKeys ts foreignKeys)
  /\ recreates (dropForeignKeys executeSql tableSchema foreignKeys)
               (TableSchema.removeForeignKeys ts foreignKeys).
Proof.
  intros Hts cloned recreates. subst cloned recreates.
  pose proof (editClone_frame (fun t => TableSchema.removeColumns t columns) _ _ _ Hts) as [A1 A2].
  pose proof (editClone_frame (fun t => TableSchema.addForeignKeys t foreignKeys) _ _ _ Hts) as [B1 B2].
  pose proof (editClone_frame (fun t => TableSchema.removeForeignKeys t foreignKeys) _ _ _ Hts) as [C1 C2].
  repeat split; assumption.
Qed.

(** *** What a promise can be fulfilled with *)

(** [yields Q p]: whenever [p] is fulfilled, now or later, its value
    satisfies [Q]. *)
Inductive yields {A} (Q : A -> Prop) : Promise (DB := DB) A -> Prop :=
| yields_Fulfilled a : Q a -> yields Q (Fulfilled a)
| yields_Failed e rest : yields Q (Failed e rest)
| yields_Pending resume : (forall st, yields Q (snd (resume st))) -> yields Q (Pending resume).

Lemma settle_yields {A} (Q : A -> Prop) (p : Promise A) (st st' : State DB) (a : A) :
  yields Q p -> settle p st = (st', Ok a) -> Q a.
Proof.
  intros H. revert st. induction H as [a0 Ha|e rest|resume _ IH]; intros st; cbn [settle].
  - now intros [= _ <-].
  - discriminate.
  - specialize (IH st). destruct (resume st) as [st1 p']. exact (IH st1).
Qed.

Lemma yields_weaken {A} (Q Q' : A -> Prop) (p : Promise A) :
  (forall a, Q a -> Q' a) -> yields Q p -> yields Q' p.
Proof. intros HQ. induction 1; constructor; auto. Qed.

Lemma yields_mapPromise {A B} (f : A -> B) (Q : B -> Prop) (p : Promise A) :
  yields (fun a => Q (f a)) p -> yields Q (mapPromise f p).
Proof.
  induction 1 as [a Ha|e rest|resume _ IH]; cbn [mapPromise]; constructor; auto.
  intros st. specialize (IH st). destruct (resume st) as [st1 p']. exact IH.
Qed.

Lemma yields_both {A B} (QA : A -> Prop) (QB : B -> Prop) (p : Promise A) (q : Promise B) :
  yields QA p -> yields QB q -> yields (fun ab => QA (fst ab) /\ QB (snd ab)) (both p q).
Proof.
  intros Hp. revert q. induction Hp as [a Ha|e rest|resume Hres IH]; intros q Hq; cbn [both].
  - apply yields_mapPromise. eapply yields_weaken; [|exact Hq]. cbn. auto.
  - constructor.
  - destruct Hq as [b Hb|e rest|resume' Hres'].
    + apply (yields_mapPromise (fun a => (a, b))).
      eapply yields_weaken; [|exact (yields_Pending QA resume Hres)]. cbn. auto.
    + constructor.
    + constructor. intros st. specialize (IH st). destruct (resume st) as [st1 p'].
      specialize (Hres' st1). destruct (resume' st1) as [st2 q']. cbn [snd] in *.
      now apply IH.
Qed.

Lemma yields_all {X A} (R : X -> A -> Prop) (xs : list X) (ps : list (Promise A)) :
  Forall2 (fun x p => yields (R x) p) xs ps -> yields (fun l => Forall2 R xs l) (all ps).
Proof.
  induction 1 as [|x p xs ps Hp _ IH]; cbn [all].
  - constructor. constructor.
  - apply yields_mapPromise. eapply yields_weaken; [|exact (yields_both _ _ _ _ Hp IH)].
    intros [a l] [Ha Hl]. cbn in *. now constructor.
Qed.

(** The same for an async body and for a call. *)
Definition bodyYields {A} (Q : A -> Prop) (body : Async A) : Prop :=
  forall st, yields Q (snd (body st)).

Definition callYields {A} (Q : A -> Prop) (call : M (Promise A)) : Prop :=
  forall st, match call st with
             | (_, Ok p) => yields Q p
             | (_, Throw _) => True
             end.

Lemma bodyYields_resolve {A} (Q : A -> Prop) (a : A) : Q a -> bodyYields Q (resolve a).
Proof. intros Ha st. now constructor. Qed.

Lemma bodyYields_reject {A} (Q : A -> Prop) (e : Error) : bodyYields Q (reject e).
Proof. intros st. constructor. Qed.

Lemma bodyYields_sync {A B} (R : A -> Prop) (Q : B -> Prop) (m : M A) (k : A -> Async B) :
  (forall st st' a, m st = (st', Ok a) -> R a) ->
  (forall a, R a -> bodyYields Q (k a)) ->
  bodyYields Q (sync m k).
Proof.
  intros Hm Hk st. unfold sync. destruct (m st) as [st' [a|e]] eqn:E; [|constructor].
  apply Hk. eapply Hm; eauto.
Qed.

Lemma yields_andThen {A B} (R : A -> Prop) (Q : B -> Prop) (p : Promise A) (k : A -> Async B) :
  yields R p -> (forall a, R a -> bodyYields Q (k a)) -> bodyYields Q (andThen p k).
Proof.
  intros Hp Hk. induction Hp as [a Ha|e rest|resume _ IH]; intros st; cbn [andThen snd].
  - now apply Hk.
  - constructor.
  - constructor. intros st1. specialize (IH st1). destruct (resume st1) as [st2 p'].
    exact (IH st2).
Qed.

Lemma bodyYields_awaiting {A B} (R : A -> Prop) (Q : B -> Prop)
      (call : M (Promise A)) (k : A -> Async B) :
  callYields R call -> (forall a, R a -> bodyYields Q (k a)) -> bodyYields Q (awaiting call k).
Proof.
  intros Hc Hk st. unfold awaiting. specialize (Hc st).
  destruct (call st) as [st' [p|e]]; [|constructor].
  now apply (yields_andThen R Q p k).
Qed.

Lemma callYields_async {A} (Q : A -> Prop) (body : Async A) :
  bodyYields Q body -> callYields Q (async body).
Proof. intros Hb st. unfold async. specialize (Hb st). now destruct (body st). Qed.

Lemma callYields_query (q : string) (ps : list Js.Value) :
  callYields (fun _ => True) (query executeSql q ps).
Proof.
  intros st. unfold query. destruct (isReleased st); [exact I|]. cbv zeta.
  destruct (executeSql _ q ps) as [db [error|result]]; constructor; intros st';
    now constructor.
Qed.

Lemma startAll_yields {X A} (R : X -> A -> Prop) (xs : list X) (calls : list (M (Promise A))) :
  Forall2 (fun x call => callYields (R x) call) xs calls ->
  forall st, match startAll calls st with
             | (_, Ok ps) => Forall2 (fun x p => yields (R x) p) xs ps
             | (_, Throw _) => True
             end.
Proof.
  induction 1 as [|x call xs calls Hc _ IH]; intros st; cbn [startAll].
  - constructor.
  - unfold bind at 1. specialize (Hc st). destruct (call st) as [st1 [p|e]]; [|exact I].
    unfold bind at 1. specialize (IH st1). destruct (startAll calls st1) as [st2 [ps|e]]; [|exact I].
    now constructor.
Qed.

Lemma callYields_allOf {X A} (R : X -> A -> Prop) (xs : list X) (calls : list (M (Promise A))) :
  Forall2 (fun x call => callYields (R x) call) xs calls ->
  callYields (fun l => Forall2 R xs l) (allOf calls).
Proof.
  intros H st. unfold allOf, bind. pose proof (startAll_yields R xs calls H st) as Hs.
  destruct (startAll calls st) as [st1 [ps|e]]; [|exact I].
  now apply yields_all.
Qed.

Lemma callYields_allOf_map {X A} (R : X -> A -> Prop) (f : X -> M (Promise A)) (xs : list X) :
  (forall x, callYields (R x) (f x)) ->
  callYields (fun l => Forall2 R xs l) (allOf (map f xs)).
Proof.
  intros H. apply callYields_allOf. induction xs; cbn; constructor; auto.
Qed.

Lemma await_yields {A} (Q : A -> Prop) (call : M (Promise A)) (st st' : State DB) (a : A) :
  callYields Q call -> await call st = (st', Ok a) -> Q a.
Proof.
  intros Hc. unfold await, bind. specialize (Hc st).
  destruct (call st) as [st1 [p|e]]; [|discriminate].
  now apply settle_yields.
Qed.

End RunnerProperties.

(** C5 (as stated) fails: in the fragment of a column that is both
    unique and generated the UNIQUE clause is rendered, in front of the
    PRIMARY KEY clause; the generated clause does not take its place. *)
Lemma unique_generated_column_renders_both_clauses :
  let column := Example.column "id" "integer" false true true true in
  buildCreateColumnSql column
  = Ok (quoted "id" +:+ " integer NOT NULL UNIQUE PRIMARY KEY AUTOINCREMENT")
  /\ precedenceColumnSql column
     = Ok (quoted "id" +:+ " integer NOT NULL PRIMARY KEY AUTOINCREMENT")
  /\ buildCreateColumnSql column <> precedenceColumnSql column.
Proof. split; [reflexivity | split; [reflexivity | discriminate]]. Qed.

(** Recreating [t(id, a, b)] as [t(c)]: the old rows and the target
    share no column, and the copy is issued with empty column lists. *)
Lemma recreateTable_data_copy_witness :
  exists others,
    Forall (fun q => String.prefix "INSERT" q = false) others
    /\ issued (logger (fst (recreateTable scripted Example.disjointTable
                                          (freshState Example.script None))))
       = ([ "CREATE TABLE " +:+ quoted "temporary_t" +:+ " (" +:+ quoted "c" +:+ " text)";
            Example.probe;
            "INSERT INTO " +:+ quoted "temporary_t" +:+ " () SELECT  FROM " +:+ quoted "t" ]
          ++ others)%list.
Proof.
  destruct (recreateTable_data_copy scripted (freshState Example.script None)
              Example.disjointTable
              ("CREATE TABLE " +:+ quoted "temporary_t" +:+ " (" +:+ quoted "c" +:+ " text)")
              Example.script Example.script
              (mkSqlResult (Some []) Js.Undefined)
              (mkSqlResult (Some [Example.oldRow;
                                  [("id", Js.Num 2); ("a", Js.Str "y"); ("b", Js.Str "u2")]])
                           Js.Undefined)
              eq_refl eq_refl eq_refl eq_refl) as [(others & Hno & Hiss) _].
  exists others. split; [|exact Hiss].
  apply Forall_inv_tail in Hno. apply Forall_inv_tail in Hno. exact Hno.
Defined.

(** The run of C1's failing input in full: the old rows have the columns
    [id], [a], [b], the target has the single column [c]. *)
Lemma copy_issued_with_empty_intersection :
  colInTwiceArr Example.disjointTable Example.oldRow = []
  /\ issued (logger (fst (recreateTable scripted Example.disjointTable
                                        (freshState Example.script None))))
     = [ "CREATE TABLE " +:+ quoted "temporary_t" +:+ " (" +:+ quoted "c" +:+ " text)";
         "SELECT * FROM " +:+ quoted "t";
         "INSERT INTO " +:+ quoted "temporary_t" +:+ " () SELECT  FROM " +:+ quoted "t";
         "DROP TABLE " +:+ quoted "t";
         "ALTER TABLE " +:+ quoted "temporary_t" +:+ " RENAME TO " +:+ quoted "t" ].
Proof. split; reflexivity. Qed.

(** The engine refuses the DROP: the recreation stops there, after the
    staging statement, the probe and the copy, and is rejected with the
    engine's error. *)
Lemma engine_failure_propagates_witness :
  recreateTable scripted Example.table (freshState Example.lockedScript None)
  = (mkState false (DatabaseConnection.mk Example.lockedScript false None)
             [ LogQuery Example.staging [];
               LogQuery Example.probe [];
               LogQuery ("INSERT INTO " +:+ quoted "temporary_t" +:+ " (id, b) SELECT "
                         +:+ quoted "id" +:+ ", " +:+ quoted "b" +:+ " FROM " +:+ quoted "t") [];
               LogQuery ("DROP TABLE " +:+ quoted "t") [];
               LogFailedQuery ("DROP TABLE " +:+ quoted "t") [];
               LogQueryError (Js.Str "database table is locked") ]
             ∅,
     Throw (Rejected (Js.Str "database table is locked"))).
Proof.
  exact (proj2 (proj2 (engine_failure_propagates scripted plainDriver))
               (freshState Example.lockedScript None) Example.table Example.staging
               eq_refl eq_refl).
Defined.

(** The engine refuses the first of two CREATE INDEX statements: both
    statements were announced before the refusal is reported, and the
    second one is executed all the same. *)
Lemma refused_index_is_reported_after_the_announcements :
  let i1 := "CREATE INDEX " +:+ quoted "i1" +:+ " ON " +:+ quoted "t" +:+ "(" +:+ quoted "a" +:+ ")" in
  let i2 := "CREATE INDEX " +:+ quoted "i2" +:+ " ON " +:+ quoted "t" +:+ "(" +:+ quoted "b" +:+ ")" in
  promiseAll (map (createIndex scripted) (TableSchema.indices Example.twoIndices))
             (freshState Example.firstIndexRefused None)
  = (mkState false (DatabaseConnection.mk Example.firstIndexRefused false None)
             [ LogQuery i1 []; LogQuery i2 [];
               LogFailedQuery i1 []; LogQueryError (Js.Str "index i1 already exists") ]
             ∅,
     Throw (Rejected (Js.Str "index i1 already exists"))).
Proof. reflexivity. Qed.

(** The callbacks of two tables run side by side: the three statements of
    [a], the three statements of [b], and only then the statement for the
    index of [a] and the one for the index of [b]. *)
Lemma tables_are_loaded_side_by_side :
  issued (logger (fst (loadSchemaTables scripted (Some ["a"; "b"]) plainNaming
                                        (freshState Example.twoIndexedTables None))))
  = [ Example.masterQuery;
      "PRAGMA table_info(" +:+ quoted "a" +:+ ")";
      "PRAGMA index_list(" +:+ quoted "a" +:+ ")";
      "PRAGMA foreign_key_list(" +:+ quoted "a" +:+ ")";
      "PRAGMA table_info(" +:+ quoted "b" +:+ ")";
      "PRAGMA index_list(" +:+ quoted "b" +:+ ")";
      "PRAGMA foreign_key_list(" +:+ quoted "b" +:+ ")";
      "PRAGMA index_info(" +:+ quoted "idx_a" +:+ ")";
      "PRAGMA index_info(" +:+ quoted "idx_b" +:+ ")" ]
  /\ snd (loadSchemaTables scripted (Some ["a"; "b"]) plainNaming
                           (freshState Example.twoIndexedTables None))
     = Ok [ TableSchema.mk "a" [Example.column "x" "text" false false false false]
                           [IndexSchema.mk "a" "idx_a" ["x"] false] [] [];
            TableSchema.mk "b" [Example.column "y" "text" false false false false]
                           [IndexSchema.mk "b" "idx_b" ["y"] false] [] [] ].
Proof. split; vm_compute; reflexivity. Qed.

(** A pooled connection: after [release], [query] is refused. *)
Lemma released_runner_rejects_witness :
  let st := fst (release (freshState [] (Some (Ok tt)))) in
  await (query scripted "SELECT 1" []) st = (st, Throw QueryRunnerAlreadyReleasedError).
Proof.
  exact (proj1 (proj2 (released_runner_rejects scripted plainDriver
                         (freshState [] (Some (Ok tt))) (Ok tt) eq_refl))
               "SELECT 1" []).
Defined.

(** C7 (as stated) fails: a connection without a release callback is not
    released by [release]; the call resolves and the runner goes on
    executing statements. *)
Lemma release_without_callback_keeps_running :
  let st := freshState [] None in
  let st' := fst (release st) in
  snd (release st) = Ok tt
  /\ isReleased st' = false
  /\ snd (await (query scripted "SELECT 1" []) st') = Ok (Rows [])
  /\ issued (logger (fst (await (query scripted "SELECT 1" []) st'))) = ["SELECT 1"].
Proof. repeat split; reflexivity. Qed.

(** Dropping column [b] through a reference leaves the referenced
    descriptor as it was. *)
Lemma structural_edits_work_on_a_clone_witness :
  heap (fst (dropColumns scripted 1%positive
                         [Example.column "b" "text" true false false true]
                         Example.withTable)) !! 1%positive
  = Some Example.table.
Proof.
  exact (proj1 (structural_edits_work_on_a_clone scripted Example.withTable 1%positive
                  Example.table [Example.column "b" "text" true false false true] []
                  eq_refl)).
Defined.

(** ** Catalog reader *)

(** C2: the list of names is only tested for emptiness.  Asked for the
    table [a] in a database that holds [a] and [b], [loadSchemaTables]
    returns a descriptor for [b] as well; any two non-empty lists of names
    give the same computation; an empty or missing list gives the empty
    result without a query. *)
Theorem loadSchemaTables_loads_unlisted_tables :
  (exists tables,
      snd (loadSchemaTables scripted (Some ["a"]) plainNaming
                            (freshState Example.twoTables None)) = Ok tables
      /\ map TableSchema.name tables = ["a"; "b"])
  /\ (forall (DB : Type) (executeSql : DB -> string -> list Js.Value -> DB * (Js.Value + SqlResult))
             namingStrategy name names name' names',
         loadSchemaTables executeSql (Some (name :: names)) namingStrategy
         = loadSchemaTables executeSql (Some (name' :: names')) namingStrategy)
  /\ (forall (DB : Type) (executeSql : DB -> string -> list Js.Value -> DB * (Js.Value + SqlResult))
             namingStrategy (st : State DB),
         loadSchemaTables executeSql (Some []) namingStrategy st
         = (if isReleased st then (st, Throw QueryRunnerAlreadyReleasedError) else (st, Ok []))
         /\ loadSchemaTables executeSql None namingStrategy st
            = (if isReleased st then (st, Throw QueryRunnerAlreadyReleasedError) else (st, Ok []))).
Proof.
  split; [|split].
  - eexists. split; [vm_compute; reflexivity | reflexivity].
  - reflexivity.
  - intros DB executeSql namingStrategy st.
    unfold loadSchemaTables, bind, throwIfReleased, ret.
    destruct (isReleased st); split; reflexivity.
Qed.

(** Whatever the engine, an index whose [unique] flag comes back as a
    number is loaded as not unique: the flag is compared with the string
    ["1"]. *)
Lemma loadIndex_numeric_unique
      (DB : Type) (executeSql : DB -> string -> list Js.Value -> DB * (Js.Value + SqlResult))
      (dbTable : Js.ObjectLiteral) (dbIndices : list Js.ObjectLiteral) (dbIndexName : Js.Value)
      (st st' : State DB) (columns : list Js.Value) (index : IndexSchema.t) :
  (forall dbIndex, In dbIndex dbIndices -> exists n, Js.prop dbIndex "unique" = Js.Num n) ->
  await (loadIndex executeSql dbTable dbIndices dbIndexName) st
  = (st', Ok (columns, Some index)) ->
  IndexSchema.isUnique index = false.
Proof.
  intros Hnum Hrun.
  refine (await_yields
            (fun loaded => forall columns index,
                 loaded = (columns, Some index) -> IndexSchema.isUnique index = false)
            _ st st' _ _ Hrun columns index eq_refl).
  unfold loadIndex. apply callYields_async.
  destruct (find _ dbIndices) as [dbIndex|] eqn:Efind; [|apply bodyYields_reject].
  apply find_some in Efind as [Hin _]. destruct (Hnum dbIndex Hin) as [n Hn].
  apply (bodyYields_awaiting (fun _ => True)); [apply callYields_query|]. intros indexInfos _.
  apply (bodyYields_sync (fun _ => True)); [auto|]. intros infos _.
  destruct (Js.prop dbIndex "name") as [| |b|z|name]; try apply bodyYields_reject.
  destruct (String.eqb _ "sqlite_autoindex").
  - destruct (Js.strictEq _ _); apply bodyYields_resolve; discriminate.
  - apply bodyYields_resolve. intros cs ix [= _ <-]. cbn. rewrite Hn. reflexivity.
Qed.

(** C4: the descriptor [Example.indexed] has a unique index.  Creating
    the table and the index issues the two statements below; from the
    catalog SQLite then reports, [loadSchemaTables] rebuilds the
    descriptor with the uniqueness flag of the index cleared. *)
Theorem unique_index_loaded_as_not_unique :
  issued (logger (fst (bind (createTable scripted Example.indexed)
                            (fun _ => promiseAll (map (createIndex scripted)
                                                      (TableSchema.indices Example.indexed)))
                            (freshState [] None))))
  = [ "CREATE TABLE IF NOT EXISTS " +:+ quoted "t" +:+ " (" +:+ quoted "a" +:+ " text NOT NULL)";
      "CREATE UNIQUE INDEX " +:+ quoted "idx_t_a" +:+ " ON " +:+ quoted "t"
      +:+ "(" +:+ quoted "a" +:+ ")" ]
  /\ snd (loadSchemaTables scripted (Some ["t"]) plainNaming
                           (freshState Example.indexedCatalog None))
     = Ok [TableSchema.setIndices Example.indexed [IndexSchema.mk "t" "idx_t_a" ["a"] false]].
Proof. split; vm_compute; reflexivity. Qed.

(** * Further coverage of the runner *)

(** ** Closure tables *)

Section ClosureTable.
Context {DB : Type}.
Variable executeSql : DB -> string -> list Js.Value -> DB * (Js.Value + SqlResult).
Variable driver : IonicSQLiteDriver.

(** The built-in [parseInt], applied to a value of the engine: an integer,
    or [None] for [NaN]. *)
Variable parseInt : Js.Value -> option Z.

(** [insertIntoClosureTable], lines 225-242.  The ids are spliced into the
    statement text as they are; the second statement names the table
    without escaping it. *)
Definition insertIntoClosureTable (tableName : string) (newEntityId parentId : Js.Value)
           (hasLevel : bool) : M (option Z) :=
  bind throwIfReleased (fun _ =>
  let sql :=
    if hasLevel then
      ("INSERT INTO " +:+ escapeTableName driver tableName +:+ "(ancestor, descendant, level) ")
      +:+ ("SELECT ancestor, " +:+ Js.toStr newEntityId +:+ ", level + 1 FROM "
           +:+ escapeTableName driver tableName +:+ " WHERE descendant = "
           +:+ Js.toStr parentId +:+ " ")
      +:+ ("UNION ALL SELECT " +:+ Js.toStr newEntityId +:+ ", " +:+ Js.toStr newEntityId
           +:+ ", 1")
    else
      ("INSERT INTO " +:+ escapeTableName driver tableName +:+ "(ancestor, descendant) ")
      +:+ ("SELECT ancestor, " +:+ Js.toStr newEntityId +:+ " FROM "
           +:+ escapeTableName driver tableName +:+ " WHERE descendant = "
           +:+ Js.toStr parentId +:+ " ")
      +:+ ("UNION ALL SELECT " +:+ Js.toStr newEntityId +:+ ", " +:+ Js.toStr newEntityId) in
  bind (await (query executeSql sql [])) (fun _ =>
  bind (await (query executeSql ("SELECT MAX(level) as level FROM " +:+ tableName
                          +:+ " WHERE descendant = " +:+ Js.toStr parentId) []))
       (fun results =>
          let first := match results with
                       | Rows (row :: _) => Some row
                       | _ => None
                       end in
          match first with
          | Some row =>
              if Js.truthy (Js.prop row "level")
              then ret (option_map (fun level => level + 1) (parseInt (Js.prop row "level")))
              else ret (Some 1)
          | None => ret (Some 1)
          end))).

End ClosureTable.

(** The data types [normalizeType] has a case for. *)
Definition supportedDataTypes : list string :=
  ["string"; "text"; "boolean"; "integer"; "int"; "smallint"; "bigint"; "float"; "double";
   "number"; "decimal"; "date"; "time"; "datetime"; "json"; "simple_array"].

(** ** Transactions *)

Section MoreProperties.
Context {DB : Type}.
Variable executeSql : DB -> string -> list Js.Value -> DB * (Js.Value + SqlResult).
Variable driver : IonicSQLiteDriver.

Local Abbreviation M := (@M DB).
Local Abbreviation active :=
  (fun st : State DB => DatabaseConnection.isTransactionActive (databaseConnection st)).
Local Abbreviation conn :=
  (fun st : State DB => DatabaseConnection.connection (databaseConnection st)).

(** What a statement does to a runner that is not released. *)
Lemma query_unreleased (q : string) (ps : list Js.Value) (st : State DB) :
  isReleased st = false ->
  await (query executeSql q ps) st
  = match executeSql (conn st) q ps with
    | (db, inr result) =>
        (mkState false (DatabaseConnection.mk db (active st)
                          (DatabaseConnection.releaseCallback (databaseConnection st)))
                 (logger st ++ [LogQuery q ps]) (heap st),
         Ok (match rows result with Some l => Rows l | None => Raw result end))
    | (db, inl error) =>
        (mkState false (DatabaseConnection.mk db (active st)
                          (DatabaseConnection.releaseCallback (databaseConnection st)))
                 (logger st ++ failure q ps error) (heap st),
         Throw (Rejected error))
    end.
Proof.
  intros Hrel. rewrite await_query, Hrel. cbn [log logger databaseConnection].
  destruct (executeSql _ q ps) as [db [error|result]];
    unfold log, setConnection, failure; cbn; rewrite Hrel, <- ?app_assoc; reflexivity.
Qed.

Lemma beginTransaction_run (st : State DB) :
  isReleased st = false ->
  active st = false ->
  beginTransaction executeSql st
  = match executeSql (conn st) "BEGIN TRANSACTION" [] with
    | (db, inr _) =>
        (mkState false (DatabaseConnection.mk db true
                          (DatabaseConnection.releaseCallback (databaseConnection st)))
                 (logger st ++ [LogQuery "BEGIN TRANSACTION" []]) (heap st),
         Ok tt)
    | (db, inl error) =>
        (mkState false (DatabaseConnection.mk db true
                          (DatabaseConnection.releaseCallback (databaseConnection st)))
                 (logger st ++ failure "BEGIN TRANSACTION" [] error) (heap st),
         Throw (Rejected error))
    end.
Proof.
  intros Hrel Hact.
  unfold beginTransaction, bind, throwIfReleased. rewrite Hrel.
  unfold isTransactionActive. rewrite Hact. unfold setTransactionActive.
  rewrite query_unreleased by exact Hrel.
  cbn [databaseConnection DatabaseConnection.connection isReleased logger heap
       DatabaseConnection.isTransactionActive DatabaseConnection.releaseCallback].
  destruct (executeSql (conn st) "BEGIN TRANSACTION" []) as [db [error|result]]; reflexivity.
Qed.

(** X1: [beginTransaction] sets the flag before it executes BEGIN
    TRANSACTION: started on a runner that is neither released nor in a
    transaction, it issues that one statement and leaves the flag set
    whether the engine accepts the statement or rejects it; in the latter
    case the caller gets the engine's error, and in both cases a second
    [beginTransaction] fails with the already-started error without
    touching the state. *)
Theorem beginTransaction_sets_flag_first (st : State DB) :
  isReleased st = false ->
  active st = false ->
  let st' := fst (beginTransaction executeSql st) in
  active st' = true
  /\ issued (logger st') = (issued (logger st) ++ ["BEGIN TRANSACTION"])%list
  /\ snd (beginTransaction executeSql st)
     = match snd (executeSql (conn st) "BEGIN TRANSACTION" []) with
       | inr _ => Ok tt
       | inl error => Throw (Rejected error)
       end
  /\ beginTransaction executeSql st' = (st', Throw TransactionAlreadyStartedError).
Proof.
  intros Hrel Hact st'. subst st'. rewrite (beginTransaction_run st Hrel Hact).
  destruct (executeSql (conn st) "BEGIN TRANSACTION" []) as [db [error|result]];
    cbn [fst snd]; unfold failure; cbn [logger]; rewrite issued_app;
    repeat split; reflexivity.
Qed.

Lemma commitTransaction_run (st : State DB) :
  isReleased st = false ->
  commitTransaction executeSql st
  = if active st then
      match executeSql (conn st) "COMMIT" [] with
      | (db, inr _) =>
          (mkState false (DatabaseConnection.mk db false
                            (DatabaseConnection.releaseCallback (databaseConnection st)))
                   (logger st ++ [LogQuery "COMMIT" []]) (heap st),
           Ok tt)
      | (db, inl error) =>
          (mkState false (DatabaseConnection.mk db true
                            (DatabaseConnection.releaseCallback (databaseConnection st)))
                   (logger st ++ failure "COMMIT" [] error) (heap st),
           Throw (Rejected error))
      end
    else (st, Throw TransactionNotStartedError).
Proof.
  intros Hrel.
  unfold commitTransaction, bind, throwIfReleased. rewrite Hrel.
  unfold isTransactionActive. destruct (active st) eqn:Hact; [|reflexivity].
  cbn [negb]. rewrite query_unreleased by exact Hrel. rewrite Hact.
  destruct (executeSql (conn st) "COMMIT" []) as [db [error|result]]; reflexivity.
Qed.

Lemma rollbackTransaction_run (st : State DB) :
  isReleased st = false ->
  rollbackTransaction executeSql st
  = if active st then
      match executeSql (conn st) "ROLLBACK" [] with
      | (db, inr _) =>
          (mkState false (DatabaseConnection.mk db false
                            (DatabaseConnection.releaseCallback (databaseConnection st)))
                   (logger st ++ [LogQuery "ROLLBACK" []]) (heap st),
           Ok tt)
      | (db, inl error) =>
          (mkState false (DatabaseConnection.mk db true
                            (DatabaseConnection.releaseCallback (databaseConnection st)))
                   (logger st ++ failure "ROLLBACK" [] error) (heap st),
           Throw (Rejected error))
      end
    else (st, Throw TransactionNotStartedError).
Proof.
  intros Hrel.
  unfold rollbackTransaction, bind, throwIfReleased. rewrite Hrel.
  unfold isTransactionActive. destruct (active st) eqn:Hact; [|reflexivity].
  cbn [negb]. rewrite query_unreleased by exact Hrel. rewrite Hact.
  destruct (executeSql (conn st) "ROLLBACK" []) as [db [error|result]]; reflexivity.
Qed.

(** X2: [commitTransaction] and [rollbackTransaction] on a runner that is
    not released.  Outside a transaction they fail with the not-started
    error and touch nothing.  Inside a transaction they issue their one
    statement; the flag is cleared only once the engine has accepted the
    statement, and when the engine rejects it the caller gets the engine's
    error and the runner stays in the transaction. *)
Theorem commit_and_rollback_outcome (st : State DB) :
  isReleased st = false ->
  let outcome := fun (m : M unit) (statement : string) =>
    if active st then
      issued (logger (fst (m st))) = (issued (logger st) ++ [statement])%list
      /\ match snd (executeSql (conn st) statement []) with
         | inr _ => snd (m st) = Ok tt /\ active (fst (m st)) = false
         | inl error => snd (m st) = Throw (Rejected error) /\ active (fst (m st)) = true
         end
    else m st = (st, Throw TransactionNotStartedError) in
  outcome (commitTransaction executeSql) "COMMIT"
  /\ outcome (rollbackTransaction executeSql) "ROLLBACK".
Proof.
  intros Hrel outcome. subst outcome. cbv beta.
  rewrite (commitTransaction_run st Hrel), (rollbackTransaction_run st Hrel).
  destruct (active st); [|split; reflexivity].
  split.
  - destruct (executeSql (conn st) "COMMIT" []) as [db [error|result]];
      cbn [fst snd]; unfold failure; cbn [logger]; rewrite issued_app;
      repeat split; reflexivity.
  - destruct (executeSql (conn st) "ROLLBACK" []) as [db [error|result]];
      cbn [fst snd]; unfold failure; cbn [logger]; rewrite issued_app;
      repeat split; reflexivity.
Qed.

(** X3: a transaction that the engine accepts, from [beginTransaction] to
    [commitTransaction] or [rollbackTransaction], issues BEGIN TRANSACTION
    and then COMMIT (or ROLLBACK), resolves, and leaves the runner outside
    a transaction, ready for the next one. *)
Theorem transaction_round_trip (st : State DB) (commit : bool)
        (db1 db2 : DB) (result1 result2 : SqlResult) :
  let closing := if commit then "COMMIT" else "ROLLBACK" in
  let finish := if commit then commitTransaction executeSql
                else rollbackTransaction executeSql in
  isReleased st = false ->
  active st = false ->
  executeSql (conn st) "BEGIN TRANSACTION" [] = (db1, inr result1) ->
  executeSql db1 closing [] = (db2, inr result2) ->
  bind (beginTransaction executeSql) (fun _ => finish) st
  = (mkState false (DatabaseConnection.mk db2 false
                      (DatabaseConnection.releaseCallback (databaseConnection st)))
             (logger st ++ [LogQuery "BEGIN TRANSACTION" []; LogQuery closing []])
             (heap st),
     Ok tt).
Proof.
  intros closing finish Hrel Hact Hbegin Hclose. subst closing finish.
  unfold bind. rewrite (beginTransaction_run st Hrel Hact), Hbegin.
  destruct commit.
  - rewrite commitTransaction_run by reflexivity.
    cbn [databaseConnection DatabaseConnection.connection
         DatabaseConnection.isTransactionActive]. rewrite Hclose.
    cbn [logger heap databaseConnection DatabaseConnection.releaseCallback].
    now rewrite <- app_assoc.
  - rewrite rollbackTransaction_run by reflexivity.
    cbn [databaseConnection DatabaseConnection.connection
         DatabaseConnection.isTransactionActive]. rewrite Hclose.
    cbn [logger heap databaseConnection DatabaseConnection.releaseCallback].
    now rewrite <- app_assoc.
Qed.

(** ** Parameters and the CRUD statements *)

Lemma mapIndexed_nth {A B} (f : A -> Z -> B) (xs : list A) (index : Z) (k : nat) :
  nth_error (mapIndexed f index xs) k
  = option_map (fun x => f x (index + Z.of_nat k)) (nth_error xs k).
Proof.
  revert index k. induction xs as [|x xs IH]; intros index k.
  - destruct k; reflexivity.
  - destruct k as [|k]; cbn [mapIndexed nth_error option_map].
    + f_equal. f_equal. lia.
    + rewrite IH. destruct (nth_error xs k); cbn [option_map]; [|reflexivity].
      f_equal. f_equal. lia.
Qed.

Lemma mapIndexed_length {A B} (f : A -> Z -> B) (xs : list A) (index : Z) :
  List.length (mapIndexed f index xs) = List.length xs.
Proof.
  revert index. induction xs as [|x xs IH]; intros index; cbn [mapIndexed List.length];
    [reflexivity | now rewrite IH].
Qed.

Lemma mapIndexed_counter {A B} (g : Z -> B) (xs : list A) (n : nat) :
  mapIndexed (fun _ index => g (index + 1)) (Z.of_nat n) xs
  = map (fun k => g (Z.of_nat k)) (seq (S n) (List.length xs)).
Proof.
  revert n. induction xs as [|x xs IH]; intros n; cbn [mapIndexed List.length seq map];
    [reflexivity|].
  replace (Z.of_nat n + 1) with (Z.of_nat (S n)) by lia. now rewrite IH.
Qed.

(** Reading the properties of an object in the order of its keys gives
    its values in that order. *)
Lemma values_in_key_order (o : Js.ObjectLiteral) :
  NoDup (Js.keys o) -> map (fun key => Js.prop o key) (Js.keys o) = map snd o.
Proof.
  induction o as [|[k v] o IH]; intros Hnd; [reflexivity|].
  cbn [Js.keys map fst snd] in *. apply NoDup_cons in Hnd as [Hk Hnd].
  cbn [Js.prop]. rewrite String.eqb_refl. f_equal.
  rewrite <- (IH Hnd). apply map_ext_in. intros key Hkey.
  destruct (String.eqb_spec key k) as [->|_]; [|reflexivity].
  exfalso. apply Hk. now apply list_elem_of_In.
Qed.

(** X4: [parametrize] yields one fragment per key of the object, in key
    order; the fragment at position [k] (from 0) is the escaped key, then
    [=$], then the number [startIndex + k + 1]. *)
Theorem parametrize_numbering (objectLiteral : Js.ObjectLiteral) (startIndex : Z) :
  List.length (parametrize driver objectLiteral startIndex) = List.length objectLiteral
  /\ forall k : nat,
      nth_error (parametrize driver objectLiteral startIndex) k
      = match nth_error (Js.keys objectLiteral) k with
        | Some key => Some (escapeColumnName driver key +:+ "=$"
                            +:+ Js.numToString (startIndex + Z.of_nat k + 1))
        | None => None
        end.
Proof.
  unfold parametrize. split.
  - rewrite mapIndexed_length. unfold Js.keys. apply List.length_map.
  - intros k. rewrite mapIndexed_nth.
    destruct (nth_error (Js.keys objectLiteral) k); cbn [option_map]; [|reflexivity].
    reflexivity.
Qed.

(** X5: [insert] on a runner that is not released, for an object with
    distinct keys: the statement lists the escaped keys and as many
    placeholders [$1], ..., [$n]; its parameters are the object's values in
    key order; it is executed once.  When the engine accepts it, the call
    resolves with the id of the inserted row if a generated column was
    passed and with [undefined] otherwise. *)
Theorem insert_statement (st : State DB) (tableName : string) (keyValues : Js.ObjectLiteral)
        (generatedColumn : bool) :
  isReleased st = false ->
  NoDup (Js.keys keyValues) ->
  let sql :=
    "INSERT INTO " +:+ escapeTableName driver tableName
    +:+ "(" +:+ Js.join ", " (map (escapeColumnName driver) (Js.keys keyValues))
    +:+ ") VALUES ("
    +:+ Js.join "," (map (fun k => "$" +:+ Js.numToString (Z.of_nat k))
                         (seq 1 (List.length keyValues)))
    +:+ ")" in
  let parameters := map snd keyValues in
  insert executeSql driver tableName keyValues generatedColumn st
  = match executeSql (conn st) sql parameters with
    | (db, inr result) =>
        (mkState false (DatabaseConnection.mk db (active st)
                          (DatabaseConnection.releaseCallback (databaseConnection st)))
                 (logger st ++ [LogQuery sql parameters]) (heap st),
         Ok (if generatedColumn then insertId result else Js.Undefined))
    | (db, inl error) =>
        (mkState false (DatabaseConnection.mk db (active st)
                          (DatabaseConnection.releaseCallback (databaseConnection st)))
                 (logger st ++ failure sql parameters error) (heap st),
         Throw (Rejected error))
    end.
Proof.
  intros Hrel Hnd sql parameters. unfold insert. rewrite Hrel.
  rewrite (values_in_key_order keyValues Hnd).
  pose proof (mapIndexed_counter (fun index => "$" +:+ Js.numToString index)
                (Js.keys keyValues) 0) as Hcount.
  change (Z.of_nat 0) with 0 in Hcount. rewrite Hcount. clear Hcount.
  replace (List.length (Js.keys keyValues)) with (List.length keyValues)
    by (unfold Js.keys; now rewrite List.length_map).
  fold sql. fold parameters.
  cbn [log logger databaseConnection].
  destruct (executeSql _ sql parameters) as [db [error|result]];
    unfold log, setConnection, failure; cbn; rewrite Hrel, <- ?app_assoc; reflexivity.
Qed.

Lemma append_char_nonempty (a b : string) (c : ascii) :
  String.eqb (a +:+ String c b) EmptyString = false.
Proof. destruct a; reflexivity. Qed.

Lemma join_nonempty (sep x : string) (xs : list string) :
  String.eqb x EmptyString = false -> String.eqb (Js.join sep (x :: xs)) EmptyString = false.
Proof.
  intros Hx. destruct xs as [|y ys]; cbn [Js.join]; [exact Hx|].
  destruct x as [|c x]; [discriminate | reflexivity].
Qed.

(** X6: [update] and [delete] on a runner that is not released, for
    objects with distinct keys, execute one statement each.  The parameters
    are the new values followed by the condition values, in key order, and
    the placeholders of the conditions go on counting where those of the
    values stop.  [update] leaves the WHERE clause out when there is no
    condition; [delete] always writes WHERE, followed by nothing when there
    is no condition. *)
Theorem update_and_delete_statements
        (tableName : string) (valuesMap conditions : Js.ObjectLiteral) :
  NoDup (Js.keys valuesMap) ->
  NoDup (Js.keys conditions) ->
  let updateSql :=
    "UPDATE " +:+ escapeTableName driver tableName +:+ " SET "
    +:+ Js.join ", " (parametrize driver valuesMap 0) +:+ " "
    +:+ match conditions with
        | [] => EmptyString
        | _ => " WHERE "
               +:+ Js.join " AND "
                     (parametrize driver conditions (Z.of_nat (List.length valuesMap)))
        end in
  let deleteSql :=
    "DELETE FROM " +:+ quoted tableName +:+ " WHERE "
    +:+ match conditions with
        | [] => EmptyString
        | _ => Js.join " AND " (parametrize driver conditions 0)
        end in
  update executeSql driver tableName valuesMap conditions
  = bind throwIfReleased
      (fun _ => bind (await (query executeSql updateSql (map snd valuesMap ++ map snd conditions)))
                     (fun _ => ret tt))
  /\ delete executeSql driver tableName conditions
     = bind throwIfReleased
         (fun _ => bind (await (query executeSql deleteSql (map snd conditions))) (fun _ => ret tt)).
Proof.
  intros Hvalues Hconditions updateSql deleteSql.
  unfold update, delete.
  rewrite (values_in_key_order valuesMap Hvalues), (values_in_key_order conditions Hconditions).
  replace (List.length (Js.keys valuesMap)) with (List.length valuesMap)
    by (unfold Js.keys; now rewrite List.length_map).
  split.
  - f_equal. subst updateSql. destruct conditions as [|[key value] rest]; [reflexivity|].
    cbn [Js.truthy].
    assert (E : String.eqb
                  (Js.join " AND " (parametrize driver ((key, value) :: rest)
                                                (Z.of_nat (List.length valuesMap))))
                  EmptyString = false).
    { unfold parametrize. cbn [Js.keys map fst mapIndexed]. apply join_nonempty.
      apply append_char_nonempty. }
    rewrite E. reflexivity.
  - subst deleteSql. destruct conditions as [|[key value] rest]; reflexivity.
Qed.

(** ** Data types *)

(** The cases of [normalizeType]. *)
Lemma normalizeType_cases (column : ColumnMetadata.t) :
  match normalizeType column with
  | Ok _ => Js.includes supportedDataTypes (ColumnMetadata.normalizedDataType column) = true
  | Throw e =>
      Js.includes supportedDataTypes (ColumnMetadata.normalizedDataType column) = false
      /\ e = DataTypeNotSupportedByDriverError (ColumnMetadata.type column) "SQLite"
  end.
Proof.
  unfold normalizeType, Js.includes, supportedDataTypes. cbn [existsb].
  set (dt := ColumnMetadata.normalizedDataType column).
  destruct (String.eqb dt "string"); [reflexivity|].
  destruct (String.eqb dt "text"); [reflexivity|].
  destruct (String.eqb dt "boolean"); [reflexivity|].
  destruct (String.eqb dt "integer"); [reflexivity|].
  destruct (String.eqb dt "int"); [reflexivity|].
  destruct (String.eqb dt "smallint"); [reflexivity|].
  destruct (String.eqb dt "bigint"); [reflexivity|].
  destruct (String.eqb dt "float"); [reflexivity|].
  destruct (String.eqb dt "double"); [reflexivity|].
  destruct (String.eqb dt "number"); [reflexivity|].
  destruct (String.eqb dt "decimal").
  { destruct (Js.truthy _ && Js.truthy _); [reflexivity|].
    destruct (Js.truthy (ColumnMetadata.scale column)); [reflexivity|].
    destruct (Js.truthy (ColumnMetadata.precision column)); reflexivity. }
  destruct (String.eqb dt "date"); [reflexivity|].
  destruct (String.eqb dt "time").
  { destruct (Js.truthy _); reflexivity. }
  destruct (String.eqb dt "datetime").
  { destruct (Js.truthy _); reflexivity. }
  destruct (String.eqb dt "json"); [reflexivity|].
  destruct (String.eqb dt "simple_array"); [reflexivity|].
  split; reflexivity.
Qed.

(** X7: [normalizeType] maps a column exactly when its normalized data
    type is one of the sixteen it has a case for; for any other type it
    throws the not-supported error, which carries the column's declared
    type and the driver name SQLite. *)
Theorem normalizeType_supported (column : ColumnMetadata.t) :
  match normalizeType column with
  | Ok _ => Js.includes supportedDataTypes (ColumnMetadata.normalizedDataType column) = true
  | Throw e =>
      Js.includes supportedDataTypes (ColumnMetadata.normalizedDataType column) = false
      /\ e = DataTypeNotSupportedByDriverError (ColumnMetadata.type column) "SQLite"
  end.
Proof.
  unfold normalizeType, Js.includes, supportedDataTypes. cbn [existsb].
  set (dt := ColumnMetadata.normalizedDataType column).
  destruct (String.eqb dt "string"); [reflexivity|].
  destruct (String.eqb dt "text"); [reflexivity|].
  destruct (String.eqb dt "boolean"); [reflexivity|].
  destruct (String.eqb dt "integer"); [reflexivity|].
  destruct (String.eqb dt "int"); [reflexivity|].
  destruct (String.eqb dt "smallint"); [reflexivity|].
  destruct (String.eqb dt "bigint"); [reflexivity|].
  destruct (String.eqb dt "float"); [reflexivity|].
  destruct (String.eqb dt "double"); [reflexivity|].
  destruct (String.eqb dt "number"); [reflexivity|].
  destruct (String.eqb dt "decimal").
  { destruct (Js.truthy _ && Js.truthy _); [reflexivity|].
    destruct (Js.truthy (ColumnMetadata.scale column)); [reflexivity|].
    destruct (Js.truthy (ColumnMetadata.precision column)); reflexivity. }
  destruct (String.eqb dt "date"); [reflexivity|].
  destruct (String.eqb dt "time").
  { destruct (Js.truthy _); reflexivity. }
  destruct (String.eqb dt "datetime").
  { destruct (Js.truthy _); reflexivity. }
  destruct (String.eqb dt "json"); [reflexivity|].
  destruct (String.eqb dt "simple_array"); [reflexivity|].
  split; reflexivity.
Qed.

Lemma mapResult_first_throw {A B} (f : A -> Result B) (xs : list A) (x : A) (e : Error) :
  In x xs -> f x = Throw e -> exists e', mapResult f xs = Throw e'.
Proof.
  induction xs as [|y ys IH]; intros Hin Hx; [destruct Hin|].
  cbn [mapResult]. destruct (f y) as [b|e1] eqn:Ey; [|eauto].
  destruct Hin as [->|Hin]; [congruence|].
  destruct (IH Hin Hx) as [e' ->]. eauto.
Qed.

Lemma mapResult_all_ok {A B} (f : A -> Result B) (xs : list A) :
  (forall x, In x xs -> exists y, f x = Ok y) -> exists ys, mapResult f xs = Ok ys.
Proof.
  induction xs as [|x xs IH]; intros Hall; [cbn; eauto|].
  cbn [mapResult]. destruct (Hall x (or_introl eq_refl)) as [y ->].
  destruct IH as [ys ->]; [|eauto]. intros x' Hx'. apply Hall. now right.
Qed.

(** X8: a table one of whose columns carries metadata of a data type
    [normalizeType] has no case for cannot be created or recreated:
    [createTable] and [recreateTable], on a runner that is not released,
    reject with the not-supported error before any statement is logged or
    executed. *)
Theorem unsupported_type_stops_before_any_statement
        (st : State DB) (table : TableSchema.t) (column : ColumnSchema.t)
        (metadata : ColumnMetadata.t) :
  isReleased st = false ->
  In column (TableSchema.columns table) ->
  ColumnSchema.metadata column = Some metadata ->
  Js.includes supportedDataTypes (ColumnMetadata.normalizedDataType metadata) = false ->
  exists type,
    createTable executeSql table st
    = (st, Throw (DataTypeNotSupportedByDriverError type "SQLite"))
    /\ recreateTable executeSql table st
       = (st, Throw (DataTypeNotSupportedByDriverError type "SQLite")).
Proof.
  intros Hrel Hin Hmeta Hunsupported.
  assert (Hcol : exists e, buildCreateColumnSql column = Throw e).
  { unfold buildCreateColumnSql. rewrite Hmeta.
    pose proof (normalizeType_cases metadata) as Hn.
    destruct (normalizeType metadata) as [ty|e]; [congruence | eauto]. }
  destruct Hcol as [e He].
  destruct (mapResult_first_throw _ _ _ _ Hin He) as [e' Hmap].
  pose proof Hmap as Hwhich. apply mapResult_throw in Hwhich as (c & Hc & Hce).
  assert (Htype : exists type, e' = DataTypeNotSupportedByDriverError type "SQLite").
  { unfold buildCreateColumnSql in Hce. destruct (ColumnSchema.metadata c) as [m|]; [|discriminate].
    pose proof (normalizeType_cases m) as Hn.
    destruct (normalizeType m) as [ty|e1]; [discriminate|].
    destruct Hn as [_ ->]. injection Hce as <-. eauto. }
  destruct Htype as [type ->]. exists type.
  unfold createTable, recreateTable, createTableSql, recreateTableSql1.
  rewrite Hmap. unfold bind, throwIfReleased, liftResult. rewrite Hrel. split; reflexivity.
Qed.

(** A table whose columns all carry a raw declared type always renders:
    both CREATE TABLE statements exist. *)
Lemma raw_columns_render (table : TableSchema.t) :
  (forall column, In column (TableSchema.columns table) -> ColumnSchema.metadata column = None) ->
  exists sql sql1, createTableSql table = Ok sql /\ recreateTableSql1 table = Ok sql1.
Proof.
  intros Hraw.
  destruct (mapResult_all_ok buildCreateColumnSql (TableSchema.columns table)) as [defs Hdefs].
  { intros column Hin. unfold buildCreateColumnSql. rewrite (Hraw column Hin). eauto. }
  unfold createTableSql, recreateTableSql1. rewrite Hdefs. eauto.
Qed.

(** ** Statement sequences *)

(** [issues m ss]: on a runner that is not released, [m] announces
    exactly the statements [ss], whatever its outcome. *)
Definition issues {A} (m : M A) (ss : list string) : Prop :=
  runs m (fun l _ => issued l = ss).

Lemma issues_query (q : string) (ps : list Js.Value) : issues (await (query executeSql q ps)) [q].
Proof.
  eapply runs_weaken; [apply runs_query|].
  intros l r [[-> _] | (error & -> & _)]; reflexivity.
Qed.

Lemma issues_statements {A} (calls : list (M (Promise A))) (qs : list string) :
  Forall2 (statementCall executeSql) calls qs -> issues (promiseAll calls) qs.
Proof.
  intros Hcalls st st' r Hrel Hrun.
  destruct (promiseAll_statements executeSql calls qs st Hcalls Hrel) as (r' & Heq & _).
  rewrite Heq in Hrun. injection Hrun as <- <-. cbn. repeat split; auto.
  eexists. split; [reflexivity|].
  now rewrite issued_app, issued_announcements, reports_not_announced, app_nil_r.
Qed.

Lemma issues_promiseAll {A B} (f : B -> M (Promise A)) (g : B -> string) (xs : list B) :
  (forall x, statementCall executeSql (f x) (g x)) -> issues (promiseAll (map f xs)) (map g xs).
Proof. intros Hf. now apply issues_statements, statementCalls_map. Qed.

(** X9: [clearDatabase] on a runner that is not released, once the
    engine has answered the query for the DROP statements: every statement
    of the answer is issued, in the order of the answer, whether or not an
    earlier one is rejected.  When the answer has no row list, the call
    fails with a type error after that one query. *)
Theorem clearDatabase_issues_every_drop (st : State DB) (db : DB) (result : SqlResult) :
  let selectDropsQuery :=
    "select 'drop table ' || name || ';' as query from sqlite_master where type = 'table' and name != 'sqlite_sequence'" in
  isReleased st = false ->
  executeSql (conn st) selectDropsQuery [] = (db, inr result) ->
  match rows result with
  | Some dropQueries =>
      issued (logger (fst (clearDatabase executeSql st)))
      = (issued (logger st)
         ++ selectDropsQuery :: map (fun q => Js.toStr (Js.prop q "query")) dropQueries)%list
  | None =>
      snd (clearDatabase executeSql st) = Throw TypeError
      /\ issued (logger (fst (clearDatabase executeSql st)))
         = (issued (logger st) ++ [selectDropsQuery])%list
  end.
Proof.
  intros selectDropsQuery Hrel Hexec.
  set (st1 := mkState false
                (DatabaseConnection.mk db (active st)
                   (DatabaseConnection.releaseCallback (databaseConnection st)))
                (logger st ++ [LogQuery selectDropsQuery []]) (heap st)).
  assert (Hrun : clearDatabase executeSql st
                 = bind (asArray (match rows result with
                                  | Some l => Rows l
                                  | None => Raw result
                                  end))
                     (fun dropQueries =>
                        bind (promiseAll
                                (map (fun q => query executeSql (Js.toStr (Js.prop q "query")) [])
                                     dropQueries))
                             (fun _ => ret tt)) st1).
  { unfold clearDatabase. fold selectDropsQuery.
    unfold bind at 1, throwIfReleased. rewrite Hrel.
    unfold bind at 1. rewrite query_unreleased by exact Hrel. rewrite Hexec. reflexivity. }
  rewrite Hrun. clear Hrun.
  assert (Hrel1 : isReleased st1 = false) by reflexivity.
  assert (Hlog1 : issued (logger st1) = (issued (logger st) ++ [selectDropsQuery])%list)
    by (unfold st1; cbn [logger]; now rewrite issued_app).
  destruct (rows result) as [dropQueries|].
  - unfold bind, asArray, ret.
    destruct (promiseAll _ st1) as [st2 r2] eqn:Eall.
    destruct (issues_promiseAll
                (fun q => query executeSql (Js.toStr (Js.prop q "query")) [])
                (fun q => Js.toStr (Js.prop q "query")) dropQueries
                (fun q => query_statementCall executeSql _) st1 st2 r2 Hrel1 Eall)
      as (_ & _ & l & Hl & Hiss).
    assert (Elog : forall x : State DB * Result unit,
               x = (match r2 with Ok _ => (st2, Ok tt) | Throw e => (st2, Throw e) end) ->
               logger (fst x) = logger st2)
      by (intros x ->; destruct r2; reflexivity).
    rewrite (Elog _ eq_refl), Hl, issued_app, Hlog1, Hiss, <- app_assoc. reflexivity.
  - unfold bind, asArray, throw. cbn [fst snd]. split; [reflexivity | exact Hlog1].
Qed.

(** X10: the rebuild step of [recreateTable], on a runner that is not
    released, issues one CREATE INDEX statement for every index of the
    descriptor, in the order of the descriptor, whether or not an earlier
    one is rejected. *)
Theorem rebuild_issues_every_index (st : State DB) (tableSchema : TableSchema.t) :
  isReleased st = false ->
  issued (logger (fst (promiseAll (map (createIndex executeSql)
                                       (TableSchema.indices tableSchema)) st)))
  = (issued (logger st) ++ map createIndexSql (TableSchema.indices tableSchema))%list.
Proof.
  intros Hrel.
  destruct (promiseAll _ st) as [st' r] eqn:Erun.
  destruct (issues_promiseAll (createIndex executeSql) createIndexSql
              (TableSchema.indices tableSchema) (createIndex_statementCall executeSql)
              st st' r Hrel Erun)
    as (_ & _ & l & Hl & Hiss).
  cbn [fst]. now rewrite Hl, issued_app, Hiss.
Qed.

Lemma sequentially_accepted (db db' : DB) (qs : list string) (entries : list LogEntry) :
  sequentially executeSql db qs = (db', entries, None) ->
  entries = map (fun q => LogQuery q []) qs.
Proof.
  revert db entries. induction qs as [|q qs IH]; intros db entries; cbn [sequentially map].
  - now intros [= _ <-].
  - destruct (executeSql db q []) as [db1 [error|result]]; [discriminate|].
    destruct (sequentially executeSql db1 qs) as [[db2 entries'] rejection] eqn:E.
    intros [= -> <- ->]. f_equal. eapply IH, E.
Qed.

(** X11: a recreation that resolves, on a runner that is not released,
    has had its staging statement and its probe accepted by the engine, and
    has issued exactly: the staging statement, the probe, the data copy
    built from the first row of what the engine answered to the probe if
    that answer had a row, DROP TABLE, ALTER TABLE ... RENAME TO, and one
    CREATE INDEX per index of the target descriptor, in the order of the
    descriptor. *)
Theorem recreateTable_success_sequence (st : State DB) (tableSchema : TableSchema.t) :
  isReleased st = false ->
  snd (recreateTable executeSql tableSchema st) = Ok tt ->
  exists sql1 db1 result1 db2 result2,
    recreateTableSql1 tableSchema = Ok sql1
    /\ executeSql (conn st) sql1 [] = (db1, inr result1)
    /\ executeSql db1 ("SELECT * FROM " +:+ quoted (TableSchema.name tableSchema)) []
       = (db2, inr result2)
    /\ issued (logger (fst (recreateTable executeSql tableSchema st)))
       = (issued (logger st)
          ++ [sql1; "SELECT * FROM " +:+ quoted (TableSchema.name tableSchema)]
          ++ match rows result2 with
             | Some (firstRow :: _) => [recreateTableSql2 tableSchema firstRow]
             | _ => []
             end
          ++ ["DROP TABLE " +:+ quoted (TableSchema.name tableSchema);
              "ALTER TABLE " +:+ quoted ("temporary_" +:+ TableSchema.name tableSchema)
              +:+ " RENAME TO " +:+ quoted (TableSchema.name tableSchema)]
          ++ map createIndexSql (TableSchema.indices tableSchema))%list.
Proof.
  intros Hrel Hok.
  destruct (recreateTableSql1 tableSchema) as [sql1|e] eqn:Hsql1.
  2:{ rewrite recreateTable_steps, Hsql1 in Hok. discriminate. }
  pose proof (recreateTable_run executeSql st tableSchema sql1 Hrel Hsql1) as Hrun.
  cbv zeta in Hrun. rewrite Hrun in Hok |- *. clear Hrun.
  destruct (executeSql (conn st) sql1 []) as [db1 [e1|result1]] eqn:E1.
  { unfold recreateSteps in Hok. cbn [app sequentially] in Hok. rewrite E1 in Hok.
    discriminate. }
  cbn [fst] in Hok |- *.
  destruct (executeSql db1 ("SELECT * FROM " +:+ quoted (TableSchema.name tableSchema)) [])
    as [db2 [e2|result2]] eqn:E2.
  { unfold recreateSteps in Hok. cbn [app sequentially snd] in Hok. rewrite E1, E2 in Hok.
    discriminate. }
  cbn [snd] in Hok |- *.
  exists sql1, db1, result1, db2, result2.
  split; [reflexivity|]. split; [exact E1|]. split; [exact E2|].
  destruct (sequentially executeSql (conn st) _) as [[db entries] [error|]] eqn:Eseq;
    [discriminate|].
  apply sequentially_accepted in Eseq. subst entries. cbn [fst afterwards logger].
  rewrite !issued_app, !issued_announcements, reports_not_announced, app_nil_r.
  unfold recreateSteps. rewrite <- !app_assoc. reflexivity.
Qed.

(** ** Helpers of the catalog reader *)

Lemma strictEq_eq (a b : Js.Value) : Js.strictEq a b = true <-> a = b.
Proof.
  destruct a, b; cbn; split; intros H; try discriminate; try reflexivity.
  - f_equal. now apply Bool.eqb_prop.
  - injection H as ->. apply Bool.eqb_reflx.
  - f_equal. now apply Z.eqb_eq.
  - injection H as ->. apply Z.eqb_refl.
  - f_equal. now apply String.eqb_eq.
  - injection H as ->. apply String.eqb_refl.
Qed.

Lemma strictEq_refl (a : Js.Value) : Js.strictEq a a = true.
Proof. now apply strictEq_eq. Qed.

Lemma seen_In (x : Js.Value) (seen : list Js.Value) :
  existsb (Js.strictEq x) seen = true <-> In x seen.
Proof.
  rewrite existsb_exists. split.
  - intros (y & Hy & E). apply strictEq_eq in E. now subst.
  - intros H. exists x. split; [exact H | apply strictEq_refl].
Qed.

Lemma arrayIndexOf_range (xs : list Js.Value) (v : Js.Value) :
  arrayIndexOf xs v = -1 \/ 0 <= arrayIndexOf xs v < Z.of_nat (List.length xs).
Proof.
  induction xs as [|x xs IH]; [now left|].
  cbn [arrayIndexOf List.length]. destruct (Js.strictEq x v); [right; lia|].
  destruct IH as [->|IH]; [now left|].
  destruct (arrayIndexOf xs v <? 0) eqn:E; [now left | right; lia].
Qed.

(** The position of a value that follows [seen]: where it stands if it
    is new, an earlier position if it was seen. *)
Lemma arrayIndexOf_after (seen rest : list Js.Value) (v : Js.Value) :
  (arrayIndexOf (seen ++ v :: rest) v =? Z.of_nat (List.length seen))
  = negb (existsb (Js.strictEq v) seen).
Proof.
  induction seen as [|x seen IH].
  - cbn [app arrayIndexOf existsb List.length negb]. now rewrite strictEq_refl.
  - cbn [app arrayIndexOf existsb List.length].
    destruct (Js.strictEq x v) eqn:E.
    + apply strictEq_eq in E. subst x. rewrite strictEq_refl. cbn [orb negb].
      apply Z.eqb_neq. lia.
    + assert (E' : Js.strictEq v x = false).
      { destruct (Js.strictEq v x) eqn:E'; [|reflexivity].
        apply strictEq_eq in E'. subst. now rewrite strictEq_refl in E. }
      rewrite E'. cbn [orb]. rewrite <- IH.
      pose proof (arrayIndexOf_range (seen ++ v :: rest) v) as Hr.
      destruct (arrayIndexOf (seen ++ v :: rest) v <? 0) eqn:L;
        [apply Z.ltb_lt in L | apply Z.ltb_ge in L];
        repeat match goal with
               | |- context [?a =? ?b] => destruct (Z.eqb_spec a b)
               end; try reflexivity; lia.
Qed.

(** The values of [rest] that are neither in [seen] nor earlier in
    [rest]. *)
Fixpoint firstOccurrences (seen rest : list Js.Value) : list Js.Value :=
  match rest with
  | [] => []
  | x :: rest' =>
      if existsb (Js.strictEq x) seen
      then firstOccurrences (seen ++ [x]) rest'
      else x :: firstOccurrences (seen ++ [x]) rest'
  end.

Lemma uniqueValues_from (seen rest : list Js.Value) :
  map fst (List.filter (fun '(value, index) => arrayIndexOf (seen ++ rest) value =? index)
                       (mapIndexed (fun value index => (value, index))
                                   (Z.of_nat (List.length seen)) rest))
  = firstOccurrences seen rest.
Proof.
  revert seen. induction rest as [|x rest IH]; intros seen; [reflexivity|].
  cbn [mapIndexed List.filter firstOccurrences].
  rewrite arrayIndexOf_after.
  specialize (IH (seen ++ [x])%list).
  rewrite <- app_assoc in IH. cbn [app] in IH.
  rewrite List.length_app in IH. cbn [List.length] in IH.
  replace (Z.of_nat (List.length seen + 1)) with (Z.of_nat (List.length seen) + 1) in IH by lia.
  destruct (existsb (Js.strictEq x) seen); cbn [negb map fst]; now rewrite IH.
Qed.

Lemma firstOccurrences_In (seen rest : list Js.Value) (v : Js.Value) :
  In v (firstOccurrences seen rest) <-> In v rest /\ ~ In v seen.
Proof.
  revert seen. induction rest as [|x rest IH]; intros seen; [cbn; tauto|].
  cbn [firstOccurrences]. destruct (existsb (Js.strictEq x) seen) eqn:E.
  - apply seen_In in E. rewrite IH, in_app_iff. cbn [In]. split.
    + intros (H1 & H2). split; [now right | tauto].
    + intros ([->|H1] & H2); [contradiction|]. split; [exact H1|].
      intros [H|[->|[]]]; [contradiction|].
      (* [v] is [x], which was seen *) contradiction.
  - assert (Hx : ~ In x seen) by (intros H; apply seen_In in H; congruence).
    cbn [In]. rewrite IH, in_app_iff. cbn [In]. split.
    + intros [->|(H1 & H2)]; [split; [now left | exact Hx] | split; [now right | tauto]].
    + intros ([->|H1] & H2); [now left|].
      destruct (strictEq_eq x v) as [_ Heq].
      destruct (Js.strictEq x v) eqn:Exv.
      * apply strictEq_eq in Exv. now left.
      * right. split; [exact H1|]. intros [H|[->|[]]]; [contradiction|].
        now rewrite strictEq_refl in Exv.
Qed.

Lemma firstOccurrences_NoDup (seen rest : list Js.Value) :
  List.NoDup (firstOccurrences seen rest).
Proof.
  revert seen. induction rest as [|x rest IH]; intros seen; [constructor|].
  cbn [firstOccurrences]. destruct (existsb (Js.strictEq x) seen); [apply IH|].
  constructor; [|apply IH].
  rewrite firstOccurrences_In, in_app_iff. cbn [In]. tauto.
Qed.

Lemma firstOccurrences_id (seen rest : list Js.Value) :
  List.NoDup rest -> (forall v, In v rest -> ~ In v seen) ->
  firstOccurrences seen rest = rest.
Proof.
  revert seen. induction rest as [|x rest IH]; intros seen Hnd Hnew; [reflexivity|].
  apply NoDup_cons_iff in Hnd as [Hx Hnd]. cbn [firstOccurrences].
  assert (E : existsb (Js.strictEq x) seen = false).
  { destruct (existsb (Js.strictEq x) seen) eqn:E; [|reflexivity].
    apply seen_In in E. exfalso. apply (Hnew x); [now left | exact E]. }
  rewrite E. f_equal. apply IH; [exact Hnd|].
  intros v Hv. rewrite in_app_iff. cbn [In].
  intros [H|[->|[]]]; [apply (Hnew v); [now right | exact H] | contradiction].
Qed.

(** X12: the filter [self.indexOf(value) === index] keeps the first
    occurrence of every value and nothing else: the result has no
    duplicates, holds exactly the values of the input, and filtering a
    second time changes nothing. *)
Theorem uniqueValues_keeps_first_occurrences (xs : list Js.Value) :
  List.NoDup (uniqueValues xs)
  /\ (forall v, In v (uniqueValues xs) <-> In v xs)
  /\ uniqueValues xs = firstOccurrences [] xs
  /\ uniqueValues (uniqueValues xs) = uniqueValues xs.
Proof.
  assert (E : forall ys, uniqueValues ys = firstOccurrences [] ys)
    by (intros ys; apply (uniqueValues_from [] ys)).
  split; [|split; [|split]].
  - rewrite E. apply firstOccurrences_NoDup.
  - intros v. rewrite E, firstOccurrences_In. cbn [In]. tauto.
  - apply E.
  - rewrite (E (uniqueValues xs)). apply firstOccurrences_id.
    + rewrite E. apply firstOccurrences_NoDup.
    + intros v _ [].
Qed.

(** A column as it was, or with its uniqueness flag set. *)
Definition sameOrUnique (c c' : ColumnSchema.t) : Prop :=
  c' = c \/ c' = ColumnSchema.setUnique c true.

Lemma sameOrUnique_refl (cs : list ColumnSchema.t) : Forall2 sameOrUnique cs cs.
Proof. induction cs; constructor; [now left | assumption]. Qed.

Lemma markUnique_step (columns : list ColumnSchema.t) (columnName : Js.Value) :
  Forall2 sameOrUnique columns (markUnique columns columnName).
Proof.
  induction columns as [|c cs IH]; [constructor|].
  cbn [markUnique]. destruct (Js.strictEq _ columnName).
  - constructor; [now right | apply sameOrUnique_refl].
  - constructor; [now left | exact IH].
Qed.

Lemma sameOrUnique_trans (xs ys zs : list ColumnSchema.t) :
  Forall2 sameOrUnique xs ys -> Forall2 sameOrUnique ys zs -> Forall2 sameOrUnique xs zs.
Proof.
  intros H. revert zs. induction H as [|x y xs ys Hxy _ IH]; intros zs Hz.
  - inversion Hz. constructor.
  - inversion Hz as [|y' z ys' zs' Hyz Hrest]; subst. constructor; [|now apply IH].
    destruct Hxy as [->| ->], Hyz as [->| ->]; unfold sameOrUnique; auto.
Qed.

Lemma markUnique_all (names : list Js.Value) (columns : list ColumnSchema.t) :
  Forall2 sameOrUnique columns (fold_left markUnique names columns).
Proof.
  revert columns. induction names as [|n names IH]; intros columns; cbn [fold_left].
  - apply sameOrUnique_refl.
  - eapply sameOrUnique_trans; [apply markUnique_step | apply IH].
Qed.

Lemma sameOrUnique_names (xs ys : list ColumnSchema.t) :
  Forall2 sameOrUnique xs ys -> map ColumnSchema.name ys = map ColumnSchema.name xs.
Proof.
  induction 1 as [|x y xs ys [->| ->] _ IH]; cbn [map]; [reflexivity | |]; now rewrite IH.
Qed.

(** A column named [n] that carries the uniqueness flag. *)
Definition flagged (n : string) (columns : list ColumnSchema.t) : Prop :=
  exists c, In c columns /\ ColumnSchema.name c = n /\ ColumnSchema.isUnique c = true.

Lemma flagged_kept (n : string) (xs ys : list ColumnSchema.t) :
  Forall2 sameOrUnique xs ys -> flagged n xs -> flagged n ys.
Proof.
  induction 1 as [|x y xs ys Hxy _ IH]; intros (c & Hin & Hn & Hu); [destruct Hin|].
  destruct Hin as [<-|Hin].
  - exists y. split; [now left|]. destruct Hxy as [->| ->]; auto.
  - destruct IH as (c' & Hin' & H'); [exists c; auto|]. exists c'. split; [now right | exact H'].
Qed.

Lemma markUnique_flags (n : string) (columns : list ColumnSchema.t) :
  In n (map ColumnSchema.name columns) -> flagged n (markUnique columns (Js.Str n)).
Proof.
  induction columns as [|c cs IH]; intros Hin; [destruct Hin|].
  cbn [markUnique Js.strictEq]. destruct (String.eqb_spec (ColumnSchema.name c) n) as [E|N].
  - exists (ColumnSchema.setUnique c true). split; [now left | auto].
  - destruct Hin as [E|Hin]; [contradiction|].
    destruct (IH Hin) as (c' & Hin' & H'). exists c'. split; [now right | exact H'].
Qed.

(** X13: marking the columns of the unique auto-indexes changes nothing
    but uniqueness flags, which it only sets: the columns keep their
    number, order, names and other fields, and a column whose name is among
    the marked names ends up with the flag set. *)
Theorem markUnique_sets_only_the_flag
        (names : list Js.Value) (columns : list ColumnSchema.t) (n : string) :
  In (Js.Str n) names ->
  In n (map ColumnSchema.name columns) ->
  let marked := fold_left markUnique names columns in
  Forall2 (fun c c' => c' = c \/ c' = ColumnSchema.setUnique c true) columns marked
  /\ map ColumnSchema.name marked = map ColumnSchema.name columns
  /\ exists c, In c marked /\ ColumnSchema.name c = n /\ ColumnSchema.isUnique c = true.
Proof.
  intros Hn Hcol marked. subst marked.
  split; [apply markUnique_all|]. split; [apply sameOrUnique_names, markUnique_all|].
  revert columns Hcol. induction names as [|v names IH]; intros columns Hcol; [destruct Hn|].
  cbn [fold_left]. destruct Hn as [->|Hn].
  - eapply flagged_kept; [apply markUnique_all | now apply markUnique_flags].
  - apply IH; [exact Hn|].
    rewrite (sameOrUnique_names _ _ (markUnique_step columns v)). exact Hcol.
Qed.

(** ** Detection of the generated column *)

Lemma indexOf_range (s t : string) : Js.indexOf s t = -1 \/ 0 <= Js.indexOf s t.
Proof.
  induction s as [|c s IH]; cbn [Js.indexOf].
  - destruct (String.prefix t EmptyString); [right; lia | now left].
  - destruct (String.prefix t (String c s)); [right; lia|].
    destruct (Js.indexOf s t <? 0) eqn:L; [now left | apply Z.ltb_ge in L; right; lia].
Qed.

Lemma indexOf_occurrence (s t : string) :
  0 <= Js.indexOf s t -> exists u v, s = u +:+ t +:+ v.
Proof.
  induction s as [|c s IH]; cbn [Js.indexOf].
  - destruct (String.prefix t EmptyString) eqn:E; [|lia]. intros _.
    apply JsFacts.prefix_occurrence in E as [v ->]. exists EmptyString, v. reflexivity.
  - destruct (String.prefix t (String c s)) eqn:E.
    + intros _. apply JsFacts.prefix_occurrence in E as [v ->].
      exists EmptyString, v. reflexivity.
    + destruct (Js.indexOf s t <? 0) eqn:L; [lia|]. intros _.
      apply Z.ltb_ge in L. destruct (IH L) as (u & v & ->).
      exists (String c u), v. reflexivity.
Qed.

Lemma occurrence_indexOf (u t v : string) : 0 <= Js.indexOf (u +:+ t +:+ v) t.
Proof.
  induction u as [|c u IH].
  - rewrite JsFacts.append_empty_l.
    pose proof (JsFacts.prefix_append t v) as E.
    destruct (t +:+ v); cbn [Js.indexOf]; rewrite E; lia.
  - rewrite JsFacts.append_cons. cbn [Js.indexOf].
    destruct (String.prefix t _); [lia|].
    destruct (Js.indexOf (u +:+ t +:+ v) t <? 0) eqn:L; [apply Z.ltb_lt in L; lia | lia].
Qed.

(** X14: the detection answers [undefined] exactly for creation text in
    which the keyword AUTOINCREMENT does not occur; whenever the keyword
    occurs some text is returned as the name of the generated column. *)
Theorem autoIncrement_undefined_iff_no_keyword (tableSql : string) :
  autoIncrementColumnName tableSql = None
  <-> ~ exists u v, tableSql = u +:+ "AUTOINCREMENT" +:+ v.
Proof.
  unfold autoIncrementColumnName. split.
  - intros H (u & v & ->).
    pose proof (occurrence_indexOf u "AUTOINCREMENT" v) as Hpos.
    destruct (Js.indexOf (u +:+ "AUTOINCREMENT" +:+ v) "AUTOINCREMENT" =? -1) eqn:E.
    + apply Z.eqb_eq in E. lia.
    + cbn [negb] in H.
      destruct (negb (_ =? -1)); [discriminate|]. destruct (negb (_ =? -1)); discriminate.
  - intros Hno.
    destruct (Js.indexOf tableSql "AUTOINCREMENT" =? -1) eqn:E; [reflexivity|].
    exfalso. apply Hno. apply indexOf_occurrence.
    apply Z.eqb_neq in E. destruct (indexOf_range tableSql "AUTOINCREMENT"); lia.
Qed.

(** ** The descriptors built by the catalog reader *)




(** What a resolved run went through. *)
Lemma mapResult_Ok {A B} (f : A -> Result B) (xs : list A) (ys : list B) :
  mapResult f xs = Ok ys -> Forall2 (fun x y => f x = Ok y) xs ys.
Proof.
  revert ys. induction xs as [|x xs IH]; intros ys; cbn [mapResult].
  - intros [= <-]. constructor.
  - destruct (f x) as [y|e] eqn:Hx; [|discriminate].
    destruct (mapResult f xs) as [ys'|e]; [|discriminate].
    intros [= <-]. constructor; [exact Hx | now apply IH].
Qed.

Lemma addForeignKeys_all (foreignKeys : list (list ForeignKeySchema.t)) (ts : TableSchema.t) :
  fold_left (fun ts fks => TableSchema.addForeignKeys ts fks) foreignKeys ts
  = TableSchema.setForeignKeys ts (TableSchema.foreignKeys ts ++ concat foreignKeys)%list.
Proof.
  revert ts. induction foreignKeys as [|fks rest IH]; intros ts; cbn [fold_left concat].
  - rewrite app_nil_r. now destruct ts.
  - rewrite IH. unfold TableSchema.addForeignKeys, TableSchema.setForeignKeys.
    cbn. now rewrite <- app_assoc.
Qed.

Lemma substring_whole_prefix (n : nat) (s : string) :
  substring 0 (Nat.min n (String.length s)) s = substring 0 n s.
Proof.
  revert n. induction s as [|c s IH]; intros [|n]; cbn; try reflexivity.
  now rewrite IH.
Qed.

Lemma substr_head (s t : string) :
  Js.substr s 0 (Some (Js.len t)) = substring 0 (String.length t) s.
Proof.
  unfold Js.substr, Js.len. cbn [Z.ltb Z.compare].
  rewrite (Z.min_l 0) by lia. rewrite Z.max_l, Z.sub_0_r by lia.
  rewrite Z2Nat.inj_min, !Nat2Z.id. cbn [Z.to_nat]. apply substring_whole_prefix.
Qed.

Lemma loadColumn_raw (namingStrategy : NamingStrategyInterface) (dbTable dbColumn : Js.ObjectLiteral)
      (autoIncrement : option string) (dbForeignKeys : QueryResult)
      (loaded : ColumnSchema.t * list ForeignKeySchema.t) :
  loadColumn namingStrategy dbTable autoIncrement dbForeignKeys dbColumn = Ok loaded ->
  ColumnSchema.name (fst loaded) = Js.toStr (Js.prop dbColumn "name")
  /\ ColumnSchema.metadata (fst loaded) = None
  /\ Forall (fun foreignKey =>
               ForeignKeySchema.columnNames foreignKey = [ColumnSchema.name (fst loaded)]
               /\ List.length (ForeignKeySchema.referencedColumnNames foreignKey) = 1%nat)
            (snd loaded).
Proof.
  unfold loadColumn.
  destruct (Js.prop dbColumn "type") as [| | | |type]; try discriminate.
  destruct dbForeignKeys as [rows_|raw]; [|discriminate].
  intros [= <-]. cbn [fst snd ColumnSchema.name ColumnSchema.metadata]. repeat split.
  apply List.Forall_forall. intros foreignKey Hin.
  apply in_map_iff in Hin as (row & <- & Hrow).
  apply filter_In in Hrow as [_ Heq]. apply strictEq_eq in Heq.
  cbn [ForeignKeySchema.columnNames ForeignKeySchema.referencedColumnNames].
  now rewrite Heq.
Qed.

Lemma yields_True {A} (p : Promise (DB := DB) A) : yields (fun _ => True) p.
Proof.
  induction p as [a|e rest|resume IH] using Promise_induction; constructor; auto.
Qed.

Lemma callYields_True {A} (call : M (Promise A)) : callYields (fun _ => True) call.
Proof. intros st. destruct (call st) as [st' [p|e]]; [apply yields_True | exact I]. Qed.

Lemma promiseAll_map_Ok {X A} (R : X -> A -> Prop) (f : X -> M (Promise A)) (xs : list X)
      (st st' : State DB) (l : list A) :
  (forall x, callYields (R x) (f x)) ->
  promiseAll (map f xs) st = (st', Ok l) ->
  Forall2 R xs l.
Proof.
  intros Hf Hrun. unfold promiseAll in Hrun.
  exact (await_yields _ _ _ _ _ (callYields_allOf_map R f xs Hf) Hrun).
Qed.

(** What the callback of an index is fulfilled with. *)
Lemma loadIndex_yields (dbTable : Js.ObjectLiteral) (dbIndices : list Js.ObjectLiteral)
      (dbIndexName : Js.Value) :
  callYields
    (fun loaded =>
       forall columns index,
         loaded = (columns, Some index) ->
         IndexSchema.tableName index = Js.toStr (Js.prop dbTable "name")
         /\ Js.Str (IndexSchema.name index) = dbIndexName
         /\ String.prefix "sqlite_autoindex" (IndexSchema.name index) = false)
    (loadIndex executeSql dbTable dbIndices dbIndexName).
Proof.
  unfold loadIndex. apply callYields_async.
  destruct (find _ dbIndices) as [dbIndex|] eqn:Hfind; [|apply bodyYields_reject].
  apply find_some in Hfind as [_ Hname]. apply strictEq_eq in Hname.
  apply (bodyYields_awaiting (fun _ => True)); [apply callYields_True|]. intros indexInfos _.
  apply (bodyYields_sync (fun _ => True)); [auto|]. intros infos _.
  destruct (Js.prop dbIndex "name") as [| | | |name]; try apply bodyYields_reject.
  rewrite substr_head.
  destruct (String.eqb _ "sqlite_autoindex") eqn:Hauto.
  - destruct (Js.strictEq _ _); apply bodyYields_resolve; discriminate.
  - apply bodyYields_resolve. intros columns index [= _ <-].
    cbn [IndexSchema.tableName IndexSchema.name]. repeat split; [exact Hname|].
    destruct (String.prefix "sqlite_autoindex" name) eqn:Hp; [|reflexivity].
    apply String.prefix_correct in Hp. rewrite Hp in Hauto. discriminate.
Qed.

(** What the callback of a table is fulfilled with. *)
Lemma loadTable_yields (namingStrategy : NamingStrategyInterface) (dbTable : Js.ObjectLiteral) :
  callYields
    (fun tableSchema =>
       TableSchema.name tableSchema = Js.toStr (Js.prop dbTable "name")
       /\ Forall (fun column => ColumnSchema.metadata column = None)
                 (TableSchema.columns tableSchema)
       /\ Forall (fun foreignKey =>
                    exists n, ForeignKeySchema.columnNames foreignKey = [n]
                              /\ In n (map ColumnSchema.name (TableSchema.columns tableSchema))
                              /\ List.length (ForeignKeySchema.referencedColumnNames foreignKey)
                                 = 1%nat)
                 (TableSchema.foreignKeys tableSchema)
       /\ Forall (fun index =>
                    IndexSchema.tableName index = TableSchema.name tableSchema
                    /\ String.prefix "sqlite_autoindex" (IndexSchema.name index) = false)
                 (TableSchema.indices tableSchema))
    (loadTable executeSql namingStrategy dbTable).
Proof.
  unfold loadTable. cbv zeta. apply callYields_async.
  apply (bodyYields_awaiting (fun _ => True)); [apply callYields_True|]. intros loaded _.
  destruct loaded as [|a [|b [|c [|d rest]]]]; try apply bodyYields_reject.
  destruct (Js.prop dbTable "sql") as [| | | |tableSql]; try apply bodyYields_reject.
  apply (bodyYields_sync (fun _ => True)); [auto|]. intros dbColumns _.
  apply (bodyYields_sync
           (fun loadedColumns =>
              Forall2 (fun dbColumn loaded =>
                         loadColumn namingStrategy dbTable (autoIncrementColumnName tableSql) c
                                    dbColumn = Ok loaded)
                      dbColumns loadedColumns)).
  { intros st st' loadedColumns. unfold liftResult. intros [= _ H]. now apply mapResult_Ok. }
  intros loadedColumns Hcols.
  apply (bodyYields_sync (fun _ => True)); [auto|]. intros dbIndices _.
  apply (bodyYields_awaiting (fun _ => True)); [apply callYields_True|]. intros primaryKeys _.
  match goal with
  | |- bodyYields _ (awaiting (allOf (map _ ?names)) _) =>
      apply (bodyYields_awaiting
               (fun indices =>
                  Forall2 (fun dbIndexName loaded =>
                             forall columns index,
                               loaded = (columns, Some index) ->
                               IndexSchema.tableName index = Js.toStr (Js.prop dbTable "name")
                               /\ Js.Str (IndexSchema.name index) = dbIndexName
                               /\ String.prefix "sqlite_autoindex" (IndexSchema.name index)
                                  = false)
                          names indices))
  end.
  { apply callYields_allOf_map. intros dbIndexName. apply loadIndex_yields. }
  intros indices Hidx. apply bodyYields_resolve.
  rewrite addForeignKeys_all.
  cbn [TableSchema.name TableSchema.columns TableSchema.foreignKeys TableSchema.indices
       TableSchema.setColumns TableSchema.setIndices TableSchema.setForeignKeys
       TableSchema.setPrimaryKeys TableSchema.new app].
  pose proof (markUnique_all (concat (map fst indices)) (map fst loadedColumns)) as Hmark.
  assert (Hraw : Forall (fun loaded =>
                           ColumnSchema.metadata (fst loaded) = None
                           /\ Forall (fun foreignKey =>
                                        ForeignKeySchema.columnNames foreignKey
                                        = [ColumnSchema.name (fst loaded)]
                                        /\ List.length (ForeignKeySchema.referencedColumnNames
                                                          foreignKey) = 1%nat)
                                     (snd loaded))
                        loadedColumns).
  { eapply Forall2_Forall_r; [exact Hcols|].
    apply List.Forall_forall. intros dbColumn _ loaded Hl.
    now apply loadColumn_raw in Hl as (_ & Hm & Hf). }
  repeat split.
  - clear - Hmark Hraw.
    assert (H0 : Forall (fun column => ColumnSchema.metadata column = None)
                        (map fst loadedColumns)).
    { apply List.Forall_forall. intros column Hin. apply in_map_iff in Hin as (l & <- & Hin).
      rewrite List.Forall_forall in Hraw. now apply Hraw. }
    revert H0. induction Hmark as [|x y xs ys Hxy _ IH]; intros H0; [constructor|].
    inversion H0; subst. constructor; [|now apply IH].
    destruct Hxy as [->| ->]; assumption.
  - rewrite (sameOrUnique_names _ _ Hmark).
    apply List.Forall_forall. intros foreignKey Hin.
    apply in_concat in Hin as (fks & Hfks & Hin).
    apply in_map_iff in Hfks as (l & <- & Hl).
    rewrite List.Forall_forall in Hraw. destruct (Hraw l Hl) as [_ Hf].
    rewrite List.Forall_forall in Hf. destruct (Hf foreignKey Hin) as [Hc Hr].
    exists (ColumnSchema.name (fst l)). repeat split; [exact Hc | | exact Hr].
    apply in_map. now apply in_map.
  - apply List.Forall_forall. intros index Hin.
    apply list_elem_of_In, list_elem_of_omap in Hin as ([columns o] & Hin & Ho).
    cbn [snd] in Ho. subst o.
    assert (Hall : Forall (fun loaded =>
                             forall columns index, loaded = (columns, Some index) ->
                               IndexSchema.tableName index = Js.toStr (Js.prop dbTable "name")
                               /\ String.prefix "sqlite_autoindex" (IndexSchema.name index) = false)
                          indices).
    { eapply Forall2_Forall_r; [exact Hidx|].
      apply List.Forall_forall. intros n _ loaded Hl cs ix E.
      now destruct (Hl cs ix E) as (Ht & _ & Hp). }
    rewrite List.Forall_forall in Hall. apply list_elem_of_In in Hin.
    exact (Hall _ Hin columns index eq_refl).
Qed.

(** X16: whatever the engine answers, every descriptor [loadSchemaTables]
    resolves with is consistent: its columns carry raw types, each foreign
    key is a key of one column of the table onto one referenced column,
    each index belongs to the table and is no [sqlite_autoindex], and the
    CREATE TABLE statements of the descriptor can be rendered, so creating
    or recreating it can only fail in the engine. *)
Theorem loaded_tables_are_consistent
        (tableNames : option (list string)) (namingStrategy : NamingStrategyInterface)
        (st st' : State DB) (tables : list TableSchema.t) :
  loadSchemaTables executeSql tableNames namingStrategy st = (st', Ok tables) ->
  Forall (fun tableSchema =>
            Forall (fun column => ColumnSchema.metadata column = None)
                   (TableSchema.columns tableSchema)
            /\ Forall (fun foreignKey =>
                         exists n,
                           ForeignKeySchema.columnNames foreignKey = [n]
                           /\ In n (map ColumnSchema.name (TableSchema.columns tableSchema))
                           /\ List.length (ForeignKeySchema.referencedColumnNames foreignKey)
                              = 1%nat)
                      (TableSchema.foreignKeys tableSchema)
            /\ Forall (fun index =>
                         IndexSchema.tableName index = TableSchema.name tableSchema
                         /\ String.prefix "sqlite_autoindex" (IndexSchema.name index) = false)
                      (TableSchema.indices tableSchema)
            /\ exists sql sql1,
                createTableSql tableSchema = Ok sql /\ recreateTableSql1 tableSchema = Ok sql1)
         tables.
Proof.
  intros H. unfold loadSchemaTables in H.
  unfold bind at 1 in H. destruct (throwIfReleased st) as [s1 [[]|e]]; [|discriminate].
  assert (Hnil : forall s, ret (A := list TableSchema.t) [] s = (st', Ok tables) -> tables = []).
  { intros s. unfold ret. now intros [= _ <-]. }
  destruct tableNames as [[|name names]|];
    [apply Hnil in H; subst; constructor | | apply Hnil in H; subst; constructor].
  unfold bind at 1 in H.
  destruct (await (query executeSql _ []) s1) as [s2 [dbTables|e]]; [|discriminate].
  destruct dbTables as [[|dbTable dbTables]|raw];
    [apply Hnil in H; subst; constructor | | apply Hnil in H; subst; constructor].
  eapply promiseAll_map_Ok in H; [|intros row; apply loadTable_yields].
  eapply Forall2_Forall_r; [exact H|].
  apply List.Forall_forall. intros row _ tableSchema (_ & Hraw & Hfk & Hidx).
  repeat split; [exact Hraw | exact Hfk | exact Hidx |].
  apply raw_columns_render. now apply List.Forall_forall.
Qed.

(** X17: on a runner that is not released, asked for a list of names that
    is not empty, [loadSchemaTables] resolves with one descriptor per row
    the catalog query returned, in the order of the rows and named after
    them. *)
Theorem loadSchemaTables_one_descriptor_per_row
        (st st' : State DB) (name : string) (names : list string)
        (namingStrategy : NamingStrategyInterface) (db : DB) (result : SqlResult)
        (dbTables : list Js.ObjectLiteral) (tables : list TableSchema.t) :
  isReleased st = false ->
  executeSql (conn st)
             "SELECT * FROM sqlite_master WHERE type = 'table' AND name != 'sqlite_sequence'" []
  = (db, inr result) ->
  rows result = Some dbTables ->
  loadSchemaTables executeSql (Some (name :: names)) namingStrategy st = (st', Ok tables) ->
  map TableSchema.name tables
  = map (fun dbTable => Js.toStr (Js.prop dbTable "name")) dbTables.
Proof.
  intros Hrel Hexec Hrows H. unfold loadSchemaTables in H.
  unfold bind at 1 in H. unfold throwIfReleased in H. rewrite Hrel in H.
  unfold bind in H. rewrite query_unreleased, Hexec, Hrows in H by exact Hrel.
  destruct dbTables as [|dbTable dbTables].
  - unfold ret in H. now injection H as _ <-.
  - eapply promiseAll_map_Ok in H; [|intros row; apply loadTable_yields]. clear Hrows.
    remember (dbTable :: dbTables) as l eqn:E. clear E.
    induction H as [|row tableSchema l tables (Hname & _) _ IH]; [reflexivity|].
    cbn [map]. now rewrite Hname, IH.
Qed.

(** ** Closure tables *)

Variable parseInt : Js.Value -> option Z.

(** X18: [insertIntoClosureTable] on a runner that is not released
    executes its INSERT and then, only if the engine accepted the INSERT,
    the query for the highest level; an error of either statement is the
    caller's error.  The INSERT names the escaped table, the query names
    the table as passed.  The level returned is 1 when the query has no
    first row or when the level of its first row is null, zero, empty or
    missing; otherwise it is the integer read off that level, plus one. *)
Theorem insertIntoClosureTable_outcome
        (st : State DB) (tableName : string) (newEntityId parentId : Js.Value)
        (hasLevel : bool) :
  let id := Js.toStr newEntityId in
  let parent := Js.toStr parentId in
  let table := escapeTableName driver tableName in
  let insertSql :=
    if hasLevel then
      "INSERT INTO " +:+ table +:+ "(ancestor, descendant, level) SELECT ancestor, " +:+ id
      +:+ ", level + 1 FROM " +:+ table +:+ " WHERE descendant = " +:+ parent
      +:+ " UNION ALL SELECT " +:+ id +:+ ", " +:+ id +:+ ", 1"
    else
      "INSERT INTO " +:+ table +:+ "(ancestor, descendant) SELECT ancestor, " +:+ id
      +:+ " FROM " +:+ table +:+ " WHERE descendant = " +:+ parent
      +:+ " UNION ALL SELECT " +:+ id +:+ ", " +:+ id in
  let selectSql :=
    "SELECT MAX(level) as level FROM " +:+ tableName +:+ " WHERE descendant = " +:+ parent in
  let run := insertIntoClosureTable executeSql driver parseInt tableName newEntityId parentId
                                    hasLevel st in
  isReleased st = false ->
  match executeSql (conn st) insertSql [] with
  | (_, inl error) =>
      snd run = Throw (Rejected error)
      /\ issued (logger (fst run)) = (issued (logger st) ++ [insertSql])%list
  | (db, inr _) =>
      issued (logger (fst run)) = (issued (logger st) ++ [insertSql; selectSql])%list
      /\ match snd (executeSql db selectSql []) with
         | inl error => snd run = Throw (Rejected error)
         | inr result =>
             snd run
             = Ok (match rows result with
                   | Some (row :: _) =>
                       if Js.truthy (Js.prop row "level")
                       then option_map (fun level => level + 1) (parseInt (Js.prop row "level"))
                       else Some 1
                   | _ => Some 1
                   end)
         end
  end.
Proof.
  intros id parent table insertSql selectSql run Hrel.
  assert (Esql : (if hasLevel then
                    ("INSERT INTO " +:+ escapeTableName driver tableName
                     +:+ "(ancestor, descendant, level) ")
                    +:+ ("SELECT ancestor, " +:+ Js.toStr newEntityId +:+ ", level + 1 FROM "
                         +:+ escapeTableName driver tableName +:+ " WHERE descendant = "
                         +:+ Js.toStr parentId +:+ " ")
                    +:+ ("UNION ALL SELECT " +:+ Js.toStr newEntityId +:+ ", "
                         +:+ Js.toStr newEntityId +:+ ", 1")
                  else
                    ("INSERT INTO " +:+ escapeTableName driver tableName
                     +:+ "(ancestor, descendant) ")
                    +:+ ("SELECT ancestor, " +:+ Js.toStr newEntityId +:+ " FROM "
                         +:+ escapeTableName driver tableName +:+ " WHERE descendant = "
                         +:+ Js.toStr parentId +:+ " ")
                    +:+ ("UNION ALL SELECT " +:+ Js.toStr newEntityId +:+ ", "
                         +:+ Js.toStr newEntityId))
                 = insertSql).
  { subst insertSql id parent table. destruct hasLevel; norm_append; reflexivity. }
  set (cb := DatabaseConnection.releaseCallback (databaseConnection st)).
  set (level := fun result : SqlResult =>
         match rows result with
         | Some (row :: _) =>
             if Js.truthy (Js.prop row "level")
             then option_map (fun level => level + 1) (parseInt (Js.prop row "level"))
             else Some 1
         | _ => Some 1
         end).
  assert (Hrun : run
                 = match executeSql (conn st) insertSql [] with
                   | (db, inl error) =>
                       (mkState false (DatabaseConnection.mk db (active st) cb)
                                (logger st ++ failure insertSql [] error) (heap st),
                        Throw (Rejected error))
                   | (db, inr _) =>
                       match executeSql db selectSql [] with
                       | (db2, inl error) =>
                           (mkState false (DatabaseConnection.mk db2 (active st) cb)
                                    ((logger st ++ [LogQuery insertSql []])
                                       ++ failure selectSql [] error) (heap st),
                            Throw (Rejected error))
                       | (db2, inr result) =>
                           (mkState false (DatabaseConnection.mk db2 (active st) cb)
                                    ((logger st ++ [LogQuery insertSql []])
                                       ++ [LogQuery selectSql []]) (heap st),
                            Ok (level result))
                       end
                   end).
  { subst run. unfold insertIntoClosureTable. cbv zeta. rewrite Esql.
    unfold bind at 1, throwIfReleased. rewrite Hrel.
    unfold bind at 1. rewrite query_unreleased by exact Hrel.
    destruct (executeSql (conn st) insertSql []) as [db [error|result1]]; [reflexivity|].
    unfold bind at 1. rewrite query_unreleased by reflexivity.
    cbn [databaseConnection DatabaseConnection.connection].
    fold parent. fold selectSql.
    destruct (executeSql db selectSql []) as [db2 [error|result2]]; [reflexivity|].
    subst level. cbv beta.
    destruct (rows result2) as [[|row more]|]; try reflexivity.
    destruct (Js.truthy (Js.prop row "level")); reflexivity. }
  rewrite Hrun. clear Hrun.
  destruct (executeSql (conn st) insertSql []) as [db [error|result1]].
  - cbn [fst snd logger]. unfold failure. rewrite issued_app. split; reflexivity.
  - destruct (executeSql db selectSql []) as [db2 [error|result2]];
      cbn [fst snd logger]; unfold failure; rewrite !issued_app, <- app_assoc;
      split; reflexivity.
Qed.

End MoreProperties.

(** ** The further properties on concrete runs *)

Module Run.

(** A runner on an engine that accepts every statement. *)
Definition idle : State Script := freshState [] None.

Definition accepted : SqlResult := mkSqlResult (Some []) Js.Undefined.

(** The drop statements the catalog answers with. *)
Definition selectDropsQuery : string :=
  "select 'drop table ' || name || ';' as query from sqlite_master where type = 'table' and name != 'sqlite_sequence'".

Definition dropQueries : list Js.ObjectLiteral :=
  [[("query", Js.Str "drop table a;")]; [("query", Js.Str "drop table b;")]].

(** A column declared with metadata of a type the driver has no case for. *)
Definition pointColumn : ColumnSchema.t :=
  ColumnSchema.mk "p" "point" Js.Undefined true false false false EmptyString
    (Some (ColumnMetadata.mk "point" "point" Js.Undefined Js.Undefined Js.Undefined
                             Js.Undefined)).




(** The closure table [c] whose deepest ancestor of 2 is at level 3. *)
Definition closure : Script :=
  [("SELECT MAX(level) as level FROM c WHERE descendant = 2",
    Example.resultRows [[("level", Js.Num 3)]])].

Definition parseInt (value : Js.Value) : option Z :=
  match value with
  | Js.Num n => Some n
  | _ => None
  end.

End Run.

Lemma beginTransaction_sets_flag_first_witness :
  let st' := fst (beginTransaction scripted Run.idle) in
  beginTransaction scripted st' = (st', Throw TransactionAlreadyStartedError).
Proof.
  exact (proj2 (proj2 (proj2 (beginTransaction_sets_flag_first scripted Run.idle
                                eq_refl eq_refl)))).
Defined.

Lemma commit_and_rollback_outcome_witness :
  let st := fst (beginTransaction scripted Run.idle) in
  snd (commitTransaction scripted st) = Ok tt
  /\ DatabaseConnection.isTransactionActive
       (databaseConnection (fst (commitTransaction scripted st))) = false.
Proof.
  exact (proj2 (proj1 (commit_and_rollback_outcome
                         scripted (fst (beginTransaction scripted Run.idle)) eq_refl))).
Defined.

Lemma transaction_round_trip_witness :
  bind (beginTransaction scripted) (fun _ => rollbackTransaction scripted) Run.idle
  = (mkState false (DatabaseConnection.mk [] false None)
             [LogQuery "BEGIN TRANSACTION" []; LogQuery "ROLLBACK" []] ∅,
     Ok tt).
Proof.
  exact (transaction_round_trip scripted Run.idle false [] [] Run.accepted Run.accepted
                                eq_refl eq_refl eq_refl eq_refl).
Defined.

Lemma insert_statement_witness :
  insert scripted plainDriver "t" [("a", Js.Num 1); ("b", Js.Str "x")] false Run.idle
  = (mkState false (DatabaseConnection.mk [] false None)
             [LogQuery ("INSERT INTO " +:+ quoted "t" +:+ "(" +:+ quoted "a" +:+ ", "
                        +:+ quoted "b" +:+ ") VALUES ($1,$2)")
                       [Js.Num 1; Js.Str "x"]] ∅,
     Ok Js.Undefined).
Proof.
  apply (insert_statement scripted plainDriver Run.idle "t"
           [("a", Js.Num 1); ("b", Js.Str "x")] false); [reflexivity | compute_done].
Defined.

Lemma update_and_delete_statements_witness :
  delete scripted plainDriver "t" [("id", Js.Num 7)]
  = bind throwIfReleased
      (fun _ => bind (await (query scripted ("DELETE FROM " +:+ quoted "t" +:+ " WHERE "
                                      +:+ quoted "id" +:+ "=$1") [Js.Num 7]))
                  (fun _ => ret tt)).
Proof.
  apply (update_and_delete_statements scripted plainDriver "t"
           [("a", Js.Num 1)] [("id", Js.Num 7)]); compute_done.
Defined.

Lemma unsupported_type_stops_before_any_statement_witness :
  exists type,
    createTable scripted (TableSchema.mk "t" [Run.pointColumn] [] [] []) Run.idle
    = (Run.idle, Throw (DataTypeNotSupportedByDriverError type "SQLite"))
    /\ recreateTable scripted (TableSchema.mk "t" [Run.pointColumn] [] [] []) Run.idle
       = (Run.idle, Throw (DataTypeNotSupportedByDriverError type "SQLite")).
Proof.
  apply (unsupported_type_stops_before_any_statement
           scripted Run.idle (TableSchema.mk "t" [Run.pointColumn] [] [] []) Run.pointColumn
           (ColumnMetadata.mk "point" "point" Js.Undefined Js.Undefined Js.Undefined
                              Js.Undefined));
    [reflexivity | simpl; auto | reflexivity | reflexivity].
Defined.

Lemma clearDatabase_issues_every_drop_witness :
  issued (logger (fst (clearDatabase scripted
                         (freshState [(Run.selectDropsQuery, Example.resultRows Run.dropQueries)]
                                     None))))
  = [Run.selectDropsQuery; "drop table a;"; "drop table b;"].
Proof.
  exact (clearDatabase_issues_every_drop
           scripted
           (freshState [(Run.selectDropsQuery, Example.resultRows Run.dropQueries)] None)
           [(Run.selectDropsQuery, Example.resultRows Run.dropQueries)]
           (mkSqlResult (Some Run.dropQueries) Js.Undefined) eq_refl eq_refl).
Defined.

Lemma rebuild_issues_every_index_witness :
  issued (logger (fst (promiseAll (map (createIndex scripted)
                                       (TableSchema.indices Example.indexed))
                                  Run.idle)))
  = [createIndexSql (IndexSchema.mk "t" "idx_t_a" ["a"] true)].
Proof.
  exact (rebuild_issues_every_index scripted Run.idle Example.indexed eq_refl).
Defined.

Lemma recreateTable_success_sequence_witness :
  exists sql1 db1 result1 db2 result2,
    recreateTableSql1 Example.table = Ok sql1
    /\ scripted Example.script sql1 [] = (db1, inr result1)
    /\ scripted db1 Example.probe [] = (db2, inr result2)
    /\ issued (logger (fst (recreateTable scripted Example.table
                                          (freshState Example.script None))))
       = ([sql1; Example.probe]
          ++ match rows result2 with
             | Some (firstRow :: _) => [recreateTableSql2 Example.table firstRow]
             | _ => []
             end
          ++ ["DROP TABLE " +:+ quoted "t";
              "ALTER TABLE " +:+ quoted "temporary_t" +:+ " RENAME TO " +:+ quoted "t"])%list.
Proof.
  exact (recreateTable_success_sequence scripted (freshState Example.script None)
                                        Example.table eq_refl eq_refl).
Defined.

Lemma markUnique_sets_only_the_flag_witness :
  exists c,
    In c (fold_left markUnique [Js.Str "a"; Js.Str "a"] (TableSchema.columns Example.indexed))
    /\ ColumnSchema.name c = "a" /\ ColumnSchema.isUnique c = true.
Proof.
  apply (markUnique_sets_only_the_flag [Js.Str "a"; Js.Str "a"]
           (TableSchema.columns Example.indexed) "a"); simpl; auto.
Defined.


Lemma loaded_tables_are_consistent_witness :
  Forall (fun index =>
            IndexSchema.tableName index = "t"
            /\ String.prefix "sqlite_autoindex" (IndexSchema.name index) = false)
         [IndexSchema.mk "t" "idx_t_a" ["a"] false].
Proof.
  assert (Hrun : loadSchemaTables scripted (Some ["t"]) plainNaming
                                  (freshState Example.indexedCatalog None)
                 = (fst (loadSchemaTables scripted (Some ["t"]) plainNaming
                                          (freshState Example.indexedCatalog None)),
                    Ok [TableSchema.setIndices Example.indexed
                          [IndexSchema.mk "t" "idx_t_a" ["a"] false]]))
    by (vm_compute; reflexivity).
  exact (proj1 (proj2 (proj2 (Forall_inv (loaded_tables_are_consistent
                                            scripted _ _ _ _ _ Hrun))))).
Defined.

Lemma loadSchemaTables_one_descriptor_per_row_witness :
  map TableSchema.name
      [TableSchema.mk "a" [Example.column "x" "text" false false false false] [] [] [];
       TableSchema.mk "b" [Example.column "y" "text" false false false false] [] [] []]
  = ["a"; "b"].
Proof.
  assert (Hrun : loadSchemaTables scripted (Some ["a"]) plainNaming
                                  (freshState Example.twoTables None)
                 = (fst (loadSchemaTables scripted (Some ["a"]) plainNaming
                                          (freshState Example.twoTables None)),
                    Ok [TableSchema.mk "a" [Example.column "x" "text" false false false false]
                                       [] [] [];
                        TableSchema.mk "b" [Example.column "y" "text" false false false false]
                                       [] [] []]))
    by (vm_compute; reflexivity).
  exact (loadSchemaTables_one_descriptor_per_row
           scripted (freshState Example.twoTables None) _ "a" [] plainNaming
           Example.twoTables
           (mkSqlResult
              (Some [Example.masterRow "a" ("CREATE TABLE " +:+ quoted "a" +:+ " ("
                                            +:+ quoted "x" +:+ " text NOT NULL)");
                     Example.masterRow "b" ("CREATE TABLE " +:+ quoted "b" +:+ " ("
                                            +:+ quoted "y" +:+ " text NOT NULL)")])
              Js.Undefined)
           _ _ eq_refl eq_refl eq_refl Hrun).
Defined.

Lemma insertIntoClosureTable_outcome_witness :
  snd (insertIntoClosureTable scripted plainDriver Run.parseInt "c" (Js.Num 5) (Js.Num 2) true
                              (freshState Run.closure None))
  = Ok (Some 4).
Proof.
  exact (proj2 (insertIntoClosureTable_outcome
                  scripted plainDriver Run.parseInt (freshState Run.closure None)
                  "c" (Js.Num 5) (Js.Num 2) true eq_refl)).
Defined.
